(** * FIB paths (vnet/fib/fib_path.c): a shallow embedding and its properties

    A path is one way to reach a destination.  The embedding follows
    fib_path.c function by function.  Unsigned 32-bit values are carried
    in [Z]; flag words are bit masks handled with [Z.land] and [Z.lor].
    Calls into the collaborating layers (adjacency, FIB entry and table,
    DPO, interface state, load-balance maps, path-list) are answered by an
    oracle record, and the calls that change a collaborator are recorded,
    in program order, in a trace of events. *)

From Stdlib Require Import ZArith List Bool Lia.
Import ListNotations.
Open Scope Z_scope.

(** ** Machine integers *)

Definition U32_MOD : Z := 4294967296.

(** [~0] at type u32. *)
Definition U32_MAX : Z := 4294967295.

(** Truncation of a C [int] expression on storing it into a packed
    (one byte) enum. *)
Definition to_u8 (x : Z) : Z := Z.land x 255.

(** Result of [a - b] on two u32 operands, converted to [int]. *)
Definition u32_sub_as_int (a b : Z) : Z :=
  let d := (a - b) mod U32_MOD in
  if d <? 2147483648 then d else d - U32_MOD.

(** The C truth value of [flags & FLAG]. *)
Definition flag_test (flags FLAG : Z) : bool := negb (Z.land flags FLAG =? 0).

(** ** Errors

    [ASSERT]s abort in a debug image and are compiled out otherwise;
    [pool_elt_at_index] requires the index of a live element. *)

Inductive result (A : Type) : Type :=
| Ok (a : A)
| AssertFailed
| InvalidIndex.
Arguments Ok {A} a.
Arguments AssertFailed {A}.
Arguments InvalidIndex {A}.

(** ** Types of the data model *)

(** [fib_path_type_t], in declaration order: the numbering starts at
    [FIB_PATH_TYPE_FIRST = 0]. *)
Inductive fib_path_type_t : Type :=
| FIB_PATH_TYPE_ATTACHED_NEXT_HOP
| FIB_PATH_TYPE_ATTACHED
| FIB_PATH_TYPE_RECURSIVE
| FIB_PATH_TYPE_SPECIAL
| FIB_PATH_TYPE_EXCLUSIVE
| FIB_PATH_TYPE_DEAG
| FIB_PATH_TYPE_RECEIVE.

Definition fib_path_type_to_Z (t : fib_path_type_t) : Z :=
  match t with
  | FIB_PATH_TYPE_ATTACHED_NEXT_HOP => 0
  | FIB_PATH_TYPE_ATTACHED => 1
  | FIB_PATH_TYPE_RECURSIVE => 2
  | FIB_PATH_TYPE_SPECIAL => 3
  | FIB_PATH_TYPE_EXCLUSIVE => 4
  | FIB_PATH_TYPE_DEAG => 5
  | FIB_PATH_TYPE_RECEIVE => 6
  end.

Definition fib_path_type_eqb (a b : fib_path_type_t) : bool :=
  fib_path_type_to_Z a =? fib_path_type_to_Z b.

(** Modelled from the spec: [fib_protocol_t] of fib_types.h, the address
    family of the next-hop, {IP4, IP6, MPLS} in that order from 0. *)
Inductive fib_protocol_t : Type :=
| FIB_PROTOCOL_IP4
| FIB_PROTOCOL_IP6
| FIB_PROTOCOL_MPLS.

Definition fib_protocol_to_Z (p : fib_protocol_t) : Z :=
  match p with
  | FIB_PROTOCOL_IP4 => 0
  | FIB_PROTOCOL_IP6 => 1
  | FIB_PROTOCOL_MPLS => 2
  end.

Definition fib_protocol_eqb (a b : fib_protocol_t) : bool :=
  fib_protocol_to_Z a =? fib_protocol_to_Z b.

(** Modelled from the spec: the chain types a forwarding DPO is requested
    for (fib_types.h). *)
Inductive fib_forward_chain_type_t : Type :=
| FIB_FORW_CHAIN_TYPE_UNICAST_IP4
| FIB_FORW_CHAIN_TYPE_UNICAST_IP6
| FIB_FORW_CHAIN_TYPE_MPLS_NON_EOS
| FIB_FORW_CHAIN_TYPE_MPLS_EOS
| FIB_FORW_CHAIN_TYPE_ETHERNET.

(** Operational flags, [1 << attribute] with the attributes numbered
    RECURSIVE_LOOP = 0, RESOLVED = 1, DROP = 2. *)
Definition FIB_PATH_OPER_FLAG_NONE : Z := 0.
Definition FIB_PATH_OPER_FLAG_RECURSIVE_LOOP : Z := 1.
Definition FIB_PATH_OPER_FLAG_RESOLVED : Z := 2.
Definition FIB_PATH_OPER_FLAG_DROP : Z := 4.

(** The three operational flags. *)
Definition oper_flag (F : Z) : Prop :=
  F = FIB_PATH_OPER_FLAG_RECURSIVE_LOOP \/
  F = FIB_PATH_OPER_FLAG_RESOLVED \/
  F = FIB_PATH_OPER_FLAG_DROP.

(** [FIB_NODE_INDEX_INVALID] is [(fib_node_index_t)(~0)]. *)
Definition FIB_NODE_INDEX_INVALID : Z := U32_MAX.

(** Modelled from the spec: the next-hop address [ip46_address_t] of
    ip6_packet.h, sixteen bytes, held as four 32-bit words in memory
    order. *)
Record ip46_address_t : Type := mk_ip46 {
  as_u32_0 : Z;
  as_u32_1 : Z;
  as_u32_2 : Z;
  as_u32_3 : Z
}.

Definition zero_addr : ip46_address_t := mk_ip46 0 0 0 0.

(** Modelled from the spec: [ip46_address_is_zero] of ip6_packet.h, true
    when every byte of the address is zero. *)
Definition ip46_address_is_zero (a : ip46_address_t) : bool :=
  (as_u32_0 a =? 0) && (as_u32_1 a =? 0) && (as_u32_2 a =? 0) && (as_u32_3 a =? 0).

(** The bytes of a 32-bit word in memory order (little endian). *)
Definition u32_bytes (w : Z) : list Z :=
  [w mod 256; (w / 256) mod 256; (w / 65536) mod 256; (w / 16777216) mod 256].

Definition ip46_bytes (a : ip46_address_t) : list Z :=
  u32_bytes (as_u32_0 a) ++ u32_bytes (as_u32_1 a) ++
  u32_bytes (as_u32_2 a) ++ u32_bytes (as_u32_3 a).

Fixpoint memcmp (l1 l2 : list Z) : Z :=
  match l1, l2 with
  | b1 :: t1, b2 :: t2 => if b1 =? b2 then memcmp t1 t2 else b1 - b2
  | _, _ => 0
  end.

(** Modelled from the spec: [ip46_address_cmp] of ip6_packet.h compares
    two addresses lexicographically, byte by byte ([memcmp]). *)
Definition ip46_address_cmp (a b : ip46_address_t) : Z :=
  memcmp (ip46_bytes a) (ip46_bytes b).

(** Modelled from the spec: [dpo_id_t] of dpo.h, a tagged handle: type
    and protocol (one byte each), next node (two bytes), index (u32). *)
Record dpo_id_t : Type := mk_dpo {
  dpoi_type : Z;
  dpoi_proto : Z;
  dpoi_next_node : Z;
  dpoi_index : Z
}.

(** Modelled from the spec: [DPO_INVALID], the value [dpo_reset] leaves:
    type [DPO_FIRST = 0] and index [INDEX_INVALID = ~0]. *)
Definition DPO_INVALID : dpo_id_t := mk_dpo 0 0 0 U32_MAX.

(** Modelled from the spec: [dpo_id_is_valid] of dpo.h. *)
Definition dpo_id_is_valid (d : dpo_id_t) : bool :=
  negb (dpoi_type d =? 0) && negb (dpoi_index d =? U32_MAX).

Definition dpo_id_eqb (a b : dpo_id_t) : bool :=
  (dpoi_type a =? dpoi_type b) && (dpoi_proto a =? dpoi_proto b) &&
  (dpoi_next_node a =? dpoi_next_node b) && (dpoi_index a =? dpoi_index b).

(** Modelled from the spec: [fib_prefix_t] as far as fib_path.c builds
    one, from an MPLS label or from an address. *)
Inductive fib_prefix_t : Type :=
| fib_prefix_from_mpls_label (label : Z)
| fib_prefix_from_ip46_addr (addr : ip46_address_t).

(** Modelled from the spec: the graph-node header [fib_node_t] of
    fib_node.h: the node's type tag and its list of children. *)
Inductive fib_node_type_t : Type :=
| FIB_NODE_TYPE_NONE
| FIB_NODE_TYPE_PATH.

Record fib_node_t : Type := mk_fib_node {
  fn_type : fib_node_type_t;
  fn_children : list Z
}.

Definition fib_node_zero : fib_node_t := mk_fib_node FIB_NODE_TYPE_NONE [].

Definition fib_node_init (t : fib_node_type_t) : fib_node_t := mk_fib_node t [].

(** ** The path record *)

(** The per-type union of [fib_path_t]: twenty-four bytes, held as six
    32-bit words.  Every member starts at the first word; the members'
    fields sit at the word offsets their declarations give them
    ([ip46_address_t] is packed and four words long, [dpo_id_t] is two
    words long). *)
Record fib_path_union_t : Type := mk_union {
  u_w0 : Z; u_w1 : Z; u_w2 : Z; u_w3 : Z; u_w4 : Z; u_w5 : Z
}.

Definition union_zero : fib_path_union_t := mk_union 0 0 0 0 0 0.

Module PathUnion.

(* attached_next_hop : { ip46_address_t fp_nh; u32 fp_interface; } *)
Definition attached_next_hop_fp_nh (u : fib_path_union_t) : ip46_address_t :=
    mk_ip46 (u_w0 u) (u_w1 u) (u_w2 u) (u_w3 u).
Definition attached_next_hop_fp_interface (u : fib_path_union_t) : Z := u_w4 u.
Definition set_attached_next_hop_fp_nh (a : ip46_address_t) (u : fib_path_union_t) :=
    mk_union (as_u32_0 a) (as_u32_1 a) (as_u32_2 a) (as_u32_3 a) (u_w4 u) (u_w5 u).
Definition set_attached_next_hop_fp_interface (i : Z) (u : fib_path_union_t) :=
    mk_union (u_w0 u) (u_w1 u) (u_w2 u) (u_w3 u) i (u_w5 u).

(* attached : { u32 fp_interface; } *)
Definition attached_fp_interface (u : fib_path_union_t) : Z := u_w0 u.
Definition set_attached_fp_interface (i : Z) (u : fib_path_union_t) :=
    mk_union i (u_w1 u) (u_w2 u) (u_w3 u) (u_w4 u) (u_w5 u).

(* recursive : { union { ip46_address_t fp_ip; mpls_label_t fp_local_label; } fp_nh;
                   fib_node_index_t fp_tbl_id; } *)
Definition recursive_fp_nh_fp_ip (u : fib_path_union_t) : ip46_address_t :=
    mk_ip46 (u_w0 u) (u_w1 u) (u_w2 u) (u_w3 u).
Definition recursive_fp_nh_fp_local_label (u : fib_path_union_t) : Z := u_w0 u.
Definition recursive_fp_tbl_id (u : fib_path_union_t) : Z := u_w4 u.
Definition set_recursive_fp_nh_fp_ip (a : ip46_address_t) (u : fib_path_union_t) :=
    mk_union (as_u32_0 a) (as_u32_1 a) (as_u32_2 a) (as_u32_3 a) (u_w4 u) (u_w5 u).
Definition set_recursive_fp_nh_fp_local_label (l : Z) (u : fib_path_union_t) :=
    mk_union l (u_w1 u) (u_w2 u) (u_w3 u) (u_w4 u) (u_w5 u).
Definition set_recursive_fp_tbl_id (t : Z) (u : fib_path_union_t) :=
    mk_union (u_w0 u) (u_w1 u) (u_w2 u) (u_w3 u) t (u_w5 u).

(* deag : { fib_node_index_t fp_tbl_id; } *)
Definition deag_fp_tbl_id (u : fib_path_union_t) : Z := u_w0 u.
Definition set_deag_fp_tbl_id (t : Z) (u : fib_path_union_t) :=
    mk_union t (u_w1 u) (u_w2 u) (u_w3 u) (u_w4 u) (u_w5 u).

(* exclusive : { dpo_id_t fp_ex_dpo; } *)
Definition exclusive_fp_ex_dpo (u : fib_path_union_t) : dpo_id_t :=
    mk_dpo (u_w0 u mod 256) ((u_w0 u / 256) mod 256) ((u_w0 u / 65536) mod 65536)
           (u_w1 u).
Definition set_exclusive_fp_ex_dpo (d : dpo_id_t) (u : fib_path_union_t) :=
    mk_union (dpoi_type d mod 256 + 256 * (dpoi_proto d mod 256)
              + 65536 * (dpoi_next_node d mod 65536))
             (dpoi_index d) (u_w2 u) (u_w3 u) (u_w4 u) (u_w5 u).

(* receive : { u32 fp_interface; ip46_address_t fp_addr; } *)
Definition receive_fp_interface (u : fib_path_union_t) : Z := u_w0 u.
Definition receive_fp_addr (u : fib_path_union_t) : ip46_address_t :=
    mk_ip46 (u_w1 u) (u_w2 u) (u_w3 u) (u_w4 u).
Definition set_receive_fp_interface (i : Z) (u : fib_path_union_t) :=
    mk_union i (u_w1 u) (u_w2 u) (u_w3 u) (u_w4 u) (u_w5 u).
Definition set_receive_fp_addr (a : ip46_address_t) (u : fib_path_union_t) :=
    mk_union (u_w0 u) (as_u32_0 a) (as_u32_1 a) (as_u32_2 a) (as_u32_3 a) (u_w5 u).

End PathUnion.
Import PathUnion.

(** [fib_path_t].  The fields from [fp_cfg_flags] to the union lie between
    [path_hash_start] and [path_hash_end]; the fields after the union are
    derived during resolution. *)
Record fib_path_t : Type := mk_path {
  fp_node : fib_node_t;
  fp_pl_index : Z;
  fp_cfg_flags : Z;
  fp_type : fib_path_type_t;
  fp_nh_proto : fib_protocol_t;
  fp_weight : Z;
  fp_u : fib_path_union_t;
  fp_oper_flags : Z;
  fp_via_fib : Z;
  fp_dpo : dpo_id_t;
  fp_sibling : Z
}.

Definition set_fp_node v p :=
  mk_path v (fp_pl_index p) (fp_cfg_flags p) (fp_type p) (fp_nh_proto p)
    (fp_weight p) (fp_u p) (fp_oper_flags p) (fp_via_fib p) (fp_dpo p) (fp_sibling p).
Definition set_fp_pl_index v p :=
  mk_path (fp_node p) v (fp_cfg_flags p) (fp_type p) (fp_nh_proto p)
    (fp_weight p) (fp_u p) (fp_oper_flags p) (fp_via_fib p) (fp_dpo p) (fp_sibling p).
Definition set_fp_cfg_flags v p :=
  mk_path (fp_node p) (fp_pl_index p) v (fp_type p) (fp_nh_proto p)
    (fp_weight p) (fp_u p) (fp_oper_flags p) (fp_via_fib p) (fp_dpo p) (fp_sibling p).
Definition set_fp_type v p :=
  mk_path (fp_node p) (fp_pl_index p) (fp_cfg_flags p) v (fp_nh_proto p)
    (fp_weight p) (fp_u p) (fp_oper_flags p) (fp_via_fib p) (fp_dpo p) (fp_sibling p).
Definition set_fp_nh_proto v p :=
  mk_path (fp_node p) (fp_pl_index p) (fp_cfg_flags p) (fp_type p) v
    (fp_weight p) (fp_u p) (fp_oper_flags p) (fp_via_fib p) (fp_dpo p) (fp_sibling p).
Definition set_fp_weight v p :=
  mk_path (fp_node p) (fp_pl_index p) (fp_cfg_flags p) (fp_type p) (fp_nh_proto p)
    v (fp_u p) (fp_oper_flags p) (fp_via_fib p) (fp_dpo p) (fp_sibling p).
Definition set_fp_u v p :=
  mk_path (fp_node p) (fp_pl_index p) (fp_cfg_flags p) (fp_type p) (fp_nh_proto p)
    (fp_weight p) v (fp_oper_flags p) (fp_via_fib p) (fp_dpo p) (fp_sibling p).
Definition set_fp_oper_flags v p :=
  mk_path (fp_node p) (fp_pl_index p) (fp_cfg_flags p) (fp_type p) (fp_nh_proto p)
    (fp_weight p) (fp_u p) v (fp_via_fib p) (fp_dpo p) (fp_sibling p).
Definition set_fp_via_fib v p :=
  mk_path (fp_node p) (fp_pl_index p) (fp_cfg_flags p) (fp_type p) (fp_nh_proto p)
    (fp_weight p) (fp_u p) (fp_oper_flags p) v (fp_dpo p) (fp_sibling p).
Definition set_fp_dpo v p :=
  mk_path (fp_node p) (fp_pl_index p) (fp_cfg_flags p) (fp_type p) (fp_nh_proto p)
    (fp_weight p) (fp_u p) (fp_oper_flags p) (fp_via_fib p) v (fp_sibling p).
Definition set_fp_sibling v p :=
  mk_path (fp_node p) (fp_pl_index p) (fp_cfg_flags p) (fp_type p) (fp_nh_proto p)
    (fp_weight p) (fp_u p) (fp_oper_flags p) (fp_via_fib p) (fp_dpo p) v.

(** [path->fp_oper_flags |= F] and [path->fp_oper_flags &= ~F]; the
    flags word is a packed enum, one byte wide. *)
Definition oper_flags_set (F : Z) (p : fib_path_t) : fib_path_t :=
  set_fp_oper_flags (to_u8 (Z.lor (fp_oper_flags p) F)) p.
Definition oper_flags_clear (F : Z) (p : fib_path_t) : fib_path_t :=
  set_fp_oper_flags (to_u8 (Z.land (fp_oper_flags p) (Z.lnot F))) p.

(** [memset(path, 0, sizeof( *path))]. *)
Definition fib_path_zero : fib_path_t :=
  mk_path fib_node_zero 0 0 FIB_PATH_TYPE_ATTACHED_NEXT_HOP FIB_PROTOCOL_IP4 0
          union_zero 0 0 (mk_dpo 0 0 0 0) 0.

(** Modelled from the spec: the route-path descriptor [fib_route_path_t]
    of fib_types.h, with the fields fib_path.c reads and writes. *)
Record fib_route_path_t : Type := mk_rpath {
  frp_proto : fib_protocol_t;
  frp_addr : ip46_address_t;
  frp_local_label : Z;
  frp_sw_if_index : Z;
  frp_fib_index : Z;
  frp_weight : Z;
  frp_flags : Z
}.

(** Modelled from the spec: [fib_route_path_encode_t], a route-path and
    the DPO an exclusive path carries. *)
Record fib_route_path_encode_t : Type := mk_rpath_encode {
  rpath : fib_route_path_t;
  dpo : dpo_id_t
}.

(** The back-walk context: the reason flags of the walk. *)
Record fib_node_back_walk_ctx_t : Type := mk_bw_ctx {
  fnbw_reason : Z
}.

(** The only value of [fib_node_back_walk_rc_t] that fib_path.c names. *)
Inductive fib_node_back_walk_rc_t : Type :=
| FIB_NODE_BACK_WALK_CONTINUE
| FIB_NODE_BACK_WALK_MERGE.

(** ** What fib_path.c takes from other files *)

(** Constants declared in headers of the collaborating layers
    (fib_path.h, fib_types.h, fib_node.h, fib_entry.h, dpo.h) and the
    debug switch of the image.  The flag constants are bit masks. *)
Record fib_defs : Type := mk_fib_defs {
  CLIB_ASSERT_ENABLE : bool;
  FIB_PATH_CFG_FLAG_DROP : Z;
  FIB_PATH_CFG_FLAG_LOCAL : Z;
  FIB_PATH_CFG_FLAG_RESOLVE_HOST : Z;
  FIB_PATH_CFG_FLAG_RESOLVE_ATTACHED : Z;
  FIB_ROUTE_PATH_RESOLVE_VIA_HOST : Z;
  FIB_ROUTE_PATH_RESOLVE_VIA_ATTACHED : Z;
  FIB_NODE_BW_REASON_FLAG_EVALUATE : Z;
  FIB_NODE_BW_REASON_FLAG_INTERFACE_UP : Z;
  FIB_NODE_BW_REASON_FLAG_INTERFACE_DOWN : Z;
  FIB_NODE_BW_REASON_FLAG_INTERFACE_DELETE : Z;
  FIB_NODE_BW_REASON_FLAG_ADJ_UPDATE : Z;
  FIB_NODE_BW_REASON_FLAG_ADJ_DOWN : Z;
  FIB_SOURCE_RR : Z;
  FIB_ENTRY_FLAG_ATTACHED : Z;
  DPO_ADJACENCY : Z;
  DPO_ADJACENCY_GLEAN : Z
}.

(** The collaborators' answers.  Each field stands for the function of
    the same name; a pointer result is returned as a value. *)
Record fib_ext : Type := mk_fib_ext {
  vnet_sw_interface_is_admin_up : Z -> bool;
  vnet_sw_interface_is_p2p : Z -> bool;
  vnet_sw_interface_compare : Z -> Z -> Z;
  fib_proto_to_dpo : fib_protocol_t -> Z;
  fib_proto_to_link : fib_protocol_t -> Z;
  adj_nbr_add_or_lock : fib_protocol_t -> Z -> ip46_address_t -> Z -> Z;
  adj_glean_add_or_lock : fib_protocol_t -> Z -> Z;
  adj_child_add : Z -> Z -> Z;
  fib_entry_child_add : Z -> Z -> Z;
  fib_entry_contribute_forwarding : Z -> fib_forward_chain_type_t -> dpo_id_t;
  fib_entry_get_best_source : Z -> Z;
  fib_entry_get_flags : Z -> Z;
  fib_entry_get_prefix : Z -> fib_prefix_t;
  fib_entry_recursive_loop_detect : Z -> list Z -> bool;
  fib_table_entry_special_add : Z -> fib_prefix_t -> Z;
  drop_dpo_get : Z -> dpo_id_t;
  dpo_set : Z -> Z -> Z -> dpo_id_t;
  lookup_dpo_add_or_lock_w_fib_index : Z -> Z -> dpo_id_t;
  receive_dpo_add_or_lock : Z -> Z -> ip46_address_t -> dpo_id_t;
  hash_memory : list Z -> Z
}.

(** The calls that change a collaborator's state. *)
Inductive event : Type :=
| Ev_adj_nbr_add_or_lock (proto : fib_protocol_t) (link : Z)
                         (nh : ip46_address_t) (sw_if_index : Z)
| Ev_adj_glean_add_or_lock (proto : fib_protocol_t) (sw_if_index : Z)
| Ev_adj_child_add (ai child : Z)
| Ev_adj_child_remove (ai sibling : Z)
| Ev_adj_unlock (ai : Z)
| Ev_fib_entry_child_add (fei child : Z)
| Ev_fib_entry_child_remove (fei sibling : Z)
| Ev_fib_table_entry_special_add (tbl : Z) (pfx : fib_prefix_t)
| Ev_fib_table_entry_special_remove (tbl : Z) (pfx : fib_prefix_t)
| Ev_lookup_dpo_add_or_lock (tbl proto : Z)
| Ev_receive_dpo_add_or_lock (proto sw_if_index : Z) (addr : ip46_address_t)
| Ev_load_balance_map_path_state_change (path_index : Z)
| Ev_fib_path_list_back_walk (pl_index : Z) (ctx : fib_node_back_walk_ctx_t).

(** ** A state and error monad for code that works on one path

    The state is the path the function was handed ([cur]) and the
    events emitted so far, most recent last. *)
Record pstate : Type := mk_pstate {
  cur : fib_path_t;
  trace : list event
}.

Definition PM (A : Type) : Type := pstate -> result (A * pstate).

Definition ret {A} (a : A) : PM A := fun s => Ok (a, s).

Definition bind {A B} (m : PM A) (k : A -> PM B) : PM B :=
  fun s => match m s with
           | Ok (a, s') => k a s'
           | AssertFailed => AssertFailed
           | InvalidIndex => InvalidIndex
           end.

Declare Scope pm_scope.
Delimit Scope pm_scope with pm.
Notation "x <- m ;; k" := (bind m (fun x => k))
  (at level 61, m at next level, right associativity) : pm_scope.
Notation "m ;; k" := (bind m (fun _ => k))
  (at level 61, right associativity) : pm_scope.
Open Scope pm_scope.

Definition get_path : PM fib_path_t := fun s => Ok (cur s, s).

Definition modify (f : fib_path_t -> fib_path_t) : PM unit :=
  fun s => Ok (tt, mk_pstate (f (cur s)) (trace s)).

Definition emit (e : event) : PM unit :=
  fun s => Ok (tt, mk_pstate (cur s) (trace s ++ [e])).

(** A statement block that may execute [return]: [Some rc] when it did. *)
Definition block (R : Type) : Type := PM (option R).

Definition fall_through {R} : block R := ret None.
Definition return_ {R} (rc : R) : block R := ret (Some rc).

(** Sequencing of blocks: the second runs unless the first returned. *)
Definition then_ {R} (b1 b2 : block R) : block R :=
  r <- b1 ;; match r with Some rc => return_ rc | None => b2 end.
Notation "b1 ;;; b2" := (then_ b1 b2)
  (at level 62, right associativity) : pm_scope.

(** [if (c) { b }] *)
Definition when {R} (c : bool) (b : block R) : block R :=
  if c then b else fall_through.

(** A statement that cannot return, as a block. *)
Definition stmt {R} (m : PM unit) : block R := m ;; fall_through.

(** Where a [dpo_id_t *] argument points: at the path's own [fp_dpo], or
    at storage of the caller. *)
Inductive dpo_ptr : Type :=
| Ptr_path_fp_dpo
| Ptr_caller.

Section PathCode.

Variable K : fib_defs.
Variable X : fib_ext.

(** [ASSERT(c)]: aborts when assertions are compiled in and [c] is false. *)
Definition ASSERT (c : bool) : PM unit :=
  fun s => if CLIB_ASSERT_ENABLE K && negb c then AssertFailed else Ok (tt, s).

(** [dpo_copy(dst, src)] and [dpo_reset(dst)] on the path's [fp_dpo]. *)
Definition dpo_copy_to_fp_dpo (src : dpo_id_t) : PM unit := modify (set_fp_dpo src).
Definition dpo_reset_fp_dpo : PM unit := modify (set_fp_dpo DPO_INVALID).

Definition fib_path_attached_next_hop_get_adj (link : Z) : PM Z :=
  path <- get_path ;;
  if vnet_sw_interface_is_p2p X (attached_next_hop_fp_interface (fp_u path))
  then
    emit (Ev_adj_nbr_add_or_lock (fp_nh_proto path) link zero_addr
            (attached_next_hop_fp_interface (fp_u path))) ;;
    ret (adj_nbr_add_or_lock X (fp_nh_proto path) link zero_addr
           (attached_next_hop_fp_interface (fp_u path)))
  else
    emit (Ev_adj_nbr_add_or_lock (fp_nh_proto path) link
            (attached_next_hop_fp_nh (fp_u path))
            (attached_next_hop_fp_interface (fp_u path))) ;;
    ret (adj_nbr_add_or_lock X (fp_nh_proto path) link
           (attached_next_hop_fp_nh (fp_u path))
           (attached_next_hop_fp_interface (fp_u path))).

Definition fib_path_attached_next_hop_set (path_index : Z) : PM unit :=
  path <- get_path ;;
  (if negb (vnet_sw_interface_is_admin_up X
              (attached_next_hop_fp_interface (fp_u path)))
   then modify (oper_flags_clear FIB_PATH_OPER_FLAG_RESOLVED)
   else ret tt) ;;
  ai <- fib_path_attached_next_hop_get_adj (fib_proto_to_link X (fp_nh_proto path)) ;;
  modify (set_fp_dpo (dpo_set X (DPO_ADJACENCY K)
                        (fib_proto_to_dpo X (fp_nh_proto path)) ai)) ;;
  path <- get_path ;;
  emit (Ev_adj_child_add (dpoi_index (fp_dpo path)) path_index) ;;
  modify (set_fp_sibling (adj_child_add X (dpoi_index (fp_dpo path)) path_index)).

(** [fib_path_recursive_adj_update(path, fct, dpo)].  The value returned
    is what [*dpo] holds on return; when [dpo] is [&path->fp_dpo] the
    final [dpo_copy] also changes the path. *)
Definition fib_path_recursive_adj_update (path_index : Z)
    (fct : fib_forward_chain_type_t) (dpo : dpo_ptr) : PM dpo_id_t :=
  path <- get_path ;;
  let via_dpo := fib_entry_contribute_forwarding X (fp_via_fib path) fct in
  modify (oper_flags_set FIB_PATH_OPER_FLAG_RESOLVED) ;;
  path <- get_path ;;
  via_dpo <-
    (if flag_test (fp_oper_flags path) FIB_PATH_OPER_FLAG_RECURSIVE_LOOP then
       modify (oper_flags_clear FIB_PATH_OPER_FLAG_RESOLVED) ;;
       ret (drop_dpo_get X (fib_proto_to_dpo X (fp_nh_proto path)))
     else if flag_test (fp_cfg_flags path) (FIB_PATH_CFG_FLAG_RESOLVE_HOST K) then
       if fib_entry_get_best_source X (fp_via_fib path) >=? FIB_SOURCE_RR K then
         modify (oper_flags_clear FIB_PATH_OPER_FLAG_RESOLVED) ;;
         emit (Ev_load_balance_map_path_state_change path_index) ;;
         ret (drop_dpo_get X (fib_proto_to_dpo X (fp_nh_proto path)))
       else ret via_dpo
     else if flag_test (fp_cfg_flags path) (FIB_PATH_CFG_FLAG_RESOLVE_ATTACHED K) then
       if negb (flag_test (fib_entry_get_flags X (fp_via_fib path))
                          (FIB_ENTRY_FLAG_ATTACHED K)) then
         modify (oper_flags_clear FIB_PATH_OPER_FLAG_RESOLVED) ;;
         emit (Ev_load_balance_map_path_state_change path_index) ;;
         ret (drop_dpo_get X (fib_proto_to_dpo X (fp_nh_proto path)))
       else ret via_dpo
     else ret via_dpo) ;;
  match dpo with
  | Ptr_path_fp_dpo => dpo_copy_to_fp_dpo via_dpo
  | Ptr_caller => ret tt
  end ;;
  ret via_dpo.

Definition fib_path_is_permanent_drop (path : fib_path_t) : bool :=
  flag_test (fp_cfg_flags path) (FIB_PATH_CFG_FLAG_DROP K) ||
  flag_test (fp_oper_flags path) FIB_PATH_OPER_FLAG_DROP.

Definition fib_path_unresolve : PM unit :=
  path <- get_path ;;
  if fib_path_is_permanent_drop path then ret tt
  else
    match fp_type path with
    | FIB_PATH_TYPE_RECURSIVE =>
        if negb (FIB_NODE_INDEX_INVALID =? fp_via_fib path) then
          let pfx := fib_entry_get_prefix X (fp_via_fib path) in
          emit (Ev_fib_entry_child_remove (fp_via_fib path) (fp_sibling path)) ;;
          emit (Ev_fib_table_entry_special_remove
                  (recursive_fp_tbl_id (fp_u path)) pfx) ;;
          modify (set_fp_via_fib FIB_NODE_INDEX_INVALID)
        else ret tt
    | FIB_PATH_TYPE_ATTACHED_NEXT_HOP
    | FIB_PATH_TYPE_ATTACHED =>
        emit (Ev_adj_child_remove (dpoi_index (fp_dpo path)) (fp_sibling path)) ;;
        emit (Ev_adj_unlock (dpoi_index (fp_dpo path)))
    | FIB_PATH_TYPE_EXCLUSIVE =>
        modify (fun p => set_fp_u (set_exclusive_fp_ex_dpo DPO_INVALID (fp_u p)) p)
    | FIB_PATH_TYPE_SPECIAL
    | FIB_PATH_TYPE_RECEIVE
    | FIB_PATH_TYPE_DEAG => ret tt
    end ;;
    dpo_reset_fp_dpo ;;
    modify (oper_flags_clear FIB_PATH_OPER_FLAG_RESOLVED).

Definition fib_path_proto_to_chain_type (proto : fib_protocol_t)
  : fib_forward_chain_type_t :=
  match proto with
  | FIB_PROTOCOL_IP4 => FIB_FORW_CHAIN_TYPE_UNICAST_IP4
  | FIB_PROTOCOL_IP6 => FIB_FORW_CHAIN_TYPE_UNICAST_IP6
  | FIB_PROTOCOL_MPLS => FIB_FORW_CHAIN_TYPE_MPLS_NON_EOS
  end.

Definition fib_path_is_looped_i (path : fib_path_t) : bool :=
  flag_test (fp_oper_flags path) FIB_PATH_OPER_FLAG_RECURSIVE_LOOP.

Definition fib_path_is_resolved_i (path : fib_path_t) : bool :=
  dpo_id_is_valid (fp_dpo path) &&
  flag_test (fp_oper_flags path) FIB_PATH_OPER_FLAG_RESOLVED &&
  negb (fib_path_is_looped_i path) &&
  negb (fib_path_is_permanent_drop path).

(** [FLAG & ctx->fnbw_reason] *)
Definition reason_has (ctx : fib_node_back_walk_ctx_t) (FLAG : Z) : bool :=
  flag_test (fnbw_reason ctx) FLAG.

(** The [switch] of [fib_path_back_walk_notify], one block per case. *)
Definition back_walk_recursive (path_index : Z) (ctx : fib_node_back_walk_ctx_t)
  : block fib_node_back_walk_rc_t :=
  when (reason_has ctx (FIB_NODE_BW_REASON_FLAG_EVALUATE K))
    (stmt (path <- get_path ;;
           _ <- fib_path_recursive_adj_update path_index
                  (fib_path_proto_to_chain_type (fp_nh_proto path))
                  Ptr_path_fp_dpo ;;
           ret tt)) ;;;
  when (reason_has ctx (FIB_NODE_BW_REASON_FLAG_ADJ_UPDATE K) ||
        reason_has ctx (FIB_NODE_BW_REASON_FLAG_ADJ_DOWN K))
    (return_ FIB_NODE_BACK_WALK_CONTINUE).

Definition back_walk_attached_next_hop (ctx : fib_node_back_walk_ctx_t)
  : block fib_node_back_walk_rc_t :=
  when (reason_has ctx (FIB_NODE_BW_REASON_FLAG_INTERFACE_UP K))
    (path <- get_path ;;
     if flag_test (fp_oper_flags path) FIB_PATH_OPER_FLAG_RESOLVED
     then return_ FIB_NODE_BACK_WALK_CONTINUE
     else stmt (modify (oper_flags_set FIB_PATH_OPER_FLAG_RESOLVED))) ;;;
  when (reason_has ctx (FIB_NODE_BW_REASON_FLAG_INTERFACE_DOWN K))
    (path <- get_path ;;
     if negb (flag_test (fp_oper_flags path) FIB_PATH_OPER_FLAG_RESOLVED)
     then return_ FIB_NODE_BACK_WALK_CONTINUE
     else stmt (modify (oper_flags_clear FIB_PATH_OPER_FLAG_RESOLVED))) ;;;
  when (reason_has ctx (FIB_NODE_BW_REASON_FLAG_INTERFACE_DELETE K))
    (stmt (fib_path_unresolve ;;
           modify (oper_flags_set FIB_PATH_OPER_FLAG_DROP))) ;;;
  when (reason_has ctx (FIB_NODE_BW_REASON_FLAG_ADJ_UPDATE K))
    (path <- get_path ;;
     let if_is_up := vnet_sw_interface_is_admin_up X
                       (attached_next_hop_fp_interface (fp_u path)) in
     (if if_is_up then modify (oper_flags_set FIB_PATH_OPER_FLAG_RESOLVED)
      else ret tt) ;;
     ai <- fib_path_attached_next_hop_get_adj
             (fib_proto_to_link X (fp_nh_proto path)) ;;
     modify (set_fp_dpo (dpo_set X (DPO_ADJACENCY K)
                           (fib_proto_to_dpo X (fp_nh_proto path)) ai)) ;;
     emit (Ev_adj_unlock ai) ;;
     if negb if_is_up then return_ FIB_NODE_BACK_WALK_CONTINUE
     else fall_through) ;;;
  when (reason_has ctx (FIB_NODE_BW_REASON_FLAG_ADJ_DOWN K))
    (path <- get_path ;;
     if negb (flag_test (fp_oper_flags path) FIB_PATH_OPER_FLAG_RESOLVED)
     then return_ FIB_NODE_BACK_WALK_CONTINUE
     else stmt (modify (oper_flags_clear FIB_PATH_OPER_FLAG_RESOLVED))).

Definition back_walk_attached (ctx : fib_node_back_walk_ctx_t)
  : block fib_node_back_walk_rc_t :=
  when (reason_has ctx (FIB_NODE_BW_REASON_FLAG_INTERFACE_UP K))
    (stmt (modify (oper_flags_set FIB_PATH_OPER_FLAG_RESOLVED))) ;;;
  when (reason_has ctx (FIB_NODE_BW_REASON_FLAG_INTERFACE_DOWN K))
    (stmt (modify (oper_flags_clear FIB_PATH_OPER_FLAG_RESOLVED))) ;;;
  when (reason_has ctx (FIB_NODE_BW_REASON_FLAG_INTERFACE_DELETE K))
    (stmt (fib_path_unresolve ;;
           modify (oper_flags_set FIB_PATH_OPER_FLAG_DROP))).

(** [fib_path_back_walk_notify(node, ctx)]: [node] is the path in [cur],
    [path_index] its index in the pool. *)
Definition fib_path_back_walk_notify (path_index : Z)
    (ctx : fib_node_back_walk_ctx_t) : PM fib_node_back_walk_rc_t :=
  path <- get_path ;;
  r <- match fp_type path with
       | FIB_PATH_TYPE_RECURSIVE => back_walk_recursive path_index ctx
       | FIB_PATH_TYPE_ATTACHED_NEXT_HOP => back_walk_attached_next_hop ctx
       | FIB_PATH_TYPE_ATTACHED => back_walk_attached ctx
       | FIB_PATH_TYPE_DEAG
       | FIB_PATH_TYPE_SPECIAL
       | FIB_PATH_TYPE_RECEIVE
       | FIB_PATH_TYPE_EXCLUSIVE => stmt (ASSERT false)
       end ;;
  match r with
  | Some rc => ret rc
  | None =>
      path <- get_path ;;
      emit (Ev_fib_path_list_back_walk (fp_pl_index path) ctx) ;;
      ret FIB_NODE_BACK_WALK_CONTINUE
  end.

Definition fib_path_route_flags_to_cfg_flags (rpath : fib_route_path_t) : Z :=
  let cfg_flags := 0 in
  let cfg_flags :=
    if flag_test (frp_flags rpath) (FIB_ROUTE_PATH_RESOLVE_VIA_HOST K)
    then Z.lor cfg_flags (FIB_PATH_CFG_FLAG_RESOLVE_HOST K) else cfg_flags in
  let cfg_flags :=
    if flag_test (frp_flags rpath) (FIB_ROUTE_PATH_RESOLVE_VIA_ATTACHED K)
    then Z.lor cfg_flags (FIB_PATH_CFG_FLAG_RESOLVE_ATTACHED K) else cfg_flags in
  cfg_flags.

(** [fib_path_cmp_i(path1, path2)].  The interface-compare oracle gives
    the value as stored in the [int res]. *)
Definition fib_path_cmp_i (path1 path2 : fib_path_t) : Z :=
  let res := 1 in
  let res :=
    if negb (fib_path_type_eqb (fp_type path1) (fp_type path2))
    then fib_path_type_to_Z (fp_type path1) - fib_path_type_to_Z (fp_type path2)
    else res in
  if negb (fib_protocol_eqb (fp_nh_proto path1) (fp_nh_proto path2))
  then fib_protocol_to_Z (fp_nh_proto path1) - fib_protocol_to_Z (fp_nh_proto path2)
  else
    match fp_type path1 with
    | FIB_PATH_TYPE_ATTACHED_NEXT_HOP =>
        let res := ip46_address_cmp (attached_next_hop_fp_nh (fp_u path1))
                                    (attached_next_hop_fp_nh (fp_u path2)) in
        if 0 =? res
        then vnet_sw_interface_compare X
               (attached_next_hop_fp_interface (fp_u path1))
               (attached_next_hop_fp_interface (fp_u path2))
        else res
    | FIB_PATH_TYPE_ATTACHED =>
        vnet_sw_interface_compare X (attached_fp_interface (fp_u path1))
                                    (attached_fp_interface (fp_u path2))
    | FIB_PATH_TYPE_RECURSIVE =>
        let res := ip46_address_cmp (recursive_fp_nh_fp_ip (fp_u path1))
                                    (recursive_fp_nh_fp_ip (fp_u path2)) in
        if 0 =? res
        then u32_sub_as_int (recursive_fp_tbl_id (fp_u path1))
                            (recursive_fp_tbl_id (fp_u path2))
        else res
    | FIB_PATH_TYPE_DEAG =>
        u32_sub_as_int (deag_fp_tbl_id (fp_u path1)) (deag_fp_tbl_id (fp_u path2))
    | FIB_PATH_TYPE_SPECIAL
    | FIB_PATH_TYPE_RECEIVE
    | FIB_PATH_TYPE_EXCLUSIVE => 0
    end.

(** The body of [fib_path_recursive_loop_detect] after [fib_path_get];
    [entry_indicies] is the vector the caller's pointer designates. *)
Definition fib_path_recursive_loop_detect_i (entry_indicies : list Z) : PM bool :=
  path <- get_path ;;
  if fib_path_is_permanent_drop path then ret false
  else
    match fp_type path with
    | FIB_PATH_TYPE_RECURSIVE =>
        let looped := existsb (fun entry_index => entry_index =? fp_via_fib path)
                              entry_indicies in
        if looped then
          modify (oper_flags_set FIB_PATH_OPER_FLAG_RECURSIVE_LOOP) ;;
          dpo_copy_to_fp_dpo (drop_dpo_get X (fib_proto_to_dpo X (fp_nh_proto path)))
        else if fib_entry_recursive_loop_detect X (fp_via_fib path) entry_indicies
        then modify (oper_flags_set FIB_PATH_OPER_FLAG_RECURSIVE_LOOP)
        else modify (oper_flags_clear FIB_PATH_OPER_FLAG_RECURSIVE_LOOP)
    | FIB_PATH_TYPE_ATTACHED_NEXT_HOP
    | FIB_PATH_TYPE_ATTACHED
    | FIB_PATH_TYPE_SPECIAL
    | FIB_PATH_TYPE_DEAG
    | FIB_PATH_TYPE_RECEIVE
    | FIB_PATH_TYPE_EXCLUSIVE => ret tt
    end ;;
    path <- get_path ;;
    ret (fib_path_is_looped_i path).

(** The body of [fib_path_resolve] after [fib_path_get]. *)
Definition fib_path_resolve_i (path_index : Z) : PM bool :=
  modify (oper_flags_set FIB_PATH_OPER_FLAG_RESOLVED) ;;
  path <- get_path ;;
  if fib_path_is_permanent_drop path then
    dpo_copy_to_fp_dpo (drop_dpo_get X (fib_proto_to_dpo X (fp_nh_proto path))) ;;
    modify (oper_flags_clear FIB_PATH_OPER_FLAG_RESOLVED) ;;
    path <- get_path ;;
    ret (fib_path_is_resolved_i path)
  else
    match fp_type path with
    | FIB_PATH_TYPE_ATTACHED_NEXT_HOP => fib_path_attached_next_hop_set path_index
    | FIB_PATH_TYPE_ATTACHED =>
        (if negb (vnet_sw_interface_is_admin_up X (attached_fp_interface (fp_u path)))
         then modify (oper_flags_clear FIB_PATH_OPER_FLAG_RESOLVED)
         else ret tt) ;;
        (if vnet_sw_interface_is_p2p X (attached_fp_interface (fp_u path)) then
           emit (Ev_adj_nbr_add_or_lock (fp_nh_proto path)
                   (fib_proto_to_link X (fp_nh_proto path)) zero_addr
                   (attached_fp_interface (fp_u path))) ;;
           modify (set_fp_dpo
                     (dpo_set X (DPO_ADJACENCY K)
                        (fib_proto_to_dpo X (fp_nh_proto path))
                        (adj_nbr_add_or_lock X (fp_nh_proto path)
                           (fib_proto_to_link X (fp_nh_proto path)) zero_addr
                           (attached_fp_interface (fp_u path)))))
         else
           emit (Ev_adj_glean_add_or_lock (fp_nh_proto path)
                   (attached_fp_interface (fp_u path))) ;;
           modify (set_fp_dpo
                     (dpo_set X (DPO_ADJACENCY_GLEAN K)
                        (fib_proto_to_dpo X (fp_nh_proto path))
                        (adj_glean_add_or_lock X (fp_nh_proto path)
                           (attached_fp_interface (fp_u path)))))) ;;
        path <- get_path ;;
        emit (Ev_adj_child_add (dpoi_index (fp_dpo path)) path_index) ;;
        modify (set_fp_sibling (adj_child_add X (dpoi_index (fp_dpo path)) path_index))
    | FIB_PATH_TYPE_RECURSIVE =>
        ASSERT (FIB_NODE_INDEX_INVALID =? fp_via_fib path) ;;
        let pfx :=
          if fib_protocol_eqb FIB_PROTOCOL_MPLS (fp_nh_proto path)
          then fib_prefix_from_mpls_label (recursive_fp_nh_fp_local_label (fp_u path))
          else fib_prefix_from_ip46_addr (recursive_fp_nh_fp_ip (fp_u path)) in
        emit (Ev_fib_table_entry_special_add (recursive_fp_tbl_id (fp_u path)) pfx) ;;
        let fei := fib_table_entry_special_add X (recursive_fp_tbl_id (fp_u path)) pfx in
        modify (set_fp_via_fib fei) ;;
        path <- get_path ;;
        emit (Ev_fib_entry_child_add (fp_via_fib path) path_index) ;;
        modify (set_fp_sibling (fib_entry_child_add X (fp_via_fib path) path_index)) ;;
        _ <- fib_path_recursive_adj_update path_index
               (fib_path_proto_to_chain_type (fp_nh_proto path)) Ptr_path_fp_dpo ;;
        ret tt
    | FIB_PATH_TYPE_SPECIAL =>
        dpo_copy_to_fp_dpo (drop_dpo_get X (fib_proto_to_dpo X (fp_nh_proto path)))
    | FIB_PATH_TYPE_DEAG =>
        emit (Ev_lookup_dpo_add_or_lock (deag_fp_tbl_id (fp_u path))
                (fib_proto_to_dpo X (fp_nh_proto path))) ;;
        modify (set_fp_dpo
                  (lookup_dpo_add_or_lock_w_fib_index X (deag_fp_tbl_id (fp_u path))
                     (fib_proto_to_dpo X (fp_nh_proto path))))
    | FIB_PATH_TYPE_RECEIVE =>
        emit (Ev_receive_dpo_add_or_lock (fib_proto_to_dpo X (fp_nh_proto path))
                (receive_fp_interface (fp_u path)) (receive_fp_addr (fp_u path))) ;;
        modify (set_fp_dpo
                  (receive_dpo_add_or_lock X (fib_proto_to_dpo X (fp_nh_proto path))
                     (receive_fp_interface (fp_u path)) (receive_fp_addr (fp_u path))))
    | FIB_PATH_TYPE_EXCLUSIVE =>
        dpo_copy_to_fp_dpo (exclusive_fp_ex_dpo (fp_u path))
    end ;;
    path <- get_path ;;
    ret (fib_path_is_resolved_i path).

(** The memory between [path_hash_start] and [path_hash_end], field by
    field and, for the union, word by word. *)
Definition path_hash_area (path : fib_path_t) : list Z :=
  [fp_cfg_flags path; fib_path_type_to_Z (fp_type path);
   fib_protocol_to_Z (fp_nh_proto path); fp_weight path;
   u_w0 (fp_u path); u_w1 (fp_u path); u_w2 (fp_u path);
   u_w3 (fp_u path); u_w4 (fp_u path); u_w5 (fp_u path)].

Definition fib_path_hash_i (path : fib_path_t) : Z :=
  hash_memory X (path_hash_area path).

(** What [fib_path_create] writes into the element [pool_get] gave it. *)
Definition fib_path_create_i (pl_index : Z) (nh_proto : fib_protocol_t)
    (flags : Z) (rpath : fib_route_path_t) : fib_path_t :=
  let path := fib_path_zero in
  let path := set_fp_node (fib_node_init FIB_NODE_TYPE_PATH) path in
  let path := set_fp_dpo DPO_INVALID path in
  let path := set_fp_pl_index pl_index path in
  let path := set_fp_nh_proto nh_proto path in
  let path := set_fp_via_fib FIB_NODE_INDEX_INVALID path in
  let path := set_fp_weight (frp_weight rpath) path in
  let path := if 0 =? fp_weight path then set_fp_weight 1 path else path in
  let path := set_fp_cfg_flags flags path in
  let path := set_fp_cfg_flags
                (Z.lor (fp_cfg_flags path) (fib_path_route_flags_to_cfg_flags rpath))
                path in
  if negb (U32_MAX =? frp_sw_if_index rpath) then
    if flag_test flags (FIB_PATH_CFG_FLAG_LOCAL K) then
      let path := set_fp_type FIB_PATH_TYPE_RECEIVE path in
      let path := set_fp_u (set_receive_fp_interface (frp_sw_if_index rpath)
                              (fp_u path)) path in
      set_fp_u (set_receive_fp_addr (frp_addr rpath) (fp_u path)) path
    else if ip46_address_is_zero (frp_addr rpath) then
      let path := set_fp_type FIB_PATH_TYPE_ATTACHED path in
      set_fp_u (set_attached_fp_interface (frp_sw_if_index rpath) (fp_u path)) path
    else
      let path := set_fp_type FIB_PATH_TYPE_ATTACHED_NEXT_HOP path in
      let path := set_fp_u (set_attached_next_hop_fp_interface
                              (frp_sw_if_index rpath) (fp_u path)) path in
      set_fp_u (set_attached_next_hop_fp_nh (frp_addr rpath) (fp_u path)) path
  else if ip46_address_is_zero (frp_addr rpath) then
    if U32_MAX =? frp_fib_index rpath then
      set_fp_type FIB_PATH_TYPE_SPECIAL path
    else
      let path := set_fp_type FIB_PATH_TYPE_DEAG path in
      set_fp_u (set_deag_fp_tbl_id (frp_fib_index rpath) (fp_u path)) path
  else
    let path := set_fp_type FIB_PATH_TYPE_RECURSIVE path in
    let path :=
      if fib_protocol_eqb FIB_PROTOCOL_MPLS (fp_nh_proto path)
      then set_fp_u (set_recursive_fp_nh_fp_local_label (frp_local_label rpath)
                       (fp_u path)) path
      else set_fp_u (set_recursive_fp_nh_fp_ip (frp_addr rpath) (fp_u path)) path in
    set_fp_u (set_recursive_fp_tbl_id (frp_fib_index rpath) (fp_u path)) path.

(** What [fib_path_create_special] writes into the new element. *)
Definition fib_path_create_special_i (pl_index : Z) (nh_proto : fib_protocol_t)
    (flags : Z) (dpo : dpo_id_t) : fib_path_t :=
  let path := fib_path_zero in
  let path := set_fp_node (fib_node_init FIB_NODE_TYPE_PATH) path in
  let path := set_fp_dpo DPO_INVALID path in
  let path := set_fp_pl_index pl_index path in
  let path := set_fp_weight 1 path in
  let path := set_fp_nh_proto nh_proto path in
  let path := set_fp_via_fib FIB_NODE_INDEX_INVALID path in
  let path := set_fp_cfg_flags flags path in
  if flag_test flags (FIB_PATH_CFG_FLAG_DROP K) then
    set_fp_type FIB_PATH_TYPE_SPECIAL path
  else if flag_test flags (FIB_PATH_CFG_FLAG_LOCAL K) then
    let path := set_fp_type FIB_PATH_TYPE_RECEIVE path in
    set_fp_u (set_attached_fp_interface FIB_NODE_INDEX_INVALID (fp_u path)) path
  else
    let path := set_fp_type FIB_PATH_TYPE_EXCLUSIVE path in
    set_fp_u (set_exclusive_fp_ex_dpo dpo (fp_u path)) path.

(** What [fib_path_copy] leaves in the new element: the original's bytes,
    then the dynamic section reset. *)
Definition fib_path_copy_i (orig_path : fib_path_t) (path_list_index : Z)
  : fib_path_t :=
  let path := orig_path in
  let path := set_fp_node (fib_node_init FIB_NODE_TYPE_PATH) path in
  let path := set_fp_oper_flags FIB_PATH_OPER_FLAG_NONE path in
  let path := set_fp_pl_index path_list_index path in
  let path := set_fp_via_fib FIB_NODE_INDEX_INVALID path in
  let path := set_fp_dpo (mk_dpo 0 0 0 0) path in
  set_fp_dpo DPO_INVALID path.

End PathCode.

(** ** Encoding a path for the API *)

Definition set_frp_weight v r :=
  mk_rpath (frp_proto r) (frp_addr r) (frp_local_label r) (frp_sw_if_index r)
           (frp_fib_index r) v (frp_flags r).
Definition set_frp_proto v r :=
  mk_rpath v (frp_addr r) (frp_local_label r) (frp_sw_if_index r)
           (frp_fib_index r) (frp_weight r) (frp_flags r).
Definition set_frp_sw_if_index v r :=
  mk_rpath (frp_proto r) (frp_addr r) (frp_local_label r) v
           (frp_fib_index r) (frp_weight r) (frp_flags r).
Definition set_frp_addr v r :=
  mk_rpath (frp_proto r) v (frp_local_label r) (frp_sw_if_index r)
           (frp_fib_index r) (frp_weight r) (frp_flags r).

Definition set_rpath v (e : fib_route_path_encode_t) := mk_rpath_encode v (dpo e).
Definition set_dpo v (e : fib_route_path_encode_t) := mk_rpath_encode (rpath e) v.

(** The writes of [fib_path_encode] into the element [vec_add2] appended;
    [api_rpath] is that element as it was handed out. *)
Definition fib_path_encode_i (path : fib_path_t)
    (api_rpath : fib_route_path_encode_t) : fib_route_path_encode_t :=
  let api_rpath := set_rpath (set_frp_weight (fp_weight path) (rpath api_rpath))
                             api_rpath in
  let api_rpath := set_rpath (set_frp_proto (fp_nh_proto path) (rpath api_rpath))
                             api_rpath in
  let api_rpath := set_rpath (set_frp_sw_if_index U32_MAX (rpath api_rpath))
                             api_rpath in
  let api_rpath := set_dpo (exclusive_fp_ex_dpo (fp_u path)) api_rpath in
  match fp_type path with
  | FIB_PATH_TYPE_RECEIVE =>
      let api_rpath :=
        set_rpath (set_frp_addr (receive_fp_addr (fp_u path)) (rpath api_rpath))
                  api_rpath in
      set_rpath (set_frp_sw_if_index (receive_fp_interface (fp_u path))
                   (rpath api_rpath)) api_rpath
  | FIB_PATH_TYPE_ATTACHED =>
      set_rpath (set_frp_sw_if_index (attached_fp_interface (fp_u path))
                   (rpath api_rpath)) api_rpath
  | FIB_PATH_TYPE_ATTACHED_NEXT_HOP =>
      let api_rpath :=
        set_rpath (set_frp_sw_if_index (attached_next_hop_fp_interface (fp_u path))
                     (rpath api_rpath)) api_rpath in
      set_rpath (set_frp_addr (attached_next_hop_fp_nh (fp_u path))
                   (rpath api_rpath)) api_rpath
  | FIB_PATH_TYPE_SPECIAL => api_rpath
  | FIB_PATH_TYPE_DEAG => api_rpath
  | FIB_PATH_TYPE_RECURSIVE =>
      set_rpath (set_frp_addr (recursive_fp_nh_fp_ip (fp_u path)) (rpath api_rpath))
                api_rpath
  | FIB_PATH_TYPE_EXCLUSIVE => api_rpath
  end.

(** The interface a path of each kind holds, [~0] for the kinds without
    one. *)
Definition interface_of (path : fib_path_t) : Z :=
  match fp_type path with
  | FIB_PATH_TYPE_RECEIVE => receive_fp_interface (fp_u path)
  | FIB_PATH_TYPE_ATTACHED => attached_fp_interface (fp_u path)
  | FIB_PATH_TYPE_ATTACHED_NEXT_HOP => attached_next_hop_fp_interface (fp_u path)
  | _ => U32_MAX
  end.

(** ** Observing a back-walk *)

(** The kinds that have no parent in the graph. *)
Definition has_no_parent (t : fib_path_type_t) : bool :=
  match t with
  | FIB_PATH_TYPE_DEAG | FIB_PATH_TYPE_SPECIAL
  | FIB_PATH_TYPE_RECEIVE | FIB_PATH_TYPE_EXCLUSIVE => true
  | _ => false
  end.

(** The calls of [fib_path_list_back_walk] among some events. *)
Definition is_path_list_back_walk (e : event) : bool :=
  match e with
  | Ev_fib_path_list_back_walk _ _ => true
  | _ => false
  end.

Definition path_list_back_walks (evs : list event) : list event :=
  filter is_path_list_back_walk evs.

(** The walk went on to the path-list: there is exactly one call of
    [fib_path_list_back_walk], it is the last event, and it passes the
    owning path-list and the context on as they came. *)
Definition propagated (pl_index : Z) (ctx : fib_node_back_walk_ctx_t)
    (evs : list event) : Prop :=
  path_list_back_walks evs = [Ev_fib_path_list_back_walk pl_index ctx] /\
  last evs (Ev_adj_unlock 0) = Ev_fib_path_list_back_walk pl_index ctx.

(** The walk stopped at the path: no call of [fib_path_list_back_walk]. *)
Definition not_propagated (evs : list event) : Prop :=
  path_list_back_walks evs = [].

(** ** Sequences of operations on one path

    What can happen to a path once it exists: a back-walk, a resolve, a
    loop detection, each with the collaborators' answers of its time. *)
Inductive path_op : Type :=
| Op_back_walk (X : fib_ext) (ctx : fib_node_back_walk_ctx_t)
| Op_resolve (X : fib_ext)
| Op_recursive_loop_detect (X : fib_ext) (entry_indicies : list Z).

Definition run_op (K : fib_defs) (path_index : Z) (op : path_op) : PM unit :=
  match op with
  | Op_back_walk X ctx =>
      _ <- fib_path_back_walk_notify K X path_index ctx ;; ret tt
  | Op_resolve X =>
      _ <- fib_path_resolve_i K X path_index ;; ret tt
  | Op_recursive_loop_detect X entry_indicies =>
      _ <- fib_path_recursive_loop_detect_i K X entry_indicies ;; ret tt
  end.

Fixpoint run_ops (K : fib_defs) (path_index : Z) (ops : list path_op) : PM unit :=
  match ops with
  | [] => ret tt
  | op :: rest => run_op K path_index op ;; run_ops K path_index rest
  end.

(** What [fib_path_resolve] does to a permanent drop. *)
Definition resolved_as_drop (X : fib_ext) (path : fib_path_t) : fib_path_t :=
  oper_flags_clear FIB_PATH_OPER_FLAG_RESOLVED
    (set_fp_dpo (drop_dpo_get X (fib_proto_to_dpo X (fp_nh_proto path)))
       (oper_flags_set FIB_PATH_OPER_FLAG_RESOLVED path)).

(** A path through an interface: attached or attached next-hop. *)
Definition via_interface (path : fib_path_t) : bool :=
  match fp_type path with
  | FIB_PATH_TYPE_ATTACHED_NEXT_HOP | FIB_PATH_TYPE_ATTACHED => true
  | _ => false
  end.

Definition has_oper_drop (path : fib_path_t) : bool :=
  flag_test (fp_oper_flags path) FIB_PATH_OPER_FLAG_DROP.

(** The attached next-hop case of the back-walk handler returns before
    it looks at INTERFACE_DELETE when the walk carries INTERFACE_UP and
    the path is already RESOLVED, or carries INTERFACE_DOWN but not
    INTERFACE_UP and the path is not RESOLVED. *)
Definition returns_before_delete (K : fib_defs) (ctx : fib_node_back_walk_ctx_t)
    (path : fib_path_t) : bool :=
  (reason_has ctx (FIB_NODE_BW_REASON_FLAG_INTERFACE_UP K) &&
   flag_test (fp_oper_flags path) FIB_PATH_OPER_FLAG_RESOLVED) ||
  (reason_has ctx (FIB_NODE_BW_REASON_FLAG_INTERFACE_DOWN K) &&
   negb (reason_has ctx (FIB_NODE_BW_REASON_FLAG_INTERFACE_UP K)) &&
   negb (flag_test (fp_oper_flags path) FIB_PATH_OPER_FLAG_RESOLVED)).

(** Only a recursive path is ever marked as looped. *)
Definition looped_only_if_recursive (path : fib_path_t) : Prop :=
  fib_path_is_looped_i path = true -> fp_type path = FIB_PATH_TYPE_RECURSIVE.

(** ** The pool of paths *)

(** Modelled from the spec: the pool of vppinfra (pool.h), a vector of
    slots addressed by a dense stable index; [pool_get] hands out a free
    slot, growing the vector when there is none, and leaves the other
    slots as they are. *)
Definition pool_t : Type := list (option fib_path_t).

Fixpoint pool_first_free (pool : pool_t) : option nat :=
  match pool with
  | [] => None
  | None :: _ => Some O
  | Some _ :: rest =>
      match pool_first_free rest with
      | Some i => Some (S i)
      | None => None
      end
  end.

Definition pool_get_index (pool : pool_t) : nat :=
  match pool_first_free pool with
  | Some i => i
  | None => length pool
  end.

Definition pool_elt_at_index (pool : pool_t) (index : nat) : option fib_path_t :=
  match nth_error pool index with
  | Some (Some path) => Some path
  | _ => None
  end.

Fixpoint pool_store (pool : pool_t) (index : nat) (path : fib_path_t) : pool_t :=
  match pool, index with
  | [], O => [Some path]
  | [], S i => None :: pool_store [] i path
  | _ :: rest, O => Some path :: rest
  | slot :: rest, S i => slot :: pool_store rest i path
  end.

Fixpoint pool_put (pool : pool_t) (index : nat) : pool_t :=
  match pool, index with
  | [], _ => []
  | _ :: rest, O => None :: rest
  | slot :: rest, S i => slot :: pool_put rest i
  end.

(** The process-wide state: [fib_path_pool] and the events so far. *)
Record fib_state : Type := mk_fib_state {
  fib_path_pool : pool_t;
  events : list event
}.

Definition FM (A : Type) : Type := fib_state -> result (A * fib_state).

(** [path = fib_path_get(path_index)] followed by code on [path]. *)
Definition with_path {A} (path_index : nat) (body : PM A) : FM A :=
  fun st =>
    match pool_elt_at_index (fib_path_pool st) path_index with
    | None => InvalidIndex
    | Some path =>
        match body (mk_pstate path (events st)) with
        | Ok (a, s) =>
            Ok (a, mk_fib_state (pool_store (fib_path_pool st) path_index (cur s))
                                (trace s))
        | AssertFailed => AssertFailed
        | InvalidIndex => InvalidIndex
        end
    end.

(** [pool_get(fib_path_pool, path)] followed by the writes that fill the
    new element. *)
Definition pool_get_and_fill (path : fib_path_t) : FM nat :=
  fun st =>
    let path_index := pool_get_index (fib_path_pool st) in
    Ok (path_index,
        mk_fib_state (pool_store (fib_path_pool st) path_index path) (events st)).

Section PathApi.

Variable K : fib_defs.
Variable X : fib_ext.

Definition fib_path_get (st : fib_state) (index : nat) : option fib_path_t :=
  pool_elt_at_index (fib_path_pool st) index.

Definition fib_path_create (pl_index : Z) (nh_proto : fib_protocol_t)
    (flags : Z) (rpath : fib_route_path_t) : FM nat :=
  pool_get_and_fill (fib_path_create_i K pl_index nh_proto flags rpath).

Definition fib_path_create_special (pl_index : Z) (nh_proto : fib_protocol_t)
    (flags : Z) (dpo : dpo_id_t) : FM nat :=
  pool_get_and_fill (fib_path_create_special_i K pl_index nh_proto flags dpo).

Definition fib_path_copy (path_index : nat) (path_list_index : Z) : FM nat :=
  fun st =>
    let new_index := pool_get_index (fib_path_pool st) in
    match fib_path_get st path_index with
    | None => InvalidIndex
    | Some orig_path =>
        Ok (new_index,
            mk_fib_state (pool_store (fib_path_pool st) new_index
                            (fib_path_copy_i orig_path path_list_index))
                         (events st))
    end.

Definition fib_path_destroy (path_index : nat) : FM unit :=
  fun st =>
    match with_path path_index (fib_path_unresolve K X) st with
    | Ok (_, st') =>
        Ok (tt, mk_fib_state (pool_put (fib_path_pool st') path_index) (events st'))
    | AssertFailed => AssertFailed
    | InvalidIndex => InvalidIndex
    end.

Definition fib_path_hash (st : fib_state) (path_index : nat) : result Z :=
  match fib_path_get st path_index with
  | Some path => Ok (fib_path_hash_i X path)
  | None => InvalidIndex
  end.

Definition fib_path_cmp (st : fib_state) (pi1 pi2 : nat) : result Z :=
  match fib_path_get st pi1, fib_path_get st pi2 with
  | Some path1, Some path2 => Ok (fib_path_cmp_i X path1 path2)
  | _, _ => InvalidIndex
  end.

Definition fib_path_is_looped (st : fib_state) (path_index : nat) : result bool :=
  match fib_path_get st path_index with
  | Some path => Ok (fib_path_is_looped_i path)
  | None => InvalidIndex
  end.

Definition fib_path_is_resolved (st : fib_state) (path_index : nat) : result bool :=
  match fib_path_get st path_index with
  | Some path => Ok (fib_path_is_resolved_i K path)
  | None => InvalidIndex
  end.

Definition fib_path_resolve (path_index : nat) : FM bool :=
  with_path path_index (fib_path_resolve_i K X (Z.of_nat path_index)).

Definition fib_path_recursive_loop_detect (path_index : nat)
    (entry_indicies : list Z) : FM bool :=
  with_path path_index (fib_path_recursive_loop_detect_i K X entry_indicies).

(** The graph-node entry point: the node is the path at [path_index]. *)
Definition fib_path_back_walk (path_index : nat) (ctx : fib_node_back_walk_ctx_t)
  : FM fib_node_back_walk_rc_t :=
  with_path path_index (fib_path_back_walk_notify K X (Z.of_nat path_index) ctx).

(** [fib_path_encode(path_list_index, path_index, ctx)]: [api_rpaths] is
    the vector [ctx] points at, [slot] the element [vec_add2] hands out;
    the result is the return value and the vector afterwards. *)
Definition fib_path_encode (st : fib_state) (path_list_index : Z)
    (path_index : nat) (api_rpaths : list fib_route_path_encode_t)
    (slot : fib_route_path_encode_t)
  : result (Z * list fib_route_path_encode_t) :=
  match fib_path_get st path_index with
  | None => InvalidIndex
  | Some path => Ok (1, api_rpaths ++ [fib_path_encode_i path slot])
  end.

End PathApi.

(** Sequencing of pool-level operations. *)
Definition fm_bind {A B} (m : FM A) (k : A -> FM B) : FM B :=
  fun st => match m st with
            | Ok (a, st') => k a st'
            | AssertFailed => AssertFailed
            | InvalidIndex => InvalidIndex
            end.

Definition fm_ret {A} (a : A) : FM A := fun st => Ok (a, st).

(** The state a pool-level operation leaves, and its result. *)
Definition state_after {A} (m : FM A) (st : fib_state) : fib_state :=
  match m st with
  | Ok (_, st') => st'
  | _ => st
  end.

Definition result_of {A} (m : FM A) (st : fib_state) : result A :=
  match m st with
  | Ok (a, _) => Ok a
  | AssertFailed => AssertFailed
  | InvalidIndex => InvalidIndex
  end.

(** ** The construction rules in the words of the specification

    The kind a route-path descriptor yields, rule by rule: interface
    present and LOCAL flag, Receive; interface present and zero address,
    Attached; interface present and nonzero address, AttachedNextHop; no
    interface, zero address and no table, Special; no interface, zero
    address and a table, Deag; no interface and nonzero address,
    Recursive. *)
Module SpecWords.

Definition interface_present (rp : fib_route_path_t) : bool :=
  negb (frp_sw_if_index rp =? U32_MAX).

Definition table_given (rp : fib_route_path_t) : bool :=
  negb (frp_fib_index rp =? U32_MAX).

Definition zero_address (rp : fib_route_path_t) : bool :=
  ip46_address_is_zero (frp_addr rp).

Definition created_kind (local_flag : bool) (rp : fib_route_path_t)
  : fib_path_type_t :=
  if interface_present rp && local_flag then FIB_PATH_TYPE_RECEIVE
  else if interface_present rp && zero_address rp then FIB_PATH_TYPE_ATTACHED
  else if interface_present rp && negb (zero_address rp)
       then FIB_PATH_TYPE_ATTACHED_NEXT_HOP
  else if negb (interface_present rp) && zero_address rp && negb (table_given rp)
       then FIB_PATH_TYPE_SPECIAL
  else if negb (interface_present rp) && zero_address rp && table_given rp
       then FIB_PATH_TYPE_DEAG
  else FIB_PATH_TYPE_RECURSIVE.

(** The per-kind payload of a path read back, against the descriptor it
    was created from. *)
Definition payload_from (nh_proto : fib_protocol_t) (rp : fib_route_path_t)
    (path : fib_path_t) : Prop :=
  match fp_type path with
  | FIB_PATH_TYPE_RECEIVE =>
      receive_fp_interface (fp_u path) = frp_sw_if_index rp /\
      receive_fp_addr (fp_u path) = frp_addr rp
  | FIB_PATH_TYPE_ATTACHED =>
      attached_fp_interface (fp_u path) = frp_sw_if_index rp
  | FIB_PATH_TYPE_ATTACHED_NEXT_HOP =>
      attached_next_hop_fp_interface (fp_u path) = frp_sw_if_index rp /\
      attached_next_hop_fp_nh (fp_u path) = frp_addr rp
  | FIB_PATH_TYPE_SPECIAL => True
  | FIB_PATH_TYPE_DEAG =>
      deag_fp_tbl_id (fp_u path) = frp_fib_index rp
  | FIB_PATH_TYPE_RECURSIVE =>
      recursive_fp_tbl_id (fp_u path) = frp_fib_index rp /\
      match nh_proto with
      | FIB_PROTOCOL_MPLS =>
          recursive_fp_nh_fp_local_label (fp_u path) = frp_local_label rp
      | _ => recursive_fp_nh_fp_ip (fp_u path) = frp_addr rp
      end
  | FIB_PATH_TYPE_EXCLUSIVE => False
  end.

End SpecWords.

(** ** Sample collaborators

    One choice of header constants and collaborator answers, used to run
    the code on concrete inputs: every interface is up and not
    point-to-point, interfaces compare by index, the drop DPO of a
    protocol is a valid DPO of type 1, and a via-entry forwards through a
    load-balance DPO and has no source better than RR. *)
Module Sample.

Definition defs : fib_defs :=
  {| CLIB_ASSERT_ENABLE := false;
     FIB_PATH_CFG_FLAG_DROP := 1;
     FIB_PATH_CFG_FLAG_LOCAL := 16;
     FIB_PATH_CFG_FLAG_RESOLVE_HOST := 4;
     FIB_PATH_CFG_FLAG_RESOLVE_ATTACHED := 8;
     FIB_ROUTE_PATH_RESOLVE_VIA_HOST := 1;
     FIB_ROUTE_PATH_RESOLVE_VIA_ATTACHED := 2;
     FIB_NODE_BW_REASON_FLAG_EVALUATE := 2;
     FIB_NODE_BW_REASON_FLAG_INTERFACE_UP := 4;
     FIB_NODE_BW_REASON_FLAG_INTERFACE_DOWN := 8;
     FIB_NODE_BW_REASON_FLAG_INTERFACE_DELETE := 16;
     FIB_NODE_BW_REASON_FLAG_ADJ_UPDATE := 32;
     FIB_NODE_BW_REASON_FLAG_ADJ_DOWN := 64;
     FIB_SOURCE_RR := 20;
     FIB_ENTRY_FLAG_ATTACHED := 2;
     DPO_ADJACENCY := 5;
     DPO_ADJACENCY_GLEAN := 8 |}.

Definition drop_dpo (proto : Z) : dpo_id_t := mk_dpo 1 proto 0 proto.

Definition ext : fib_ext :=
  {| vnet_sw_interface_is_admin_up := fun _ => true;
     vnet_sw_interface_is_p2p := fun _ => false;
     vnet_sw_interface_compare := fun a b => a - b;
     fib_proto_to_dpo := fib_protocol_to_Z;
     fib_proto_to_link := fib_protocol_to_Z;
     adj_nbr_add_or_lock := fun _ _ _ sw_if_index => 100 + sw_if_index;
     adj_glean_add_or_lock := fun _ sw_if_index => 200 + sw_if_index;
     adj_child_add := fun _ child => child;
     fib_entry_child_add := fun _ child => child;
     fib_entry_contribute_forwarding := fun fei _ => mk_dpo 4 0 0 fei;
     fib_entry_get_best_source := fun _ => 20;
     fib_entry_get_flags := fun _ => 0;
     fib_entry_get_prefix := fun _ => fib_prefix_from_mpls_label 0;
     fib_entry_recursive_loop_detect := fun _ _ => true;
     fib_table_entry_special_add := fun _ _ => 7;
     drop_dpo_get := drop_dpo;
     dpo_set := fun type proto index => mk_dpo type proto 0 index;
     lookup_dpo_add_or_lock_w_fib_index := fun tbl proto => mk_dpo 10 proto 0 tbl;
     receive_dpo_add_or_lock := fun proto sw_if_index _ => mk_dpo 9 proto 0 sw_if_index;
     hash_memory := fun bytes => fold_left (fun h b => (31 * h + b) mod U32_MOD) bytes 0 |}.

(** An empty pool and no events. *)
Definition st0 : fib_state := mk_fib_state [] [].

(** Route-path descriptors: "via interface 3" (attached), "via 10.0.0.2
    on interface 3" (attached next-hop), "via 1.1.1.1" in table 0
    (recursive) and the empty descriptor (special). *)
Definition rp_attached : fib_route_path_t :=
  mk_rpath FIB_PROTOCOL_IP4 zero_addr 0 3 U32_MAX 1 0.
Definition rp_attached_next_hop : fib_route_path_t :=
  mk_rpath FIB_PROTOCOL_IP4 (mk_ip46 0 0 0 33554442) 0 3 U32_MAX 1 0.
Definition rp_recursive : fib_route_path_t :=
  mk_rpath FIB_PROTOCOL_IP4 (mk_ip46 0 0 0 16843009) 0 U32_MAX 0 1 0.
Definition rp_special : fib_route_path_t :=
  mk_rpath FIB_PROTOCOL_IP4 zero_addr 0 U32_MAX U32_MAX 1 0.

(** The element [vec_add2] hands to [fib_path_encode]. *)
Definition slot : fib_route_path_encode_t :=
  mk_rpath_encode (mk_rpath FIB_PROTOCOL_IP4 zero_addr 0 0 0 0 0) (mk_dpo 0 0 0 0).

(** "via interface 3" with weight 0. *)
Definition rp_weight_zero : fib_route_path_t :=
  mk_rpath FIB_PROTOCOL_IP4 zero_addr 0 3 U32_MAX 0 0.

(** A pool with a special path at index 0 and an attached path at
    index 1, both IP4. *)
Definition st_special_attached : fib_state :=
  state_after (fm_bind (fib_path_create defs 0 FIB_PROTOCOL_IP4 0 rp_special)
                 (fun _ => fib_path_create defs 0 FIB_PROTOCOL_IP4 0 rp_attached))
              st0.

(** A recursive path via 1.1.1.1 in table 0 that must resolve through a
    host route, as [fib_path_create] leaves it and with the via-entry 7
    recorded. *)
Definition rp_recursive_via_host : fib_route_path_t :=
  mk_rpath FIB_PROTOCOL_IP4 (mk_ip46 0 0 0 16843009) 0 U32_MAX 0 1 1.
Definition path_resolve_host : fib_path_t :=
  set_fp_via_fib 7
    (fib_path_create_i defs 0 FIB_PROTOCOL_IP4 0 rp_recursive_via_host).

(** A pool whose path 0 is recursive via 1.1.1.1 and carries the DROP
    cfg-flag. *)
Definition st_drop_recursive : fib_state :=
  state_after (fib_path_create defs 0 FIB_PROTOCOL_IP4 1 rp_recursive) st0.

(** The recursive path of [st_recursive_resolved] below: via 1.1.1.1,
    resolved through the via-entry 7. *)
Definition path_recursive_resolved : fib_path_t :=
  match fib_path_resolve_i defs ext 0
          (mk_pstate (fib_path_create_i defs 0 FIB_PROTOCOL_IP4 0 rp_recursive) [])
  with
  | Ok (_, s) => cur s
  | _ => fib_path_zero
  end.

(** A pool whose path 0 is recursive via 1.1.1.1, resolved through the
    via-entry 7. *)
Definition st_recursive_resolved : fib_state :=
  state_after (fm_bind (fib_path_create defs 0 FIB_PROTOCOL_IP4 0 rp_recursive)
                 (fun path_index => fib_path_resolve defs ext path_index))
              st0.

(** The path at an index, for a pool that has one there. *)
Definition path_at (st : fib_state) (path_index : nat) : fib_path_t :=
  match fib_path_get st path_index with
  | Some path => path
  | None => fib_path_zero
  end.



(** The attached path of [st_attached_deleted], as resolve left it. *)
Definition path_attached_resolved : fib_path_t :=
  match fib_path_resolve_i defs ext 0
          (mk_pstate (fib_path_create_i defs 0 FIB_PROTOCOL_IP4 0 rp_attached) [])
  with
  | Ok (_, s) => cur s
  | _ => fib_path_zero
  end.

(** A pool whose path 0 is attached next-hop via 10.0.0.2 on interface
    3, resolved. *)
Definition st_attached_next_hop_resolved : fib_state :=
  state_after
    (fm_bind (fib_path_create defs 0 FIB_PROTOCOL_IP4 0 rp_attached_next_hop)
       (fun path_index => fib_path_resolve defs ext path_index))
    st0.

(** A walk that carries INTERFACE_UP and INTERFACE_DELETE. *)
Definition ctx_up_delete : fib_node_back_walk_ctx_t :=
  mk_bw_ctx (Z.lor (FIB_NODE_BW_REASON_FLAG_INTERFACE_UP defs)
                   (FIB_NODE_BW_REASON_FLAG_INTERFACE_DELETE defs)).

End Sample.


(** * The rest of fib_path.c: comparison with a route-path, queries and
    contributions *)

(** A u32 value returned through an [int]. *)
Definition u32_as_int (w : Z) : Z :=
  let v := w mod U32_MOD in
  if v <? 2147483648 then v else v - U32_MOD.

Definition fib_forward_chain_type_eqb (a b : fib_forward_chain_type_t) : bool :=
  match a, b with
  | FIB_FORW_CHAIN_TYPE_UNICAST_IP4, FIB_FORW_CHAIN_TYPE_UNICAST_IP4
  | FIB_FORW_CHAIN_TYPE_UNICAST_IP6, FIB_FORW_CHAIN_TYPE_UNICAST_IP6
  | FIB_FORW_CHAIN_TYPE_MPLS_NON_EOS, FIB_FORW_CHAIN_TYPE_MPLS_NON_EOS
  | FIB_FORW_CHAIN_TYPE_MPLS_EOS, FIB_FORW_CHAIN_TYPE_MPLS_EOS
  | FIB_FORW_CHAIN_TYPE_ETHERNET, FIB_FORW_CHAIN_TYPE_ETHERNET => true
  | _, _ => false
  end.

(** What the query and contribution functions take from other files, on
    top of [fib_defs] and [fib_ext]. *)
Record fib_query_ext : Type := mk_fib_query_ext {
  ADJ_INDEX_INVALID : Z;
  MPLS_FIB_DEFAULT_TABLE_ID : Z;
  DPO_PROTO_MPLS : Z;
  dpo_is_adj : dpo_id_t -> bool;
  adj_get_sw_if_index : Z -> Z;
  fib_entry_get_resolving_interface : Z -> Z;
  fib_forw_chain_type_to_link_type : fib_forward_chain_type_t -> Z;
  fib_forw_chain_type_to_dpo_proto : fib_forward_chain_type_t -> Z;
  lookup_dpo_add_or_lock_w_table_id : Z -> Z -> dpo_id_t
}.

(** The calls these functions make into collaborators: those of the
    resolution code, and three more. *)
Inductive query_event : Type :=
| Qv_path (e : event)
| Qv_lookup_dpo_add_or_lock_w_table_id (table_id proto : Z)
| Qv_fib_urpf_list_append (urpf sw_if_index : Z)
| Qv_fib_entry_contribute_urpf (fei urpf : Z).

Record qstate : Type := mk_qstate {
  qcur : fib_path_t;
  qtrace : list query_event
}.

Definition QM (A : Type) : Type := qstate -> result (A * qstate).

Definition q_ret {A} (a : A) : QM A := fun s => Ok (a, s).

Definition q_bind {A B} (m : QM A) (k : A -> QM B) : QM B :=
  fun s => match m s with
           | Ok (a, s') => k a s'
           | AssertFailed => AssertFailed
           | InvalidIndex => InvalidIndex
           end.

Declare Scope qm_scope.
Delimit Scope qm_scope with qm.
Notation "x <- m ;; k" := (q_bind m (fun x => k))
  (at level 61, m at next level, right associativity) : qm_scope.
Notation "m ;; k" := (q_bind m (fun _ => k))
  (at level 61, right associativity) : qm_scope.

Definition q_get_path : QM fib_path_t := fun s => Ok (qcur s, s).

Definition q_emit (e : query_event) : QM unit :=
  fun s => Ok (tt, mk_qstate (qcur s) (qtrace s ++ [e])).

(** Code of the resolution part run from here: its events are appended
    as [Qv_path] events. *)
Definition q_lift {A} (m : PM A) : QM A :=
  fun s => match m (mk_pstate (qcur s) []) with
           | Ok (a, s') =>
               Ok (a, mk_qstate (cur s') (qtrace s ++ map Qv_path (trace s')))
           | AssertFailed => AssertFailed
           | InvalidIndex => InvalidIndex
           end.


Section QueryCode.

Variable K : fib_defs.
Variable X : fib_ext.
Variable Q : fib_query_ext.

Definition Q_ASSERT (c : bool) : QM unit :=
  fun s => if CLIB_ASSERT_ENABLE K && negb c then AssertFailed else Ok (tt, s).

(** The body of [fib_path_cmp_w_route_path] after [fib_path_get]. *)
Definition fib_path_cmp_w_route_path_i (path : fib_path_t)
    (rpath : fib_route_path_t) : Z :=
  if negb (fp_weight path =? frp_weight rpath)
  then u32_sub_as_int (fp_weight path) (frp_weight rpath)
  else
    match fp_type path with
    | FIB_PATH_TYPE_ATTACHED_NEXT_HOP =>
        let res := ip46_address_cmp (attached_next_hop_fp_nh (fp_u path))
                                    (frp_addr rpath) in
        if 0 =? res
        then vnet_sw_interface_compare X
               (attached_next_hop_fp_interface (fp_u path)) (frp_sw_if_index rpath)
        else res
    | FIB_PATH_TYPE_ATTACHED =>
        vnet_sw_interface_compare X (attached_fp_interface (fp_u path))
                                    (frp_sw_if_index rpath)
    | FIB_PATH_TYPE_RECURSIVE =>
        let res :=
          if fib_protocol_eqb FIB_PROTOCOL_MPLS (fp_nh_proto path)
          then u32_sub_as_int (recursive_fp_nh_fp_local_label (fp_u path))
                              (frp_local_label rpath)
          else ip46_address_cmp (recursive_fp_nh_fp_ip (fp_u path))
                                (frp_addr rpath) in
        if 0 =? res
        then u32_sub_as_int (recursive_fp_tbl_id (fp_u path)) (frp_fib_index rpath)
        else res
    | FIB_PATH_TYPE_DEAG =>
        u32_sub_as_int (deag_fp_tbl_id (fp_u path)) (frp_fib_index rpath)
    | FIB_PATH_TYPE_SPECIAL
    | FIB_PATH_TYPE_RECEIVE
    | FIB_PATH_TYPE_EXCLUSIVE => 0
    end.

Definition fib_path_get_resolving_interface_i (path : fib_path_t) : Z :=
  match fp_type path with
  | FIB_PATH_TYPE_ATTACHED_NEXT_HOP => attached_next_hop_fp_interface (fp_u path)
  | FIB_PATH_TYPE_ATTACHED => attached_fp_interface (fp_u path)
  | FIB_PATH_TYPE_RECEIVE => receive_fp_interface (fp_u path)
  | FIB_PATH_TYPE_RECURSIVE =>
      fib_entry_get_resolving_interface Q (fp_via_fib path)
  | FIB_PATH_TYPE_SPECIAL
  | FIB_PATH_TYPE_DEAG
  | FIB_PATH_TYPE_EXCLUSIVE => U32_MAX
  end.

Definition fib_path_get_adj_i (path : fib_path_t) : result Z :=
  if CLIB_ASSERT_ENABLE K && negb (dpo_is_adj Q (fp_dpo path)) then AssertFailed
  else if dpo_is_adj Q (fp_dpo path) then Ok (dpoi_index (fp_dpo path))
  else Ok (ADJ_INDEX_INVALID Q).

Definition fib_path_get_weight_i (path : fib_path_t) : Z :=
  u32_as_int (fp_weight path).

Definition fib_path_get_proto_i (path : fib_path_t) : fib_protocol_t :=
  fp_nh_proto path.

Definition fib_path_is_recursive_i (path : fib_path_t) : bool :=
  fib_path_type_eqb FIB_PATH_TYPE_RECURSIVE (fp_type path).
Definition fib_path_is_exclusive_i (path : fib_path_t) : bool :=
  fib_path_type_eqb FIB_PATH_TYPE_EXCLUSIVE (fp_type path).
Definition fib_path_is_deag_i (path : fib_path_t) : bool :=
  fib_path_type_eqb FIB_PATH_TYPE_DEAG (fp_type path).

(** The body of [fib_path_contribute_urpf]. *)
Definition fib_path_contribute_urpf_i (urpf : Z) : QM unit :=
  (path <- q_get_path ;;
   if negb (fib_path_is_resolved_i K path) then q_ret tt
   else
     match fp_type path with
     | FIB_PATH_TYPE_ATTACHED_NEXT_HOP =>
         q_emit (Qv_fib_urpf_list_append urpf
                   (attached_next_hop_fp_interface (fp_u path)))
     | FIB_PATH_TYPE_ATTACHED =>
         q_emit (Qv_fib_urpf_list_append urpf (attached_fp_interface (fp_u path)))
     | FIB_PATH_TYPE_RECURSIVE =>
         q_emit (Qv_fib_entry_contribute_urpf (fp_via_fib path) urpf)
     | FIB_PATH_TYPE_EXCLUSIVE
     | FIB_PATH_TYPE_SPECIAL =>
         if dpo_is_adj Q (fp_dpo path)
         then q_emit (Qv_fib_urpf_list_append urpf
                        (adj_get_sw_if_index Q (dpoi_index (fp_dpo path))))
         else q_ret tt
     | FIB_PATH_TYPE_DEAG
     | FIB_PATH_TYPE_RECEIVE => q_ret tt
     end)%qm.

(** The body of [fib_path_contribute_forwarding]; [dpo] is what the
    caller's [dpo_id_t] holds on entry, the value returned what it holds
    on return. *)
Definition fib_path_contribute_forwarding_i (path_index : Z)
    (fct : fib_forward_chain_type_t) (dpo : dpo_id_t) : QM dpo_id_t :=
  (Q_ASSERT (negb (fib_forward_chain_type_eqb FIB_FORW_CHAIN_TYPE_MPLS_EOS fct)) ;;
   path <- q_get_path ;;
   if fib_forward_chain_type_eqb
        (fib_path_proto_to_chain_type (fp_nh_proto path)) fct
   then q_ret (fp_dpo path)
   else
     match fp_type path with
     | FIB_PATH_TYPE_ATTACHED_NEXT_HOP =>
         ai <- q_lift (fib_path_attached_next_hop_get_adj X
                         (fib_forw_chain_type_to_link_type Q fct)) ;;
         q_emit (Qv_path (Ev_adj_unlock ai)) ;;
         q_ret (dpo_set X (DPO_ADJACENCY K)
                  (fib_forw_chain_type_to_dpo_proto Q fct) ai)
     | FIB_PATH_TYPE_RECURSIVE =>
         match fct with
         | FIB_FORW_CHAIN_TYPE_ETHERNET => Q_ASSERT false ;; q_ret dpo
         | _ => q_lift (fib_path_recursive_adj_update K X path_index fct Ptr_caller)
         end
     | FIB_PATH_TYPE_DEAG =>
         match fct with
         | FIB_FORW_CHAIN_TYPE_MPLS_NON_EOS =>
             q_emit (Qv_lookup_dpo_add_or_lock_w_table_id
                       (MPLS_FIB_DEFAULT_TABLE_ID Q) (DPO_PROTO_MPLS Q)) ;;
             q_ret (lookup_dpo_add_or_lock_w_table_id Q
                      (MPLS_FIB_DEFAULT_TABLE_ID Q) (DPO_PROTO_MPLS Q))
         | FIB_FORW_CHAIN_TYPE_ETHERNET => Q_ASSERT false ;; q_ret dpo
         | _ => q_ret (fp_dpo path)
         end
     | FIB_PATH_TYPE_EXCLUSIVE => q_ret (exclusive_fp_ex_dpo (fp_u path))
     | FIB_PATH_TYPE_ATTACHED
     | FIB_PATH_TYPE_RECEIVE
     | FIB_PATH_TYPE_SPECIAL => Q_ASSERT false ;; q_ret dpo
     end)%qm.


End QueryCode.

(** ** Well-formed values *)

Definition is_u32 (w : Z) : Prop := 0 <= w < U32_MOD.

Definition ip46_wf (a : ip46_address_t) : Prop :=
  is_u32 (as_u32_0 a) /\ is_u32 (as_u32_1 a) /\
  is_u32 (as_u32_2 a) /\ is_u32 (as_u32_3 a).

(** Every word of the union holds a u32. *)
Definition union_wf (u : fib_path_union_t) : Prop :=
  is_u32 (u_w0 u) /\ is_u32 (u_w1 u) /\ is_u32 (u_w2 u) /\
  is_u32 (u_w3 u) /\ is_u32 (u_w4 u) /\ is_u32 (u_w5 u).

(** What [fib_path_cmp_i] compares once the protocols agree: the members
    of the union that the kind of the FIRST path selects, read from both
    paths. *)
Definition members_agree (X : fib_ext) (path1 path2 : fib_path_t) : Prop :=
  match fp_type path1 with
  | FIB_PATH_TYPE_ATTACHED_NEXT_HOP =>
      attached_next_hop_fp_nh (fp_u path1) = attached_next_hop_fp_nh (fp_u path2) /\
      vnet_sw_interface_compare X (attached_next_hop_fp_interface (fp_u path1))
                                  (attached_next_hop_fp_interface (fp_u path2)) = 0
  | FIB_PATH_TYPE_ATTACHED =>
      vnet_sw_interface_compare X (attached_fp_interface (fp_u path1))
                                  (attached_fp_interface (fp_u path2)) = 0
  | FIB_PATH_TYPE_RECURSIVE =>
      recursive_fp_nh_fp_ip (fp_u path1) = recursive_fp_nh_fp_ip (fp_u path2) /\
      recursive_fp_tbl_id (fp_u path1) = recursive_fp_tbl_id (fp_u path2)
  | FIB_PATH_TYPE_DEAG =>
      deag_fp_tbl_id (fp_u path1) = deag_fp_tbl_id (fp_u path2)
  | FIB_PATH_TYPE_SPECIAL
  | FIB_PATH_TYPE_RECEIVE
  | FIB_PATH_TYPE_EXCLUSIVE => True
  end.

(** ** The query functions on the pool *)

Section QueryApi.

Variable K : fib_defs.
Variable X : fib_ext.
Variable Q : fib_query_ext.

Definition fib_path_cmp_for_sort (st : fib_state) (pi1 pi2 : nat) : result Z :=
  match fib_path_get st pi1, fib_path_get st pi2 with
  | Some path1, Some path2 => Ok (fib_path_cmp_i X path1 path2)
  | _, _ => InvalidIndex
  end.

Definition fib_path_cmp_w_route_path (st : fib_state) (path_index : nat)
    (rpath : fib_route_path_t) : result Z :=
  match fib_path_get st path_index with
  | Some path => Ok (fib_path_cmp_w_route_path_i X path rpath)
  | None => InvalidIndex
  end.

Definition fib_path_get_resolving_interface (st : fib_state) (path_index : nat)
  : result Z :=
  match fib_path_get st path_index with
  | Some path => Ok (fib_path_get_resolving_interface_i Q path)
  | None => InvalidIndex
  end.

Definition fib_path_get_adj (st : fib_state) (path_index : nat) : result Z :=
  match fib_path_get st path_index with
  | Some path => fib_path_get_adj_i K Q path
  | None => InvalidIndex
  end.

Definition fib_path_get_weight (st : fib_state) (path_index : nat) : result Z :=
  match fib_path_get st path_index with
  | Some path => Ok (fib_path_get_weight_i path)
  | None => InvalidIndex
  end.

Definition fib_path_get_proto (st : fib_state) (path_index : nat)
  : result fib_protocol_t :=
  match fib_path_get st path_index with
  | Some path => Ok (fib_path_get_proto_i path)
  | None => InvalidIndex
  end.

Definition fib_path_is_recursive (st : fib_state) (path_index : nat) : result bool :=
  match fib_path_get st path_index with
  | Some path => Ok (fib_path_is_recursive_i path)
  | None => InvalidIndex
  end.

Definition fib_path_is_exclusive (st : fib_state) (path_index : nat) : result bool :=
  match fib_path_get st path_index with
  | Some path => Ok (fib_path_is_exclusive_i path)
  | None => InvalidIndex
  end.

Definition fib_path_is_deag (st : fib_state) (path_index : nat) : result bool :=
  match fib_path_get st path_index with
  | Some path => Ok (fib_path_is_deag_i path)
  | None => InvalidIndex
  end.

End QueryApi.

(** ** Invariants of a path *)

(** Two paths with the same configuration half and owner. *)
Definition same_config (path path' : fib_path_t) : Prop :=
  fp_pl_index path' = fp_pl_index path /\
  fp_cfg_flags path' = fp_cfg_flags path /\
  fp_type path' = fp_type path /\
  fp_nh_proto path' = fp_nh_proto path /\
  fp_weight path' = fp_weight path /\
  fp_u path' = fp_u path.

(** Only a recursive path holds a via-entry. *)
Definition via_fib_only_if_recursive (path : fib_path_t) : Prop :=
  fp_via_fib path <> FIB_NODE_INDEX_INVALID ->
  fp_type path = FIB_PATH_TYPE_RECURSIVE.

(** The paths the code makes: by [fib_path_create],
    [fib_path_create_special] or [fib_path_copy]. *)
Inductive new_path (K : fib_defs) : fib_path_t -> Prop :=
| new_path_create (pl_index : Z) (nh_proto : fib_protocol_t) (flags : Z)
                  (rpath : fib_route_path_t) :
    new_path K (fib_path_create_i K pl_index nh_proto flags rpath)
| new_path_create_special (pl_index : Z) (nh_proto : fib_protocol_t) (flags : Z)
                          (dpo : dpo_id_t) :
    new_path K (fib_path_create_special_i K pl_index nh_proto flags dpo)
| new_path_copy (orig_path : fib_path_t) (path_list_index : Z) :
    new_path K (fib_path_copy_i orig_path path_list_index).

(** ** Walks told apart by what they carry *)

(** A walk that reports the state of the interface and nothing else:
    INTERFACE_UP and INTERFACE_DOWN as given, no INTERFACE_DELETE,
    ADJ_UPDATE or ADJ_DOWN. *)
Definition interface_state_walk (K : fib_defs) (ctx : fib_node_back_walk_ctx_t)
    (up down : bool) : Prop :=
  reason_has ctx (FIB_NODE_BW_REASON_FLAG_INTERFACE_UP K) = up /\
  reason_has ctx (FIB_NODE_BW_REASON_FLAG_INTERFACE_DOWN K) = down /\
  reason_has ctx (FIB_NODE_BW_REASON_FLAG_INTERFACE_DELETE K) = false /\
  reason_has ctx (FIB_NODE_BW_REASON_FLAG_ADJ_UPDATE K) = false /\
  reason_has ctx (FIB_NODE_BW_REASON_FLAG_ADJ_DOWN K) = false.

(** The DPO a path of a kind without parent stacks when it resolves, and
    the collaborator call that makes it. *)
Definition leaf_dpo (X : fib_ext) (path : fib_path_t) : dpo_id_t :=
  match fp_type path with
  | FIB_PATH_TYPE_SPECIAL => drop_dpo_get X (fib_proto_to_dpo X (fp_nh_proto path))
  | FIB_PATH_TYPE_DEAG =>
      lookup_dpo_add_or_lock_w_fib_index X (deag_fp_tbl_id (fp_u path))
        (fib_proto_to_dpo X (fp_nh_proto path))
  | FIB_PATH_TYPE_RECEIVE =>
      receive_dpo_add_or_lock X (fib_proto_to_dpo X (fp_nh_proto path))
        (receive_fp_interface (fp_u path)) (receive_fp_addr (fp_u path))
  | FIB_PATH_TYPE_EXCLUSIVE => exclusive_fp_ex_dpo (fp_u path)
  | _ => fp_dpo path
  end.

Definition leaf_events (X : fib_ext) (path : fib_path_t) : list event :=
  match fp_type path with
  | FIB_PATH_TYPE_DEAG =>
      [Ev_lookup_dpo_add_or_lock (deag_fp_tbl_id (fp_u path))
         (fib_proto_to_dpo X (fp_nh_proto path))]
  | FIB_PATH_TYPE_RECEIVE =>
      [Ev_receive_dpo_add_or_lock (fib_proto_to_dpo X (fp_nh_proto path))
         (receive_fp_interface (fp_u path)) (receive_fp_addr (fp_u path))]
  | _ => []
  end.

(** ** New exclusive paths *)

(** A DPO whose fields fit their C types: [dpoi_type] and [dpoi_proto]
    one byte, [dpoi_next_node] a u16. *)
Definition dpo_wf (d : dpo_id_t) : Prop :=
  0 <= dpoi_type d < 256 /\ 0 <= dpoi_proto d < 256 /\
  0 <= dpoi_next_node d < 65536.

(** ** What resolving takes and unresolving gives back *)

(** The event is a call that takes a lock on the adjacency [ai]. *)
Definition locks_adj (X : fib_ext) (e : event) (ai : Z) : Prop :=
  match e with
  | Ev_adj_nbr_add_or_lock proto link nh sw_if_index =>
      adj_nbr_add_or_lock X proto link nh sw_if_index = ai
  | Ev_adj_glean_add_or_lock proto sw_if_index =>
      adj_glean_add_or_lock X proto sw_if_index = ai
  | _ => False
  end.

(** [fib_path_resolve] followed by [fib_path_unresolve], as at
    [fib_path_destroy] of a resolved path. *)
Definition resolve_then_unresolve (K : fib_defs) (X : fib_ext) (path_index : Z)
  : PM unit :=
  _ <- fib_path_resolve_i K X path_index ;;
  fib_path_unresolve K X.

(** The prefix [fib_path_resolve] asks the table to add for a recursive
    path. *)
Definition recursive_pfx (path : fib_path_t) : fib_prefix_t :=
  if fib_protocol_eqb FIB_PROTOCOL_MPLS (fp_nh_proto path)
  then fib_prefix_from_mpls_label (recursive_fp_nh_fp_local_label (fp_u path))
  else fib_prefix_from_ip46_addr (recursive_fp_nh_fp_ip (fp_u path)).

(** ** Sample collaborators of the query functions *)

Module QSample.

Definition qext : fib_query_ext :=
  {| ADJ_INDEX_INVALID := U32_MAX;
     MPLS_FIB_DEFAULT_TABLE_ID := 0;
     DPO_PROTO_MPLS := 2;
     dpo_is_adj := fun d => dpoi_type d =? 5;
     adj_get_sw_if_index := fun ai => ai - 100;
     fib_entry_get_resolving_interface := fun _ => 3;
     fib_forw_chain_type_to_link_type := fun fct =>
       match fct with
       | FIB_FORW_CHAIN_TYPE_UNICAST_IP4 => 0
       | FIB_FORW_CHAIN_TYPE_UNICAST_IP6 => 1
       | FIB_FORW_CHAIN_TYPE_ETHERNET => 3
       | _ => 2
       end;
     fib_forw_chain_type_to_dpo_proto := fun fct =>
       match fct with
       | FIB_FORW_CHAIN_TYPE_UNICAST_IP4 => 0
       | FIB_FORW_CHAIN_TYPE_UNICAST_IP6 => 1
       | FIB_FORW_CHAIN_TYPE_ETHERNET => 3
       | _ => 2
       end;
     lookup_dpo_add_or_lock_w_table_id := fun tbl proto => mk_dpo 10 proto 0 tbl |}.

End QSample.


(** The MPLS label an encoded route-path carries.  [fib_path_encode]
    copies the union member [recursive.fp_nh], where a Recursive MPLS
    path keeps its label, into [frp_addr] and assigns no other label
    field: the label comes back as the leading word of the address
    bytes. *)
Definition encoded_local_label (r : fib_route_path_t) : Z :=
  as_u32_0 (frp_addr r).

(** ** The paths the code builds *)

(** What holds of every path made by [fib_path_create],
    [fib_path_create_special] or [fib_path_copy] and then taken through
    back-walks, resolves and loop detections: the oper-flags fit their
    byte; RECURSIVE_LOOP is found on recursive paths only and the DROP
    oper-flag on paths through an interface only; and a recursive path
    with the DROP cfg-flag, which [fib_path_resolve] never gives a
    via-entry, has none and is not marked looped. *)
Definition built_path_inv (K : fib_defs) (path : fib_path_t) : Prop :=
  0 <= fp_oper_flags path < 256 /\
  looped_only_if_recursive path /\
  (has_oper_drop path = true -> via_interface path = true) /\
  (fp_type path = FIB_PATH_TYPE_RECURSIVE ->
   flag_test (fp_cfg_flags path) (FIB_PATH_CFG_FLAG_DROP K) = true ->
   fp_via_fib path = FIB_NODE_INDEX_INVALID /\
   fib_path_is_looped_i path = false).

(** Collaborators as in [Sample], with an entry loop detector that finds
    a loop below the entries 8 and above, and none below the others or
    below [FIB_NODE_INDEX_INVALID], which is no entry. *)
Definition ext_loop_below_8 : fib_ext :=
  {| vnet_sw_interface_is_admin_up := vnet_sw_interface_is_admin_up Sample.ext;
     vnet_sw_interface_is_p2p := vnet_sw_interface_is_p2p Sample.ext;
     vnet_sw_interface_compare := vnet_sw_interface_compare Sample.ext;
     fib_proto_to_dpo := fib_proto_to_dpo Sample.ext;
     fib_proto_to_link := fib_proto_to_link Sample.ext;
     adj_nbr_add_or_lock := adj_nbr_add_or_lock Sample.ext;
     adj_glean_add_or_lock := adj_glean_add_or_lock Sample.ext;
     adj_child_add := adj_child_add Sample.ext;
     fib_entry_child_add := fib_entry_child_add Sample.ext;
     fib_entry_contribute_forwarding := fib_entry_contribute_forwarding Sample.ext;
     fib_entry_get_best_source := fib_entry_get_best_source Sample.ext;
     fib_entry_get_flags := fib_entry_get_flags Sample.ext;
     fib_entry_get_prefix := fib_entry_get_prefix Sample.ext;
     fib_entry_recursive_loop_detect := fun fei _ =>
       (8 <=? fei) && negb (fei =? FIB_NODE_INDEX_INVALID);
     fib_table_entry_special_add := fib_table_entry_special_add Sample.ext;
     drop_dpo_get := drop_dpo_get Sample.ext;
     dpo_set := dpo_set Sample.ext;
     lookup_dpo_add_or_lock_w_fib_index := lookup_dpo_add_or_lock_w_fib_index Sample.ext;
     receive_dpo_add_or_lock := receive_dpo_add_or_lock Sample.ext;
     hash_memory := hash_memory Sample.ext |}.

(** ** Sample states at which the code leaves its own comments *)

Module Slips.

(** The pool of [Sample.st_special_attached] with its attached path, at
    index 1, resolved: the path is child 1 of its adjacency. *)
Definition st_attached_resolved_at_1 : fib_state :=
  state_after (fib_path_resolve Sample.defs Sample.ext 1)
              Sample.st_special_attached.

(** A pool whose path 0 is attached via interface 3, resolved. *)
Definition st_attached_resolved : fib_state :=
  state_after
    (fm_bind (fib_path_create Sample.defs 0 FIB_PROTOCOL_IP4 0 Sample.rp_attached)
       (fun path_index => fib_path_resolve Sample.defs Sample.ext path_index))
    Sample.st0.

End Slips.

(** * Properties *)

(** ** Flag words *)

Lemma flag_test_pow2 (f k : Z) : 0 <= k -> flag_test f (2 ^ k) = Z.testbit f k.
Proof.
  intros Hk. unfold flag_test.
  destruct (Z.testbit f k) eqn:E.
  - apply negb_true_iff, Z.eqb_neq. intros H0.
    assert (Hb : Z.testbit (Z.land f (2 ^ k)) k = true).
    { rewrite Z.land_spec, E, Z.pow2_bits_true by lia. reflexivity. }
    rewrite H0, Z.bits_0 in Hb. discriminate.
  - apply negb_false_iff, Z.eqb_eq. apply Z.bits_inj'. intros n Hn.
    rewrite Z.land_spec, Z.bits_0, Z.pow2_bits_eqb by lia.
    destruct (Z.eqb_spec k n) as [->|]; [rewrite E|]; auto using andb_false_r.
Qed.

Lemma oper_flag_bit (F : Z) :
  oper_flag F -> exists k, 0 <= k < 3 /\ F = 2 ^ k.
Proof.
  intros [-> | [-> | ->]]; [exists 0 | exists 1 | exists 2]; split; (lia || reflexivity).
Qed.

Lemma testbit_to_u8 (x k : Z) : 0 <= k < 8 -> Z.testbit (to_u8 x) k = Z.testbit x k.
Proof.
  intros Hk. unfold to_u8. rewrite Z.land_spec.
  change 255 with (Z.ones 8). rewrite Z.ones_spec_low by lia. apply andb_true_r.
Qed.

Lemma flag_test_oper_set (F G : Z) (path : fib_path_t) :
  oper_flag F -> oper_flag G ->
  flag_test (fp_oper_flags (oper_flags_set F path)) G =
  (F =? G) || flag_test (fp_oper_flags path) G.
Proof.
  intros HF HG.
  destruct (oper_flag_bit F HF) as (i & Hi & ->).
  destruct (oper_flag_bit G HG) as (j & Hj & ->).
  unfold oper_flags_set; simpl.
  rewrite !flag_test_pow2, testbit_to_u8, Z.lor_spec, Z.pow2_bits_eqb by lia.
  rewrite orb_comm. f_equal.
  assert (i = 0 \/ i = 1 \/ i = 2) as [-> | [-> | ->]] by lia;
    assert (j = 0 \/ j = 1 \/ j = 2) as [-> | [-> | ->]] by lia; reflexivity.
Qed.

Lemma flag_test_oper_clear (F G : Z) (path : fib_path_t) :
  oper_flag F -> oper_flag G ->
  flag_test (fp_oper_flags (oper_flags_clear F path)) G =
  negb (F =? G) && flag_test (fp_oper_flags path) G.
Proof.
  intros HF HG.
  destruct (oper_flag_bit F HF) as (i & Hi & ->).
  destruct (oper_flag_bit G HG) as (j & Hj & ->).
  unfold oper_flags_clear; simpl.
  rewrite !flag_test_pow2, testbit_to_u8, Z.land_spec, Z.lnot_spec,
    Z.pow2_bits_eqb by lia.
  rewrite andb_comm. f_equal.
  assert (i = 0 \/ i = 1 \/ i = 2) as [-> | [-> | ->]] by lia;
    assert (j = 0 \/ j = 1 \/ j = 2) as [-> | [-> | ->]] by lia; reflexivity.
Qed.

Lemma oper_flag_LOOP : oper_flag FIB_PATH_OPER_FLAG_RECURSIVE_LOOP.
Proof. left; reflexivity. Qed.
Lemma oper_flag_RESOLVED : oper_flag FIB_PATH_OPER_FLAG_RESOLVED.
Proof. right; left; reflexivity. Qed.
Lemma oper_flag_DROP : oper_flag FIB_PATH_OPER_FLAG_DROP.
Proof. right; right; reflexivity. Qed.

Create HintDb fib.
#[global] Hint Resolve oper_flag_LOOP oper_flag_RESOLVED oper_flag_DROP : fib.

(** ** The pool *)

Lemma pool_elt_store_eq (pool : pool_t) (i : nat) (path : fib_path_t) :
  pool_elt_at_index (pool_store pool i path) i = Some path.
Proof.
  unfold pool_elt_at_index. revert pool.
  induction i as [|i IH]; intros [|slot rest]; simpl; auto.
Qed.

Lemma pool_elt_store_neq (pool : pool_t) (i j : nat) (path : fib_path_t) :
  i <> j ->
  pool_elt_at_index (pool_store pool i path) j = pool_elt_at_index pool j.
Proof.
  unfold pool_elt_at_index. revert pool j.
  induction i as [|i IH]; intros [|slot rest] [|j] Hij; simpl; try congruence.
  - destruct j; reflexivity.
  - rewrite (IH [] j) by congruence. destruct j; reflexivity.
  - apply IH. congruence.
Qed.

Lemma pool_store_same (pool : pool_t) (i : nat) (path : fib_path_t) :
  pool_elt_at_index pool i = Some path -> pool_store pool i path = pool.
Proof.
  unfold pool_elt_at_index. revert pool.
  induction i as [|i IH]; intros [|slot rest]; simpl; try discriminate.
  - destruct slot; congruence.
  - intros H. f_equal. apply IH, H.
Qed.

Lemma pool_first_free_spec (pool : pool_t) (i : nat) :
  pool_first_free pool = Some i -> nth_error pool i = Some None.
Proof.
  revert i. induction pool as [|[p|] rest IH]; simpl; intros i H.
  - discriminate.
  - destruct (pool_first_free rest) as [k|]; [|discriminate].
    injection H as <-. simpl. apply IH. reflexivity.
  - injection H as <-. reflexivity.
Qed.

Lemma pool_get_index_free (pool : pool_t) :
  pool_elt_at_index pool (pool_get_index pool) = None.
Proof.
  unfold pool_elt_at_index, pool_get_index.
  destruct (pool_first_free pool) as [i|] eqn:E.
  - rewrite (pool_first_free_spec _ _ E). reflexivity.
  - assert (H : nth_error pool (length pool) = None)
      by (apply nth_error_None; apply Nat.le_refl).
    rewrite H. reflexivity.
Qed.

Lemma pool_get_index_fresh (pool : pool_t) (i : nat) (path : fib_path_t) :
  pool_elt_at_index pool i = Some path -> pool_get_index pool <> i.
Proof.
  intros H E. rewrite <- E, pool_get_index_free in H. discriminate.
Qed.

Lemma fib_state_eta (st : fib_state) :
  mk_fib_state (fib_path_pool st) (events st) = st.
Proof. destruct st; reflexivity. Qed.

(** ** Recursive-loop detection on a permanent drop *)

Lemma loop_detect_on_permanent_drop
    (K : fib_defs) (X : fib_ext) (st : fib_state) (path_index : nat)
    (path : fib_path_t) (entry_indicies : list Z) :
  fib_path_get st path_index = Some path ->
  fib_path_is_permanent_drop K path = true ->
  fib_path_recursive_loop_detect K X path_index entry_indicies st = Ok (false, st).
Proof.
  unfold fib_path_get, fib_path_recursive_loop_detect, with_path.
  intros Hget Hdrop. rewrite Hget.
  unfold fib_path_recursive_loop_detect_i, bind, get_path, ret. simpl.
  rewrite Hdrop. simpl.
  rewrite (pool_store_same _ _ _ Hget), fib_state_eta. reflexivity.
Qed.

(** C10: on a path that is a permanent drop (DROP cfg-flag or DROP
    oper-flag), [fib_path_recursive_loop_detect] returns 0 (not looped) at
    once and leaves the whole state as it was: the path's oper-flags and
    contributed DPO, the other paths and the event trace are untouched,
    whatever the path's type and the entries passed in. *)
Theorem loop_detect_permanent_drop_is_noop
    (K : fib_defs) (X : fib_ext) (st : fib_state) (path_index : nat)
    (path : fib_path_t) (entry_indicies : list Z) :
  fib_path_get st path_index = Some path ->
  fib_path_is_permanent_drop K path = true ->
  fib_path_recursive_loop_detect K X path_index entry_indicies st = Ok (false, st) /\
  fib_path_get st path_index = Some path.
Proof.
  intros Hget Hdrop. split; [|exact Hget].
  eapply loop_detect_on_permanent_drop; eassumption.
Qed.

Lemma loop_detect_permanent_drop_is_noop_witness :
  fib_path_recursive_loop_detect Sample.defs Sample.ext 0 [7]
    Sample.st_drop_recursive = Ok (false, Sample.st_drop_recursive) /\
  fib_path_get Sample.st_drop_recursive 0
    = Some (fib_path_create_i Sample.defs 0 FIB_PROTOCOL_IP4 1 Sample.rp_recursive).
Proof.
  apply (loop_detect_permanent_drop_is_noop Sample.defs Sample.ext
           Sample.st_drop_recursive 0
           (fib_path_create_i Sample.defs 0 FIB_PROTOCOL_IP4 1 Sample.rp_recursive)
           [7]); reflexivity.
Defined.

(** ** Comparison *)

(** C2 (the code at the failing input): with a special path at index 0 and
    an attached path at index 1, both of protocol IP4, [fib_path_cmp]
    returns 0 although the two paths differ in kind: the comparison of the
    kinds is overwritten by the per-kind comparison of the first path. *)
Theorem fib_path_cmp_zero_on_different_kinds :
  exists path1 path2,
    fib_path_get Sample.st_special_attached 0 = Some path1 /\
    fib_path_get Sample.st_special_attached 1 = Some path2 /\
    fp_type path1 = FIB_PATH_TYPE_SPECIAL /\
    fp_type path2 = FIB_PATH_TYPE_ATTACHED /\
    fp_nh_proto path1 = fp_nh_proto path2 /\
    fib_path_cmp Sample.ext Sample.st_special_attached 0 1 = Ok 0.
Proof.
  do 2 eexists. repeat split; reflexivity.
Qed.

(** ** Construction *)

Lemma ip46_eta (a : ip46_address_t) :
  mk_ip46 (as_u32_0 a) (as_u32_1 a) (as_u32_2 a) (as_u32_3 a) = a.
Proof. destruct a; reflexivity. Qed.

Lemma fib_path_create_stores (K : fib_defs) (pl_index : Z)
    (nh_proto : fib_protocol_t) (flags : Z) (rp : fib_route_path_t)
    (st : fib_state) :
  exists st',
    fib_path_create K pl_index nh_proto flags rp st
      = Ok (pool_get_index (fib_path_pool st), st') /\
    fib_path_get st' (pool_get_index (fib_path_pool st))
      = Some (fib_path_create_i K pl_index nh_proto flags rp) /\
    state_after (fib_path_create K pl_index nh_proto flags rp) st = st'.
Proof.
  unfold fib_path_create, pool_get_and_fill, state_after, fib_path_get.
  eexists. split; [reflexivity|]. split; [|reflexivity].
  simpl. apply pool_elt_store_eq.
Qed.

Lemma fib_path_create_i_shape (K : fib_defs) (pl_index : Z)
    (nh_proto : fib_protocol_t) (flags : Z) (rp : fib_route_path_t) :
  let path := fib_path_create_i K pl_index nh_proto flags rp in
  fp_nh_proto path = nh_proto /\
  fp_weight path = (if frp_weight rp =? 0 then 1 else frp_weight rp) /\
  fp_type path =
    SpecWords.created_kind (flag_test flags (FIB_PATH_CFG_FLAG_LOCAL K)) rp /\
  SpecWords.payload_from nh_proto rp path /\
  interface_of path = frp_sw_if_index rp.
Proof.
  unfold fib_path_create_i, SpecWords.created_kind, SpecWords.payload_from,
    SpecWords.interface_present, SpecWords.table_given, SpecWords.zero_address,
    interface_of.
  rewrite (Z.eqb_sym U32_MAX (frp_sw_if_index rp)),
          (Z.eqb_sym U32_MAX (frp_fib_index rp)).
  destruct (Z.eqb_spec (frp_sw_if_index rp) U32_MAX) as [Hif|Hif];
    destruct (flag_test flags (FIB_PATH_CFG_FLAG_LOCAL K));
    destruct (ip46_address_is_zero (frp_addr rp));
    destruct (frp_fib_index rp =? U32_MAX);
    destruct nh_proto; simpl;
    destruct (frp_weight rp); simpl;
    repeat split; auto; destruct (frp_addr rp); reflexivity.
Qed.

(** C3: [fib_path_create] returns the index of a new path whose kind is
    the one the construction rules give for the descriptor (Receive,
    Attached, AttachedNextHop, Special, Deag, Recursive, decided by the
    interface, the LOCAL flag, the address and the table), and whose
    per-kind payload fields are the descriptor's: interface and address,
    interface, interface and next-hop, nothing, table, and for Recursive
    the table with the address, or with the MPLS label when nh_proto is
    MPLS. *)
Theorem fib_path_create_kind_and_payload (K : fib_defs) (pl_index : Z)
    (nh_proto : fib_protocol_t) (flags : Z) (rp : fib_route_path_t)
    (st : fib_state) :
  exists path_index st' path,
    fib_path_create K pl_index nh_proto flags rp st = Ok (path_index, st') /\
    fib_path_get st' path_index = Some path /\
    fp_nh_proto path = nh_proto /\
    fp_type path =
      SpecWords.created_kind (flag_test flags (FIB_PATH_CFG_FLAG_LOCAL K)) rp /\
    SpecWords.payload_from nh_proto rp path.
Proof.
  destruct (fib_path_create_stores K pl_index nh_proto flags rp st)
    as (st' & Hrun & Hget & _).
  destruct (fib_path_create_i_shape K pl_index nh_proto flags rp)
    as (Hp & _ & Hk & Hpay & _).
  exists (pool_get_index (fib_path_pool st)), st',
         (fib_path_create_i K pl_index nh_proto flags rp).
  auto.
Qed.

(** ** Encoding what was created *)

(** The next-hop member of a Recursive MPLS path as [fib_path_create]
    leaves it: the descriptor's label in the leading word, zeros behind
    it. *)
Lemma fib_path_create_i_label (K : fib_defs) (pl_index : Z) (flags : Z)
    (rp : fib_route_path_t) :
  let path := fib_path_create_i K pl_index FIB_PROTOCOL_MPLS flags rp in
  fp_type path = FIB_PATH_TYPE_RECURSIVE ->
  recursive_fp_nh_fp_ip (fp_u path) = mk_ip46 (frp_local_label rp) 0 0 0.
Proof.
  unfold fib_path_create_i.
  destruct (U32_MAX =? frp_sw_if_index rp);
    destruct (flag_test flags (FIB_PATH_CFG_FLAG_LOCAL K));
    destruct (ip46_address_is_zero (frp_addr rp));
    destruct (U32_MAX =? frp_fib_index rp);
    destruct (frp_weight rp); simpl; intros Hty;
    try discriminate Hty; reflexivity.
Qed.

(** C7 (as amended): encoding the path that [fib_path_create] made from a
    descriptor yields a route-path whose weight is the descriptor's when
    that is not 0 and 1 when it is 0, whose protocol is the nh_proto the
    path was created with, whose interface is the descriptor's, whose
    address is the descriptor's when the kind is Receive or
    AttachedNextHop, or Recursive with an nh_proto other than MPLS, and
    which carries the descriptor's MPLS label when the kind is Recursive
    with nh_proto MPLS: the label comes back in the leading word of the
    address bytes, with zeros behind it. *)
Theorem fib_path_encode_create (K : fib_defs) (pl_index : Z)
    (nh_proto : fib_protocol_t) (flags : Z) (rp : fib_route_path_t)
    (st : fib_state) (api_rpaths : list fib_route_path_encode_t)
    (slot : fib_route_path_encode_t) :
  exists path_index st' path e,
    fib_path_create K pl_index nh_proto flags rp st = Ok (path_index, st') /\
    fib_path_get st' path_index = Some path /\
    fib_path_encode st' pl_index path_index api_rpaths slot
      = Ok (1, api_rpaths ++ [e]) /\
    frp_weight (rpath e) = (if frp_weight rp =? 0 then 1 else frp_weight rp) /\
    frp_proto (rpath e) = nh_proto /\
    frp_sw_if_index (rpath e) = frp_sw_if_index rp /\
    match fp_type path, nh_proto with
    | FIB_PATH_TYPE_RECEIVE, _
    | FIB_PATH_TYPE_ATTACHED_NEXT_HOP, _
    | FIB_PATH_TYPE_RECURSIVE, FIB_PROTOCOL_IP4
    | FIB_PATH_TYPE_RECURSIVE, FIB_PROTOCOL_IP6 => frp_addr (rpath e) = frp_addr rp
    | FIB_PATH_TYPE_RECURSIVE, FIB_PROTOCOL_MPLS =>
        encoded_local_label (rpath e) = frp_local_label rp /\
        frp_addr (rpath e) = mk_ip46 (frp_local_label rp) 0 0 0
    | _, _ => True
    end.
Proof.
  destruct (fib_path_create_stores K pl_index nh_proto flags rp st)
    as (st' & Hrun & Hget & _).
  destruct (fib_path_create_i_shape K pl_index nh_proto flags rp)
    as (Hp & Hw & _ & Hpay & Hif).
  assert (Hlabel : nh_proto = FIB_PROTOCOL_MPLS ->
            fp_type (fib_path_create_i K pl_index nh_proto flags rp)
              = FIB_PATH_TYPE_RECURSIVE ->
            recursive_fp_nh_fp_ip
              (fp_u (fib_path_create_i K pl_index nh_proto flags rp))
              = mk_ip46 (frp_local_label rp) 0 0 0).
  { intros ->. apply fib_path_create_i_label. }
  set (path := fib_path_create_i K pl_index nh_proto flags rp) in *.
  exists (pool_get_index (fib_path_pool st)), st', path,
         (fib_path_encode_i path slot).
  split; [exact Hrun|]. split; [exact Hget|].
  split; [unfold fib_path_encode; rewrite Hget; reflexivity|].
  rewrite <- Hw, <- Hif. clearbody path. clear Hrun Hget Hw Hif.
  unfold SpecWords.payload_from, interface_of, fib_path_encode_i,
    encoded_local_label in *.
  destruct (fp_type path); destruct nh_proto; simpl;
    try (specialize (Hlabel eq_refl eq_refl); rewrite Hlabel; simpl);
    intuition congruence.
Qed.

(** C7 fails as stated: a descriptor of weight 0 is encoded back with
    weight 1. *)
Lemma fib_path_encode_create_weight_counterexample :
  exists path_index st' e,
    fib_path_create Sample.defs 0 FIB_PROTOCOL_IP4 0 Sample.rp_weight_zero
      Sample.st0 = Ok (path_index, st') /\
    fib_path_encode st' 0 path_index [] Sample.slot = Ok (1, [e]) /\
    frp_weight (rpath e) <> frp_weight Sample.rp_weight_zero.
Proof.
  do 3 eexists. split; [reflexivity|]. split; [reflexivity|].
  simpl. discriminate.
Qed.

(** ** Copies *)

Lemma memcmp_refl (l : list Z) : memcmp l l = 0.
Proof. induction l as [|b t IH]; simpl; [|rewrite Z.eqb_refl]; auto. Qed.

Lemma ip46_address_cmp_refl (a : ip46_address_t) : ip46_address_cmp a a = 0.
Proof. apply memcmp_refl. Qed.

Lemma u32_sub_as_int_refl (a : Z) : u32_sub_as_int a a = 0.
Proof. unfold u32_sub_as_int. rewrite Z.sub_diag. reflexivity. Qed.

Lemma fib_path_type_eqb_refl (t : fib_path_type_t) : fib_path_type_eqb t t = true.
Proof. apply Z.eqb_refl. Qed.

Lemma fib_protocol_eqb_refl (p : fib_protocol_t) : fib_protocol_eqb p p = true.
Proof. apply Z.eqb_refl. Qed.

(** Two paths with the same type, protocol and union compare equal, as
    long as an interface compares equal to itself. *)
Lemma fib_path_cmp_i_same_config (X : fib_ext) (path1 path2 : fib_path_t) :
  (forall i, vnet_sw_interface_compare X i i = 0) ->
  fp_type path1 = fp_type path2 ->
  fp_nh_proto path1 = fp_nh_proto path2 ->
  fp_u path1 = fp_u path2 ->
  fib_path_cmp_i X path1 path2 = 0.
Proof.
  intros Hcmp Ht Hp Hu. unfold fib_path_cmp_i.
  rewrite Ht, Hp, Hu, fib_protocol_eqb_refl. simpl.
  destruct (fp_type path2);
    rewrite ?ip46_address_cmp_refl, ?u32_sub_as_int_refl, ?Hcmp; reflexivity.
Qed.

(** What [fib_path_copy] leaves in the new element, for every original:
    the configuration half is the original's, so the copy hashes to the
    same value and compares equal to it ([fib_path_cmp] returns 0, an
    interface comparing equal to itself); the node is initialised afresh,
    the owner is the path-list given, the oper-flags are empty, the
    via-entry invalid and the contributed DPO reset, so
    [fib_path_is_resolved] is false.  The sibling index is not reset: it
    is the original's. *)
Lemma fib_path_copy_hash_cmp_unresolved (K : fib_defs) (X : fib_ext)
    (st : fib_state) (path_index : nat) (path : fib_path_t)
    (path_list_index : Z) :
  fib_path_get st path_index = Some path ->
  (forall i, vnet_sw_interface_compare X i i = 0) ->
  exists new_index st' new_path,
    fib_path_copy path_index path_list_index st = Ok (new_index, st') /\
    fib_path_get st' path_index = Some path /\
    fib_path_get st' new_index = Some new_path /\
    fib_path_hash X st' new_index = fib_path_hash X st' path_index /\
    fib_path_cmp X st' new_index path_index = Ok 0 /\
    fib_path_is_resolved K st' new_index = Ok false /\
    new_path = mk_path (fib_node_init FIB_NODE_TYPE_PATH) path_list_index
                 (fp_cfg_flags path) (fp_type path) (fp_nh_proto path)
                 (fp_weight path) (fp_u path)
                 FIB_PATH_OPER_FLAG_NONE FIB_NODE_INDEX_INVALID DPO_INVALID
                 (fp_sibling path).
Proof.
  intros Hget Hcmp.
  exists (pool_get_index (fib_path_pool st)),
         (mk_fib_state (pool_store (fib_path_pool st)
                          (pool_get_index (fib_path_pool st))
                          (fib_path_copy_i path path_list_index))
                       (events st)),
         (fib_path_copy_i path path_list_index).
  assert (Hold : fib_path_get
                   (mk_fib_state (pool_store (fib_path_pool st)
                                    (pool_get_index (fib_path_pool st))
                                    (fib_path_copy_i path path_list_index))
                                 (events st)) path_index = Some path).
  { unfold fib_path_get in *. simpl.
    rewrite pool_elt_store_neq; [exact Hget|].
    eapply pool_get_index_fresh, Hget. }
  assert (Hnew : fib_path_get
                   (mk_fib_state (pool_store (fib_path_pool st)
                                    (pool_get_index (fib_path_pool st))
                                    (fib_path_copy_i path path_list_index))
                                 (events st)) (pool_get_index (fib_path_pool st))
                 = Some (fib_path_copy_i path path_list_index)).
  { unfold fib_path_get. simpl. apply pool_elt_store_eq. }
  split; [unfold fib_path_copy; rewrite Hget; reflexivity|].
  split; [exact Hold|]. split; [exact Hnew|].
  unfold fib_path_hash, fib_path_cmp, fib_path_is_resolved.
  rewrite Hold, Hnew.
  split; [reflexivity|].
  split; [f_equal; apply fib_path_cmp_i_same_config; auto|].
  split; reflexivity.
Qed.

(** C8 (the code at the failing input): path 1 of the pool is an attached
    path resolved at index 1, which made it child 1 of its adjacency.  Its
    copy hashes to the same value, compares equal to it and is unresolved,
    with empty oper-flags, no via-entry and the contributed DPO reset; but
    the copy's sibling index is the original's 1, where a new path has 0:
    [fib_path_copy] resets every member of the derived half except
    [fp_sibling]. *)
Theorem fib_path_copy_keeps_sibling :
  exists orig new_index st' new_path,
    fib_path_get Slips.st_attached_resolved_at_1 1 = Some orig /\
    fib_path_is_resolved Sample.defs Slips.st_attached_resolved_at_1 1 = Ok true /\
    fp_sibling orig = 1 /\
    fib_path_copy 1 9 Slips.st_attached_resolved_at_1 = Ok (new_index, st') /\
    fib_path_get st' new_index = Some new_path /\
    fib_path_hash Sample.ext st' new_index = fib_path_hash Sample.ext st' 1 /\
    fib_path_cmp Sample.ext st' new_index 1 = Ok 0 /\
    fib_path_is_resolved Sample.defs st' new_index = Ok false /\
    fp_oper_flags new_path = FIB_PATH_OPER_FLAG_NONE /\
    fp_via_fib new_path = FIB_NODE_INDEX_INVALID /\
    fp_dpo new_path = DPO_INVALID /\
    fp_sibling new_path = 1 /\
    fp_sibling (fib_path_create_i Sample.defs 9 FIB_PROTOCOL_IP4 0
                  Sample.rp_attached) = 0.
Proof.
  exists (Sample.path_at Slips.st_attached_resolved_at_1 1), 2%nat,
         (state_after (fib_path_copy 1 9) Slips.st_attached_resolved_at_1),
         (Sample.path_at
            (state_after (fib_path_copy 1 9) Slips.st_attached_resolved_at_1) 2).
  do 12 (split; [vm_compute; reflexivity|]). vm_compute. reflexivity.
Qed.

(** ** Flag words, in the form the code leaves them *)

Lemma flag_test_set_raw (f F G : Z) :
  oper_flag F -> oper_flag G ->
  flag_test (to_u8 (Z.lor f F)) G = (F =? G) || flag_test f G.
Proof.
  intros HF HG.
  apply (flag_test_oper_set F G
           (mk_path fib_node_zero 0 0 FIB_PATH_TYPE_SPECIAL FIB_PROTOCOL_IP4 0
                    union_zero f 0 DPO_INVALID 0) HF HG).
Qed.

Lemma flag_test_clear_raw (f F G : Z) :
  oper_flag F -> oper_flag G ->
  flag_test (to_u8 (Z.land f (Z.lnot F))) G = negb (F =? G) && flag_test f G.
Proof.
  intros HF HG.
  apply (flag_test_oper_clear F G
           (mk_path fib_node_zero 0 0 FIB_PATH_TYPE_SPECIAL FIB_PROTOCOL_IP4 0
                    union_zero f 0 DPO_INVALID 0) HF HG).
Qed.

#[global] Arguments to_u8 : simpl never.
#[global] Arguments flag_test : simpl never.

Ltac pm_run :=
  unfold bind, get_path, modify, ret, emit, dpo_copy_to_fp_dpo,
    dpo_reset_fp_dpo; simpl.

Ltac flags_norm :=
  repeat first [ rewrite flag_test_clear_raw by auto with fib
               | rewrite flag_test_set_raw by auto with fib ].

Ltac block_run :=
  unfold then_, when, stmt, fall_through, return_, ASSERT, reason_has;
  pm_run.

Ltac trace_norm := rewrite <- ?app_assoc; simpl.

Ltac split_if :=
  match goal with
  | |- context [if ?c then _ else _] => destruct c eqn:?
  end.

Ltac bool_norm := flags_norm; simpl; rewrite ?orb_true_r, ?orb_false_r; simpl.

(** ** The recursive DPO update *)

(** C4: on a Recursive path with the RESOLVE_HOST cfg-flag and without
    the RECURSIVE_LOOP oper-flag, [fib_path_recursive_adj_update] looks at
    the best source of the via-entry.  If it is at least RR, the DPO
    handed out is the drop DPO of the path's nh_proto, RESOLVED is clear
    afterwards and the load-balance maps are told of the path's state
    change; otherwise the via-entry's forwarding DPO is handed out,
    RESOLVED is set and nothing is signalled.  When the DPO written is the
    path's own, it holds the DPO handed out. *)
Theorem fib_path_recursive_adj_update_resolve_host (K : fib_defs) (X : fib_ext)
    (path_index : Z) (fct : fib_forward_chain_type_t) (dpo : dpo_ptr)
    (path : fib_path_t) (tr : list event) :
  fp_type path = FIB_PATH_TYPE_RECURSIVE ->
  flag_test (fp_cfg_flags path) (FIB_PATH_CFG_FLAG_RESOLVE_HOST K) = true ->
  flag_test (fp_oper_flags path) FIB_PATH_OPER_FLAG_RECURSIVE_LOOP = false ->
  exists out s',
    fib_path_recursive_adj_update K X path_index fct dpo (mk_pstate path tr)
      = Ok (out, s') /\
    (if fib_entry_get_best_source X (fp_via_fib path) >=? FIB_SOURCE_RR K
     then
       out = drop_dpo_get X (fib_proto_to_dpo X (fp_nh_proto path)) /\
       flag_test (fp_oper_flags (cur s')) FIB_PATH_OPER_FLAG_RESOLVED = false /\
       trace s' = tr ++ [Ev_load_balance_map_path_state_change path_index]
     else
       out = fib_entry_contribute_forwarding X (fp_via_fib path) fct /\
       flag_test (fp_oper_flags (cur s')) FIB_PATH_OPER_FLAG_RESOLVED = true /\
       trace s' = tr) /\
    fp_dpo (cur s') = match dpo with
                      | Ptr_path_fp_dpo => out
                      | Ptr_caller => fp_dpo path
                      end.
Proof.
  intros Ht Hhost Hloop.
  unfold fib_path_recursive_adj_update. pm_run.
  flags_norm. rewrite Hloop, Hhost. simpl.
  destruct (fib_entry_get_best_source X (fp_via_fib path) >=? FIB_SOURCE_RR K);
    destruct dpo; pm_run; do 2 eexists;
    (split; [reflexivity|]); simpl; flags_norm; auto.
Qed.

Lemma fib_path_recursive_adj_update_resolve_host_witness :
  exists out s',
    fib_path_recursive_adj_update Sample.defs Sample.ext 0
      FIB_FORW_CHAIN_TYPE_UNICAST_IP4 Ptr_path_fp_dpo
      (mk_pstate Sample.path_resolve_host []) = Ok (out, s') /\
    (out = Sample.drop_dpo 0 /\
     flag_test (fp_oper_flags (cur s')) FIB_PATH_OPER_FLAG_RESOLVED = false /\
     trace s' = [Ev_load_balance_map_path_state_change 0]) /\
    fp_dpo (cur s') = out.
Proof.
  apply (fib_path_recursive_adj_update_resolve_host Sample.defs Sample.ext 0
           FIB_FORW_CHAIN_TYPE_UNICAST_IP4 Ptr_path_fp_dpo
           Sample.path_resolve_host []); reflexivity.
Defined.

(** ** Recursive-loop detection *)

Lemma existsb_eqb_In (v : Z) (l : list Z) :
  existsb (fun e => e =? v) l = true <-> In v l.
Proof.
  rewrite existsb_exists. split.
  - intros (x & Hin & Heq). apply Z.eqb_eq in Heq. congruence.
  - intros Hin. exists v. split; [exact Hin | apply Z.eqb_refl].
Qed.

Lemma with_path_run {A} (st : fib_state) (path_index : nat) (path : fib_path_t)
    (body : PM A) (a : A) (s : pstate) :
  fib_path_get st path_index = Some path ->
  body (mk_pstate path (events st)) = Ok (a, s) ->
  with_path path_index body st =
    Ok (a, mk_fib_state (pool_store (fib_path_pool st) path_index (cur s)) (trace s)) /\
  fib_path_get
    (mk_fib_state (pool_store (fib_path_pool st) path_index (cur s)) (trace s))
    path_index = Some (cur s).
Proof.
  unfold with_path, fib_path_get. intros Hget Hbody.
  rewrite Hget, Hbody. split; [reflexivity|]. simpl. apply pool_elt_store_eq.
Qed.

(** On a path that is not a permanent drop,
    [fib_path_recursive_loop_detect] emits no event and returns the
    RECURSIVE_LOOP flag it leaves on the path.  If the path is Recursive
    and its via-entry is among the entries visited, it sets RECURSIVE_LOOP
    and stacks the drop DPO of the path's nh_proto; if the path is
    Recursive and its via-entry is not among them, it asks the via-entry's
    loop detector and sets or clears RECURSIVE_LOOP by the answer; for
    every other kind it changes nothing and returns the flag as it
    stands. *)
Lemma loop_detect_unless_permanent_drop (K : fib_defs) (X : fib_ext)
    (st : fib_state) (path_index : nat) (path : fib_path_t)
    (entry_indicies : list Z) :
  fib_path_get st path_index = Some path ->
  fib_path_is_permanent_drop K path = false ->
  exists looped st' path',
    fib_path_recursive_loop_detect K X path_index entry_indicies st
      = Ok (looped, st') /\
    fib_path_get st' path_index = Some path' /\
    events st' = events st /\
    looped = fib_path_is_looped_i path' /\
    (fp_type path = FIB_PATH_TYPE_RECURSIVE ->
     In (fp_via_fib path) entry_indicies ->
     looped = true /\
     path' = set_fp_dpo (drop_dpo_get X (fib_proto_to_dpo X (fp_nh_proto path)))
               (oper_flags_set FIB_PATH_OPER_FLAG_RECURSIVE_LOOP path)) /\
    (fp_type path = FIB_PATH_TYPE_RECURSIVE ->
     ~ In (fp_via_fib path) entry_indicies ->
     looped = fib_entry_recursive_loop_detect X (fp_via_fib path) entry_indicies /\
     path' = if looped
             then oper_flags_set FIB_PATH_OPER_FLAG_RECURSIVE_LOOP path
             else oper_flags_clear FIB_PATH_OPER_FLAG_RECURSIVE_LOOP path) /\
    (fp_type path <> FIB_PATH_TYPE_RECURSIVE ->
     st' = st /\ looped = fib_path_is_looped_i path /\
     (fib_path_is_looped_i path = false -> looped = false)).
Proof.
  intros Hget Hdrop.
  assert (Hbody : exists looped s,
    fib_path_recursive_loop_detect_i K X entry_indicies (mk_pstate path (events st))
      = Ok (looped, s) /\
    trace s = events st /\
    looped = fib_path_is_looped_i (cur s) /\
    (fp_type path = FIB_PATH_TYPE_RECURSIVE ->
     In (fp_via_fib path) entry_indicies ->
     looped = true /\
     cur s = set_fp_dpo (drop_dpo_get X (fib_proto_to_dpo X (fp_nh_proto path)))
               (oper_flags_set FIB_PATH_OPER_FLAG_RECURSIVE_LOOP path)) /\
    (fp_type path = FIB_PATH_TYPE_RECURSIVE ->
     ~ In (fp_via_fib path) entry_indicies ->
     looped = fib_entry_recursive_loop_detect X (fp_via_fib path) entry_indicies /\
     cur s = if looped
             then oper_flags_set FIB_PATH_OPER_FLAG_RECURSIVE_LOOP path
             else oper_flags_clear FIB_PATH_OPER_FLAG_RECURSIVE_LOOP path) /\
    (fp_type path <> FIB_PATH_TYPE_RECURSIVE ->
     cur s = path /\ looped = fib_path_is_looped_i path)).
  { unfold fib_path_recursive_loop_detect_i. pm_run. rewrite Hdrop.
    destruct (fp_type path) eqn:Ht; simpl;
      try (do 2 eexists; split; [reflexivity|]; simpl;
           repeat split; auto; congruence).
    destruct (existsb (fun e => e =? fp_via_fib path) entry_indicies) eqn:Hex.
    - apply existsb_eqb_In in Hex. pm_run. do 2 eexists.
      split; [reflexivity|]. simpl. unfold fib_path_is_looped_i. simpl.
      flags_norm. repeat split; auto; try congruence; intros; contradiction.
    - assert (Hn : ~ In (fp_via_fib path) entry_indicies).
      { intros Hin. apply existsb_eqb_In in Hin. congruence. }
      destruct (fib_entry_recursive_loop_detect X (fp_via_fib path) entry_indicies);
        pm_run; do 2 eexists; (split; [reflexivity|]); simpl;
        unfold fib_path_is_looped_i; simpl; flags_norm;
        repeat split; auto; try congruence; intros; contradiction. }
  destruct Hbody as (looped & s & Hrun & Htr & Hl & H1 & H2 & H3).
  destruct (with_path_run st path_index path _ looped s Hget Hrun) as [Hw Hg].
  exists looped, (mk_fib_state (pool_store (fib_path_pool st) path_index (cur s))
                               (trace s)), (cur s).
  split; [exact Hw|]. split; [exact Hg|]. split; [exact Htr|].
  split; [exact Hl|]. split; [exact H1|]. split; [exact H2|].
  intros Hne. destruct (H3 Hne) as [Hc Hlp]. rewrite Hc, Htr.
  rewrite (pool_store_same _ _ _ Hget), fib_state_eta.
  repeat split; auto. congruence.
Qed.

(** The flag is clear on every path of another kind that the code
    builds: a new path and a copy have no oper-flag, and no operation
    sets RECURSIVE_LOOP on a path that is not recursive. *)
Lemma new_paths_not_looped (K : fib_defs) (pl_index : Z)
    (nh_proto : fib_protocol_t) (flags : Z) (rp : fib_route_path_t)
    (d : dpo_id_t) (orig : fib_path_t) :
  fib_path_is_looped_i (fib_path_create_i K pl_index nh_proto flags rp) = false /\
  fib_path_is_looped_i (fib_path_create_special_i K pl_index nh_proto flags d)
    = false /\
  fib_path_is_looped_i (fib_path_copy_i orig pl_index) = false.
Proof.
  unfold fib_path_is_looped_i, fib_path_create_i, fib_path_create_special_i,
    fib_path_copy_i.
  repeat split; repeat split_if; reflexivity.
Qed.

Lemma run_op_looped_only_if_recursive (K : fib_defs) (path_index : Z)
    (op : path_op) (s : pstate) :
  looped_only_if_recursive (cur s) ->
  match run_op K path_index op s with
  | Ok (_, s') => looped_only_if_recursive (cur s')
  | _ => True
  end.
Proof.
  destruct s as [path tr].
  destruct path as [nd pl cfg ty proto w u oper via d sib].
  unfold looped_only_if_recursive, fib_path_is_looped_i. simpl. intros Hinv.
  destruct op as [X ctx | X | X entry_indicies]; unfold run_op.
  - unfold fib_path_back_walk_notify, back_walk_recursive,
      back_walk_attached_next_hop, back_walk_attached,
      fib_path_recursive_adj_update, fib_path_attached_next_hop_get_adj,
      fib_path_unresolve, fib_path_is_permanent_drop.
    destruct ty; block_run;
      repeat (split_if; block_run); bool_norm; auto.
  - unfold fib_path_resolve_i, fib_path_attached_next_hop_set,
      fib_path_recursive_adj_update, fib_path_attached_next_hop_get_adj,
      fib_path_is_permanent_drop.
    destruct ty; block_run;
      repeat (split_if; block_run); bool_norm; auto.
  - unfold fib_path_recursive_loop_detect_i, fib_path_is_permanent_drop.
    destruct ty; block_run;
      repeat (split_if; block_run); bool_norm; auto.
Qed.

(** ** What holds of every path the code builds *)

Lemma to_u8_range (x : Z) : 0 <= to_u8 x < 256.
Proof.
  unfold to_u8. change 255 with (Z.ones 8). rewrite Z.land_ones by lia.
  apply Z.mod_pos_bound. reflexivity.
Qed.

Lemma testbit_u8_high (f i : Z) : 0 <= f < 256 -> 8 <= i -> Z.testbit f i = false.
Proof.
  intros Hf Hi.
  destruct (Z.eq_dec f 0) as [->|Hne]; [apply Z.bits_0|].
  apply Z.bits_above_log2; [lia|].
  assert (Z.log2 f < 8) by (apply Z.log2_lt_pow2; lia). lia.
Qed.

(** Clearing an oper-flag that is clear changes nothing. *)
Lemma oper_flags_clear_clear (F : Z) (path : fib_path_t) :
  oper_flag F ->
  0 <= fp_oper_flags path < 256 ->
  flag_test (fp_oper_flags path) F = false ->
  oper_flags_clear F path = path.
Proof.
  intros HF Hr Hc.
  destruct (oper_flag_bit F HF) as (k & Hk & ->).
  rewrite flag_test_pow2 in Hc by lia.
  destruct path as [nd pl cfg ty proto w u oper via d0 sib].
  unfold oper_flags_clear, set_fp_oper_flags. simpl in *. f_equal.
  apply Z.bits_inj'. intros i Hi.
  unfold to_u8. rewrite !Z.land_spec, Z.lnot_spec, Z.pow2_bits_eqb by lia.
  change 255 with (Z.ones 8). rewrite Z.testbit_ones_nonneg by lia.
  destruct (Z.eqb_spec k i) as [->|Hne]; simpl.
  - rewrite Hc. reflexivity.
  - rewrite andb_true_r. destruct (Z.ltb_spec i 8); simpl.
    + apply andb_true_r.
    + rewrite andb_false_r. symmetry. apply testbit_u8_high; lia.
Qed.

Lemma new_path_built_inv (K : fib_defs) (path : fib_path_t) :
  new_path K path -> built_path_inv K path.
Proof.
  intros [pl_index nh_proto flags rpath | pl_index nh_proto flags dpo
         | orig_path path_list_index];
    unfold built_path_inv, looped_only_if_recursive, fib_path_is_looped_i,
      has_oper_drop, via_interface, fib_path_create_i,
      fib_path_create_special_i, fib_path_copy_i;
    repeat split_if; simpl;
    (split; [unfold FIB_PATH_OPER_FLAG_NONE; lia|]);
    (split; [intros; discriminate|]);
    (split; [intros; discriminate|]);
    intros; split; reflexivity.
Qed.

Ltac built_inv_done :=
  repeat match goal with
         | H : _ || _ = false |- _ => apply orb_false_elim in H; destruct H
         end;
  bool_norm;
  (split; [first [apply to_u8_range | assumption]|]);
  (split; [solve [auto | intros; discriminate | intros; reflexivity]|]);
  (split; [solve [auto | intros; discriminate | intros; reflexivity]|]);
  solve [auto | intros; discriminate | intros; congruence].

Lemma run_op_built_inv (K : fib_defs) (path_index : Z) (op : path_op)
    (s : pstate) :
  built_path_inv K (cur s) ->
  match run_op K path_index op s with
  | Ok (_, s') => built_path_inv K (cur s')
  | _ => True
  end.
Proof.
  destruct s as [path tr].
  destruct path as [nd pl cfg ty proto w u oper via d sib].
  unfold built_path_inv, looped_only_if_recursive, fib_path_is_looped_i,
    has_oper_drop, via_interface. simpl.
  intros (Hr & Hl & Hd & Hrec).
  destruct op as [X ctx | X | X entry_indicies]; unfold run_op.
  - unfold fib_path_back_walk_notify, back_walk_recursive,
      back_walk_attached_next_hop, back_walk_attached,
      fib_path_recursive_adj_update, fib_path_attached_next_hop_get_adj,
      fib_path_unresolve, fib_path_is_permanent_drop.
    destruct ty; block_run;
      repeat (split_if; block_run); first [exact I | built_inv_done].
  - unfold fib_path_resolve_i, fib_path_attached_next_hop_set,
      fib_path_recursive_adj_update, fib_path_attached_next_hop_get_adj,
      fib_path_is_permanent_drop.
    destruct ty; block_run;
      repeat (split_if; block_run); first [exact I | built_inv_done].
  - unfold fib_path_recursive_loop_detect_i, fib_path_is_permanent_drop.
    destruct ty; block_run;
      repeat (split_if; block_run); first [exact I | built_inv_done].
Qed.

Lemma run_ops_built_inv (K : fib_defs) (path_index : Z) (ops : list path_op)
    (s : pstate) :
  built_path_inv K (cur s) ->
  match run_ops K path_index ops s with
  | Ok (_, s') => built_path_inv K (cur s')
  | _ => True
  end.
Proof.
  revert s. induction ops as [|op rest IH]; intros s Hinv; simpl.
  - exact Hinv.
  - pose proof (run_op_built_inv K path_index op s Hinv) as H.
    unfold bind. destruct (run_op K path_index op s) as [[[] s1] | | ];
      [apply IH; exact H | exact I | exact I].
Qed.

(** C5: on every path the code builds (made by [fib_path_create],
    [fib_path_create_special] or [fib_path_copy] and taken through any
    sequence of back-walks, resolves and loop detections) and for every
    sequence of visited entry indices, [fib_path_recursive_loop_detect]
    emits no event and behaves as follows.  If the path is Recursive and
    its via-entry is among the entries visited, it sets RECURSIVE_LOOP,
    stacks the drop DPO of the path's nh_proto and reports looped; if the
    path is Recursive and its via-entry is not among them, it reports
    what the via-entry's loop detector answers and sets or clears
    RECURSIVE_LOOP by that answer; for every other kind it changes
    nothing and reports not looped.  The visited indices are indices of
    entries: [FIB_NODE_INDEX_INVALID] is not among them and no loop is
    found below it. *)
Theorem fib_path_recursive_loop_detect_cases (K : fib_defs) (X : fib_ext)
    (path0 : fib_path_t) (tr0 : list event) (owner_index : Z)
    (ops : list path_op) (s : pstate)
    (st : fib_state) (path_index : nat) (entry_indicies : list Z) :
  new_path K path0 ->
  run_ops K owner_index ops (mk_pstate path0 tr0) = Ok (tt, s) ->
  fib_path_get st path_index = Some (cur s) ->
  ~ In FIB_NODE_INDEX_INVALID entry_indicies ->
  fib_entry_recursive_loop_detect X FIB_NODE_INDEX_INVALID entry_indicies = false ->
  let path := cur s in
  exists looped st' path',
    fib_path_recursive_loop_detect K X path_index entry_indicies st
      = Ok (looped, st') /\
    fib_path_get st' path_index = Some path' /\
    events st' = events st /\
    looped = fib_path_is_looped_i path' /\
    (fp_type path = FIB_PATH_TYPE_RECURSIVE ->
     In (fp_via_fib path) entry_indicies ->
     looped = true /\
     path' = set_fp_dpo (drop_dpo_get X (fib_proto_to_dpo X (fp_nh_proto path)))
               (oper_flags_set FIB_PATH_OPER_FLAG_RECURSIVE_LOOP path)) /\
    (fp_type path = FIB_PATH_TYPE_RECURSIVE ->
     ~ In (fp_via_fib path) entry_indicies ->
     looped = fib_entry_recursive_loop_detect X (fp_via_fib path) entry_indicies /\
     path' = if looped
             then oper_flags_set FIB_PATH_OPER_FLAG_RECURSIVE_LOOP path
             else oper_flags_clear FIB_PATH_OPER_FLAG_RECURSIVE_LOOP path) /\
    (fp_type path <> FIB_PATH_TYPE_RECURSIVE ->
     st' = st /\ looped = false /\ path' = path).
Proof.
  intros Hnew Hrun Hget Hvalid Hnone path.
  assert (Hinv : built_path_inv K path).
  { pose proof (run_ops_built_inv K owner_index ops (mk_pstate path0 tr0)
                  (new_path_built_inv K path0 Hnew)) as H.
    rewrite Hrun in H. exact H. }
  fold path in Hget. clearbody path. clear Hrun Hnew.
  destruct Hinv as (Hrange & Hloop & Hoper & Hrec).
  destruct (fib_path_is_permanent_drop K path) eqn:Hdrop.
  - (* the guard: nothing happens; on a built path that is what the
       cases ask for *)
    exists false, st, path.
    split; [eapply loop_detect_on_permanent_drop; eassumption|].
    split; [exact Hget|]. split; [reflexivity|].
    assert (Hkind : fp_type path = FIB_PATH_TYPE_RECURSIVE ->
                    fp_via_fib path = FIB_NODE_INDEX_INVALID /\
                    fib_path_is_looped_i path = false).
    { intros Hty. apply Hrec; [exact Hty|].
      unfold fib_path_is_permanent_drop in Hdrop.
      apply orb_true_iff in Hdrop as [Hc | Ho]; [exact Hc|].
      apply Hoper in Ho. unfold via_interface in Ho. rewrite Hty in Ho.
      discriminate. }
    assert (Hnl : fib_path_is_looped_i path = false).
    { destruct (fib_path_is_looped_i path) eqn:E; [|reflexivity].
      destruct (Hkind (Hloop E)) as [_ H]. congruence. }
    split; [symmetry; exact Hnl|].
    split; [|split].
    + intros Hty Hin. destruct (Hkind Hty) as [Hvia _].
      rewrite Hvia in Hin. contradiction.
    + intros Hty _. destruct (Hkind Hty) as [Hvia _].
      rewrite Hvia, Hnone. split; [reflexivity|].
      symmetry. apply oper_flags_clear_clear; auto with fib.
    + intros _. auto.
  - destruct (loop_detect_unless_permanent_drop K X st path_index path
                entry_indicies Hget Hdrop)
      as (looped & st' & path' & Hr & Hg & He & Hl & H1 & H2 & H3).
    exists looped, st', path'.
    split; [exact Hr|]. split; [exact Hg|]. split; [exact He|].
    split; [exact Hl|]. split; [exact H1|]. split; [exact H2|].
    intros Hne. destruct (H3 Hne) as (Hst & Hlp & _).
    split; [exact Hst|].
    assert (Hnl : fib_path_is_looped_i path = false).
    { destruct (fib_path_is_looped_i path) eqn:E; [|reflexivity].
      elim Hne. exact (Hloop E). }
    split; [congruence|].
    subst st'. rewrite Hget in Hg. congruence.
Qed.

Lemma fib_path_recursive_loop_detect_cases_witness :
  exists st',
    fib_path_recursive_loop_detect Sample.defs ext_loop_below_8 0 [7]
      Sample.st_recursive_resolved = Ok (true, st') /\
    events st' = events Sample.st_recursive_resolved.
Proof.
  destruct (fib_path_recursive_loop_detect_cases Sample.defs ext_loop_below_8
              (fib_path_create_i Sample.defs 0 FIB_PROTOCOL_IP4 0
                 Sample.rp_recursive)
              [] 0 [Op_resolve Sample.ext]
              (mk_pstate Sample.path_recursive_resolved
                 (events Sample.st_recursive_resolved))
              Sample.st_recursive_resolved 0 [7])
    as (looped & st' & path' & Hrun & _ & Hev & _ & Hin & _).
  - apply new_path_create.
  - vm_compute. reflexivity.
  - vm_compute. reflexivity.
  - vm_compute. intros [H|[]]. discriminate H.
  - vm_compute. reflexivity.
  - exists st'. destruct Hin as [Hl _].
    + vm_compute. reflexivity.
    + vm_compute. left. reflexivity.
    + rewrite <- Hl. split; [exact Hrun | exact Hev].
Defined.

(** ** Permanent drops *)

Lemma permanent_drop_oper_flags_set (K : fib_defs) (F : Z) (path : fib_path_t) :
  oper_flag F ->
  fib_path_is_permanent_drop K path = true ->
  fib_path_is_permanent_drop K (oper_flags_set F path) = true.
Proof.
  unfold fib_path_is_permanent_drop. intros HF H. simpl. flags_norm.
  apply orb_true_iff in H as [H | H]; rewrite H;
    [reflexivity | rewrite !orb_true_r; reflexivity].
Qed.

Lemma permanent_drop_is_unresolved (K : fib_defs) (path : fib_path_t) :
  fib_path_is_permanent_drop K path = true ->
  fib_path_is_resolved_i K path = false.
Proof.
  unfold fib_path_is_resolved_i. intros ->. apply andb_false_r.
Qed.

Lemma permanent_drop_resolved_as_drop (K : fib_defs) (X : fib_ext)
    (path : fib_path_t) :
  fib_path_is_permanent_drop K path = true ->
  fib_path_is_permanent_drop K (resolved_as_drop X path) = true.
Proof.
  unfold fib_path_is_permanent_drop, resolved_as_drop. simpl. flags_norm.
  simpl. auto.
Qed.

Lemma fib_path_resolve_i_on_permanent_drop (K : fib_defs) (X : fib_ext)
    (path_index : Z) (path : fib_path_t) (tr : list event) :
  fib_path_is_permanent_drop K path = true ->
  fib_path_resolve_i K X path_index (mk_pstate path tr)
    = Ok (false, mk_pstate (resolved_as_drop X path) tr).
Proof.
  intros Hdrop. unfold fib_path_resolve_i. pm_run.
  rewrite (permanent_drop_oper_flags_set K _ path oper_flag_RESOLVED Hdrop).
  pm_run. fold (resolved_as_drop X path).
  rewrite (permanent_drop_is_unresolved K _
             (permanent_drop_resolved_as_drop K X path Hdrop)).
  reflexivity.
Qed.

Lemma fib_path_recursive_loop_detect_i_on_permanent_drop (K : fib_defs)
    (X : fib_ext) (entry_indicies : list Z) (s : pstate) :
  fib_path_is_permanent_drop K (cur s) = true ->
  fib_path_recursive_loop_detect_i K X entry_indicies s = Ok (false, s).
Proof.
  intros Hdrop. unfold fib_path_recursive_loop_detect_i. pm_run.
  rewrite Hdrop. reflexivity.
Qed.




(** ** The back-walk handler *)

Lemma fib_path_back_walk_notify_outcome (K : fib_defs) (X : fib_ext)
    (path_index : Z) (ctx : fib_node_back_walk_ctx_t)
    (path : fib_path_t) (tr : list event) :
  match fib_path_back_walk_notify K X path_index ctx (mk_pstate path tr) with
  | Ok (rc, s') =>
      rc = FIB_NODE_BACK_WALK_CONTINUE /\
      (CLIB_ASSERT_ENABLE K = false \/ has_no_parent (fp_type path) = false) /\
      fp_pl_index (cur s') = fp_pl_index path /\
      exists evs, trace s' = tr ++ evs /\
                  (propagated (fp_pl_index path) ctx evs \/ not_propagated evs)
  | AssertFailed =>
      CLIB_ASSERT_ENABLE K = true /\ has_no_parent (fp_type path) = true
  | InvalidIndex => False
  end.
Proof.
  unfold fib_path_back_walk_notify, back_walk_recursive,
    back_walk_attached_next_hop, back_walk_attached,
    fib_path_recursive_adj_update, fib_path_attached_next_hop_get_adj,
    fib_path_unresolve, fib_path_is_permanent_drop.
  block_run.
  destruct path as [nd pl cfg ty proto w u oper via d sib].
  destruct (CLIB_ASSERT_ENABLE K);
  destruct ty; block_run;
    repeat (split_if; block_run);
    try (split; [reflexivity|]);
    try (split; [auto|]);
    try (split; [reflexivity|]);
    try (trace_norm;
         first [ exists []; split; [symmetry; apply app_nil_r|]
               | eexists; split; [reflexivity|] ];
         unfold propagated, not_propagated;
         first [ right; reflexivity | left; split; reflexivity ]);
    auto.
Qed.

(** C9: whatever the kind of the path and the reasons of the walk,
    [fib_path_back_walk_notify] hands FIB_NODE_BACK_WALK_CONTINUE to its
    caller whenever it returns, and it returns unless the image asserts
    and the kind has no parent (the [ASSERT(0)] of those kinds).  A walk
    that stops at the path differs from one that goes on only in the
    events: either [fib_path_list_back_walk] is the last call made, once,
    with the owning path-list and the unchanged context, or it is not
    called at all. *)
Theorem fib_path_back_walk_notify_always_continue (K : fib_defs) (X : fib_ext)
    (path_index : Z) (ctx : fib_node_back_walk_ctx_t)
    (path : fib_path_t) (tr : list event) :
  if CLIB_ASSERT_ENABLE K && has_no_parent (fp_type path)
  then fib_path_back_walk_notify K X path_index ctx (mk_pstate path tr)
       = AssertFailed
  else exists s' evs,
      fib_path_back_walk_notify K X path_index ctx (mk_pstate path tr)
        = Ok (FIB_NODE_BACK_WALK_CONTINUE, s') /\
      trace s' = tr ++ evs /\
      (propagated (fp_pl_index path) ctx evs \/ not_propagated evs).
Proof.
  pose proof (fib_path_back_walk_notify_outcome K X path_index ctx path tr) as H.
  destruct (fib_path_back_walk_notify K X path_index ctx (mk_pstate path tr))
    as [[rc s'] | | ].
  - destruct H as (-> & Hok & _ & evs & Htr & Hp).
    destruct Hok as [-> | ->]; rewrite ?andb_false_r; simpl; eauto.
  - destruct H as [-> ->]. reflexivity.
  - contradiction.
Qed.

(** Both outcomes occur.  On a resolved recursive path a walk with
    reason ADJ_UPDATE stops at the path, and a walk with reason EVALUATE
    goes on to the path-list; both return CONTINUE. *)
Example back_walk_recursive_adj_update_stops :
  exists s',
    fib_path_back_walk_notify Sample.defs Sample.ext 0
      (mk_bw_ctx (FIB_NODE_BW_REASON_FLAG_ADJ_UPDATE Sample.defs))
      (mk_pstate Sample.path_recursive_resolved [])
      = Ok (FIB_NODE_BACK_WALK_CONTINUE, s') /\
    not_propagated (trace s').
Proof. eexists. split; vm_compute; reflexivity. Qed.

Example back_walk_recursive_evaluate_propagates :
  exists s',
    fib_path_back_walk_notify Sample.defs Sample.ext 0
      (mk_bw_ctx (FIB_NODE_BW_REASON_FLAG_EVALUATE Sample.defs))
      (mk_pstate Sample.path_recursive_resolved [])
      = Ok (FIB_NODE_BACK_WALK_CONTINUE, s') /\
    propagated 0 (mk_bw_ctx (FIB_NODE_BW_REASON_FLAG_EVALUATE Sample.defs))
               (trace s').
Proof. eexists. split; [vm_compute; reflexivity|]. split; vm_compute; reflexivity. Qed.

(** ** Deletion of the interface *)

Lemma has_oper_drop_permanent (K : fib_defs) (path : fib_path_t) :
  has_oper_drop path = true -> fib_path_is_permanent_drop K path = true.
Proof.
  unfold has_oper_drop, fib_path_is_permanent_drop. intros ->. apply orb_true_r.
Qed.

Ltac drop_norm Hd :=
  flags_norm; simpl; rewrite ?Hd, ?orb_true_r; simpl.

(** No back-walk takes the DROP oper-flag away from a path through an
    interface, and none fails on it. *)
Lemma back_walk_keeps_oper_drop (K : fib_defs) (X : fib_ext) (path_index : Z)
    (ctx : fib_node_back_walk_ctx_t) (s : pstate) :
  via_interface (cur s) = true ->
  has_oper_drop (cur s) = true ->
  match fib_path_back_walk_notify K X path_index ctx s with
  | Ok (rc, s') =>
      rc = FIB_NODE_BACK_WALK_CONTINUE /\
      via_interface (cur s') = true /\
      has_oper_drop (cur s') = true
  | _ => False
  end.
Proof.
  destruct s as [path tr].
  destruct path as [nd pl cfg ty proto w u oper via d sib].
  unfold via_interface, has_oper_drop. simpl. intros Hty Hd.
  unfold fib_path_back_walk_notify, back_walk_recursive,
    back_walk_attached_next_hop, back_walk_attached,
    fib_path_attached_next_hop_get_adj,
    fib_path_unresolve, fib_path_is_permanent_drop.
  destruct ty; try discriminate Hty; block_run; drop_norm Hd;
    repeat (split_if; block_run; drop_norm Hd); drop_norm Hd; auto.
Qed.

(** The INTERFACE_DELETE branch: reached on an attached path whatever
    else the walk carries, and on an attached next-hop path unless the
    handler returns at the INTERFACE_UP or INTERFACE_DOWN test. *)
Lemma back_walk_interface_delete (K : fib_defs) (X : fib_ext) (path_index : Z)
    (ctx : fib_node_back_walk_ctx_t) (path : fib_path_t) (tr : list event) :
  fp_type path = FIB_PATH_TYPE_ATTACHED \/
  (fp_type path = FIB_PATH_TYPE_ATTACHED_NEXT_HOP /\
   returns_before_delete K ctx path = false) ->
  reason_has ctx (FIB_NODE_BW_REASON_FLAG_INTERFACE_DELETE K) = true ->
  match fib_path_back_walk_notify K X path_index ctx (mk_pstate path tr) with
  | Ok (rc, s') =>
      rc = FIB_NODE_BACK_WALK_CONTINUE /\
      via_interface (cur s') = true /\
      has_oper_drop (cur s') = true /\
      (fib_path_is_permanent_drop K path = false ->
       In (Ev_adj_child_remove (dpoi_index (fp_dpo path)) (fp_sibling path))
          (trace s') /\
       In (Ev_adj_unlock (dpoi_index (fp_dpo path))) (trace s') /\
       (reason_has ctx (FIB_NODE_BW_REASON_FLAG_ADJ_UPDATE K) = false ->
        fp_dpo (cur s') = DPO_INVALID /\
        flag_test (fp_oper_flags (cur s')) FIB_PATH_OPER_FLAG_RESOLVED = false))
  | _ => False
  end.
Proof.
  destruct path as [nd pl cfg ty proto w u oper via d sib].
  unfold via_interface, has_oper_drop, returns_before_delete, reason_has.
  simpl. intros Hty Hdel.
  unfold fib_path_back_walk_notify, back_walk_recursive,
    back_walk_attached_next_hop, back_walk_attached,
    fib_path_attached_next_hop_get_adj,
    fib_path_unresolve, fib_path_is_permanent_drop.
  destruct Hty as [-> | (-> & Hearly)].
  - block_run; rewrite ?Hdel; block_run; bool_norm;
      repeat (split_if; block_run; rewrite ?Hdel; bool_norm); bool_norm;
      repeat split; auto; intros; try congruence;
      rewrite ?in_app_iff; simpl; auto 10.
  - destruct (flag_test (fnbw_reason ctx) (FIB_NODE_BW_REASON_FLAG_INTERFACE_UP K))
      eqn:Hup;
    destruct (flag_test oper FIB_PATH_OPER_FLAG_RESOLVED) eqn:Hres;
    destruct (flag_test (fnbw_reason ctx) (FIB_NODE_BW_REASON_FLAG_INTERFACE_DOWN K))
      eqn:Hdown;
    try discriminate Hearly; clear Hearly;
    repeat (progress (block_run; bool_norm; rewrite ?Hup, ?Hres, ?Hdown, ?Hdel));
    repeat (split_if;
            repeat (progress (block_run; bool_norm;
                              rewrite ?Hup, ?Hres, ?Hdown, ?Hdel)));
    repeat split; auto; intros; try congruence;
    rewrite ?in_app_iff; simpl; auto 10.
Qed.

Lemma run_op_keeps_oper_drop (K : fib_defs) (path_index : Z) (op : path_op)
    (s : pstate) :
  via_interface (cur s) = true ->
  has_oper_drop (cur s) = true ->
  exists s',
    run_op K path_index op s = Ok (tt, s') /\
    via_interface (cur s') = true /\
    has_oper_drop (cur s') = true.
Proof.
  intros Hty Hd. destruct op as [X ctx | X | X entry_indicies]; unfold run_op, bind.
  - pose proof (back_walk_keeps_oper_drop K X path_index ctx s Hty Hd) as H.
    destruct (fib_path_back_walk_notify K X path_index ctx s) as [[rc s'] | | ];
      try contradiction.
    exists s'. destruct H as (_ & H1 & H2). auto.
  - destruct s as [path tr]. simpl in Hty, Hd.
    rewrite (fib_path_resolve_i_on_permanent_drop K X path_index path tr
               (has_oper_drop_permanent K path Hd)).
    eexists. split; [reflexivity|]. simpl. split; [exact Hty|].
    unfold has_oper_drop, resolved_as_drop in *. simpl. flags_norm. exact Hd.
  - rewrite (fib_path_recursive_loop_detect_i_on_permanent_drop K X
               entry_indicies s (has_oper_drop_permanent K _ Hd)).
    exists s. auto.
Qed.

Lemma run_ops_keep_oper_drop (K : fib_defs) (path_index : Z)
    (ops : list path_op) (s : pstate) :
  via_interface (cur s) = true ->
  has_oper_drop (cur s) = true ->
  exists s',
    run_ops K path_index ops s = Ok (tt, s') /\
    via_interface (cur s') = true /\
    has_oper_drop (cur s') = true.
Proof.
  revert s. induction ops as [|op rest IH]; intros s Hty Hd; simpl.
  - exists s. auto.
  - destruct (run_op_keeps_oper_drop K path_index op s Hty Hd)
      as (s1 & Hrun & Hty1 & Hd1).
    unfold bind. rewrite Hrun. apply IH; assumption.
Qed.

(** Where the delete branch is reached.  On an Attached path a back-walk
    carrying INTERFACE_DELETE, and on an AttachedNextHop path a back-walk
    carrying INTERFACE_DELETE that does not return early (it does not
    carry INTERFACE_UP while the path is RESOLVED, nor INTERFACE_DOWN
    without INTERFACE_UP while the path is not RESOLVED), returns CONTINUE
    and leaves the permanent DROP oper-flag set and the path unresolved.
    If the path was not a permanent drop before, the walk unresolved it:
    the child was removed from the adjacency and the adjacency unlocked,
    and (unless the walk also carries ADJ_UPDATE) the contributed DPO is
    reset and RESOLVED clear.  From then on the path is never resolved
    again: after any sequence of back-walks, resolves and loop
    detections, with whatever answers of the collaborators, [is_resolved]
    is false; in particular after a back-walk carrying INTERFACE_UP. *)
Lemma interface_delete_is_permanent (K : fib_defs) (X : fib_ext)
    (path_index : Z) (ctx : fib_node_back_walk_ctx_t)
    (path : fib_path_t) (tr : list event) :
  fp_type path = FIB_PATH_TYPE_ATTACHED \/
  (fp_type path = FIB_PATH_TYPE_ATTACHED_NEXT_HOP /\
   returns_before_delete K ctx path = false) ->
  reason_has ctx (FIB_NODE_BW_REASON_FLAG_INTERFACE_DELETE K) = true ->
  exists s',
    fib_path_back_walk_notify K X path_index ctx (mk_pstate path tr)
      = Ok (FIB_NODE_BACK_WALK_CONTINUE, s') /\
    flag_test (fp_oper_flags (cur s')) FIB_PATH_OPER_FLAG_DROP = true /\
    fib_path_is_resolved_i K (cur s') = false /\
    (fib_path_is_permanent_drop K path = false ->
     In (Ev_adj_child_remove (dpoi_index (fp_dpo path)) (fp_sibling path))
        (trace s') /\
     In (Ev_adj_unlock (dpoi_index (fp_dpo path))) (trace s') /\
     (reason_has ctx (FIB_NODE_BW_REASON_FLAG_ADJ_UPDATE K) = false ->
      fp_dpo (cur s') = DPO_INVALID /\
      flag_test (fp_oper_flags (cur s')) FIB_PATH_OPER_FLAG_RESOLVED = false)) /\
    (forall ops : list path_op,
        exists s'',
          run_ops K path_index ops s' = Ok (tt, s'') /\
          fib_path_is_resolved_i K (cur s'') = false) /\
    (forall (X' : fib_ext) (ctx' : fib_node_back_walk_ctx_t),
        reason_has ctx' (FIB_NODE_BW_REASON_FLAG_INTERFACE_UP K) = true ->
        exists s'',
          fib_path_back_walk_notify K X' path_index ctx' s'
            = Ok (FIB_NODE_BACK_WALK_CONTINUE, s'') /\
          fib_path_is_resolved_i K (cur s'') = false).
Proof.
  intros Hty Hdel.
  pose proof (back_walk_interface_delete K X path_index ctx path tr Hty Hdel) as H.
  destruct (fib_path_back_walk_notify K X path_index ctx (mk_pstate path tr))
    as [[rc s'] | | ]; try contradiction.
  destruct H as (-> & Hvia & Hd & Hunres).
  exists s'. split; [reflexivity|]. split; [exact Hd|].
  split; [apply permanent_drop_is_unresolved, has_oper_drop_permanent, Hd|].
  split; [exact Hunres|]. split.
  - intros ops.
    destruct (run_ops_keep_oper_drop K path_index ops s' Hvia Hd)
      as (s'' & Hrun & _ & Hd'').
    exists s''. split; [exact Hrun|].
    apply permanent_drop_is_unresolved, has_oper_drop_permanent, Hd''.
  - intros X' ctx' _.
    pose proof (back_walk_keeps_oper_drop K X' path_index ctx' s' Hvia Hd) as H.
    destruct (fib_path_back_walk_notify K X' path_index ctx' s')
      as [[rc s''] | | ]; try contradiction.
    destruct H as (-> & _ & Hd'').
    exists s''. split; [reflexivity|].
    apply permanent_drop_is_unresolved, has_oper_drop_permanent, Hd''.
Qed.

Lemma interface_delete_is_permanent_witness :
  exists s',
    fib_path_back_walk_notify Sample.defs Sample.ext 0
      (mk_bw_ctx (FIB_NODE_BW_REASON_FLAG_INTERFACE_DELETE Sample.defs))
      (mk_pstate Sample.path_attached_resolved [])
      = Ok (FIB_NODE_BACK_WALK_CONTINUE, s') /\
    flag_test (fp_oper_flags (cur s')) FIB_PATH_OPER_FLAG_DROP = true /\
    fib_path_is_resolved_i Sample.defs (cur s') = false.
Proof.
  destruct (interface_delete_is_permanent Sample.defs Sample.ext 0
              (mk_bw_ctx (FIB_NODE_BW_REASON_FLAG_INTERFACE_DELETE Sample.defs))
              Sample.path_attached_resolved [])
    as (s' & Hrun & Hd & Hres & _).
  - left. vm_compute. reflexivity.
  - vm_compute. reflexivity.
  - exists s'. split; [exact Hrun|]. split; [exact Hd | exact Hres].
Defined.

(** C6 (the code at the failing input): a resolved attached next-hop path
    receives a back-walk carrying both INTERFACE_UP and INTERFACE_DELETE.
    The handler returns at "already resolved" before it looks at
    INTERFACE_DELETE: the DROP oper-flag is not set, the adjacency is not
    released, no event is emitted and the path still reports resolved.
    The same walk on a resolved attached path runs the delete branch: the
    DROP oper-flag is set and the path is unresolved. *)
Theorem interface_delete_skipped_when_up :
  (exists path st' path',
     fib_path_get Sample.st_attached_next_hop_resolved 0 = Some path /\
     fp_type path = FIB_PATH_TYPE_ATTACHED_NEXT_HOP /\
     fib_path_is_resolved Sample.defs Sample.st_attached_next_hop_resolved 0
       = Ok true /\
     reason_has Sample.ctx_up_delete
       (FIB_NODE_BW_REASON_FLAG_INTERFACE_DELETE Sample.defs) = true /\
     fib_path_back_walk Sample.defs Sample.ext 0 Sample.ctx_up_delete
       Sample.st_attached_next_hop_resolved
       = Ok (FIB_NODE_BACK_WALK_CONTINUE, st') /\
     fib_path_get st' 0 = Some path' /\
     flag_test (fp_oper_flags path') FIB_PATH_OPER_FLAG_DROP = false /\
     fib_path_is_resolved Sample.defs st' 0 = Ok true /\
     events st' = events Sample.st_attached_next_hop_resolved) /\
  (exists path st' path',
     fib_path_get Slips.st_attached_resolved 0 = Some path /\
     fp_type path = FIB_PATH_TYPE_ATTACHED /\
     fib_path_is_resolved Sample.defs Slips.st_attached_resolved 0 = Ok true /\
     fib_path_back_walk Sample.defs Sample.ext 0 Sample.ctx_up_delete
       Slips.st_attached_resolved
       = Ok (FIB_NODE_BACK_WALK_CONTINUE, st') /\
     fib_path_get st' 0 = Some path' /\
     flag_test (fp_oper_flags path') FIB_PATH_OPER_FLAG_DROP = true /\
     fib_path_is_resolved Sample.defs st' 0 = Ok false).
Proof.
  split.
  - exists (Sample.path_at Sample.st_attached_next_hop_resolved 0),
           Sample.st_attached_next_hop_resolved,
           (Sample.path_at Sample.st_attached_next_hop_resolved 0).
    do 8 (split; [vm_compute; reflexivity|]). vm_compute. reflexivity.
  - exists (Sample.path_at Slips.st_attached_resolved 0),
           (state_after (fib_path_back_walk Sample.defs Sample.ext 0
                           Sample.ctx_up_delete) Slips.st_attached_resolved),
           (Sample.path_at
              (state_after (fib_path_back_walk Sample.defs Sample.ext 0
                              Sample.ctx_up_delete) Slips.st_attached_resolved) 0).
    do 6 (split; [vm_compute; reflexivity|]). vm_compute. reflexivity.
Qed.


(** * Properties of the rest of the code *)

(** ** Bytes and differences *)

Lemma u32_bytes_sum (w : Z) :
  is_u32 w ->
  w = w mod 256 + 256 * ((w / 256) mod 256) + 65536 * ((w / 65536) mod 256)
      + 16777216 * ((w / 16777216) mod 256).
Proof.
  unfold is_u32, U32_MOD. intros Hw.
  assert (E2 : w / 65536 = w / 256 / 256)
    by (rewrite Z.div_div by lia; reflexivity).
  assert (E3 : w / 16777216 = w / 65536 / 256)
    by (rewrite Z.div_div by lia; reflexivity).
  pose proof (Z.div_mod w 256 ltac:(lia)) as H0.
  pose proof (Z.div_mod (w / 256) 256 ltac:(lia)) as H1.
  pose proof (Z.div_mod (w / 65536) 256 ltac:(lia)) as H2.
  rewrite <- E2 in H1. rewrite <- E3 in H2.
  assert (H3 : 0 <= w / 16777216 < 256).
  { split; [apply Z.div_pos; lia | apply Z.div_lt_upper_bound; lia]. }
  rewrite (Z.mod_small (w / 16777216) 256 H3). lia.
Qed.

Lemma u32_bytes_inj (w w' : Z) :
  is_u32 w -> is_u32 w' -> u32_bytes w = u32_bytes w' -> w = w'.
Proof.
  intros Hw Hw' H. unfold u32_bytes in H.
  injection H as H0 H1 H2 H3.
  rewrite (u32_bytes_sum w Hw), (u32_bytes_sum w' Hw'). congruence.
Qed.

Lemma memcmp_eq (l1 l2 : list Z) :
  length l1 = length l2 -> (memcmp l1 l2 = 0 <-> l1 = l2).
Proof.
  revert l2. induction l1 as [|b1 t1 IH]; intros [|b2 t2] Hlen; simpl in *;
    try discriminate; [tauto|].
  destruct (Z.eqb_spec b1 b2) as [-> | Hne].
  - rewrite IH by lia. split; congruence.
  - split; [lia | congruence].
Qed.

Lemma ip46_address_cmp_eq (a b : ip46_address_t) :
  ip46_wf a -> ip46_wf b -> (ip46_address_cmp a b = 0 <-> a = b).
Proof.
  intros (A0 & A1 & A2 & A3) (B0 & B1 & B2 & B3).
  unfold ip46_address_cmp. rewrite memcmp_eq by reflexivity.
  split; [|congruence].
  destruct a as [a0 a1 a2 a3], b as [b0 b1 b2 b3]. simpl in *.
  unfold ip46_bytes. simpl. intros H.
  injection H as E0 E1 E2 E3 E4 E5 E6 E7 E8 E9 E10 E11 E12 E13 E14 E15.
  f_equal; apply u32_bytes_inj; auto; unfold u32_bytes; congruence.
Qed.

Lemma u32_sub_as_int_eq (a b : Z) :
  is_u32 a -> is_u32 b -> (u32_sub_as_int a b = 0 <-> a = b).
Proof.
  unfold u32_sub_as_int, is_u32; unfold U32_MOD; cbv zeta. intros Ha Hb. split.
  - intros H.
    assert (Hm : 0 <= (a - b) mod 4294967296 < 4294967296)
      by (apply Z.mod_pos_bound; lia).
    destruct ((a - b) mod 4294967296 <? 2147483648) eqn:E; [|lia].
    destruct (Z_le_gt_dec b a).
    + rewrite Z.mod_small in H by lia. lia.
    + replace (a - b) with ((a - b + 4294967296) + (-1) * 4294967296) in H by lia.
      rewrite Z.mod_add, Z.mod_small in H by lia. lia.
  - intros ->. rewrite Z.sub_diag. reflexivity.
Qed.

(** ** When two paths compare equal *)

(** X1: [fib_path_cmp_i] returns 0 exactly when the two paths have the
    same nh_proto and the union members that the kind of the first path
    selects agree in both paths (next-hop bytes and interface-compare 0
    for attached next-hop, interface-compare 0 for attached, next-hop
    bytes and table for recursive, table for deag, nothing for special,
    receive and exclusive).  The kind of the second path, the weight, the
    cfg-flags and the derived half play no part. *)
Theorem fib_path_cmp_i_zero_iff (X : fib_ext) (path1 path2 : fib_path_t) :
  union_wf (fp_u path1) -> union_wf (fp_u path2) ->
  (fib_path_cmp_i X path1 path2 = 0 <->
   fp_nh_proto path1 = fp_nh_proto path2 /\ members_agree X path1 path2).
Proof.
  intros (A0 & A1 & A2 & A3 & A4 & A5) (B0 & B1 & B2 & B3 & B4 & B5).
  assert (Hip : ip46_address_cmp
                  (mk_ip46 (u_w0 (fp_u path1)) (u_w1 (fp_u path1))
                           (u_w2 (fp_u path1)) (u_w3 (fp_u path1)))
                  (mk_ip46 (u_w0 (fp_u path2)) (u_w1 (fp_u path2))
                           (u_w2 (fp_u path2)) (u_w3 (fp_u path2))) = 0 <->
                mk_ip46 (u_w0 (fp_u path1)) (u_w1 (fp_u path1))
                        (u_w2 (fp_u path1)) (u_w3 (fp_u path1)) =
                mk_ip46 (u_w0 (fp_u path2)) (u_w1 (fp_u path2))
                        (u_w2 (fp_u path2)) (u_w3 (fp_u path2)))
    by (apply ip46_address_cmp_eq; unfold ip46_wf; simpl; tauto).
  pose proof (u32_sub_as_int_eq _ _ A4 B4) as Ht4.
  pose proof (u32_sub_as_int_eq _ _ A0 B0) as Ht0.
  unfold fib_path_cmp_i, members_agree, fib_protocol_eqb.
  destruct (Z.eqb_spec (fib_protocol_to_Z (fp_nh_proto path1))
                       (fib_protocol_to_Z (fp_nh_proto path2))) as [Hp | Hp];
    cbn [negb].
  - assert (Hproto : fp_nh_proto path1 = fp_nh_proto path2)
      by (destruct (fp_nh_proto path1), (fp_nh_proto path2); simpl in Hp;
          congruence || lia).
    destruct (fp_type path1);
      unfold attached_next_hop_fp_nh, recursive_fp_nh_fp_ip,
        attached_next_hop_fp_interface, recursive_fp_tbl_id, deag_fp_tbl_id,
        attached_fp_interface;
      try match goal with
          | |- context [0 =? ?c] =>
              destruct (Z.eqb_spec 0 c) as [Hc | Hc];
              [ assert (Hnh : c = 0) by lia; apply Hip in Hnh
              | assert (Hnh : c <> 0) by lia; rewrite Hip in Hnh ]
          end;
      clear Hip; intuition (try congruence; try lia).
  - split; [intros H; lia | intros [He _]; congruence].
Qed.

Lemma fib_path_cmp_i_zero_iff_witness :
  fib_path_cmp_i Sample.ext
    (fib_path_create_i Sample.defs 0 FIB_PROTOCOL_IP4 0 Sample.rp_special)
    (fib_path_create_i Sample.defs 0 FIB_PROTOCOL_IP4 0 Sample.rp_attached) = 0 <->
  fp_nh_proto (fib_path_create_i Sample.defs 0 FIB_PROTOCOL_IP4 0 Sample.rp_special)
  = fp_nh_proto (fib_path_create_i Sample.defs 0 FIB_PROTOCOL_IP4 0 Sample.rp_attached)
  /\ members_agree Sample.ext
       (fib_path_create_i Sample.defs 0 FIB_PROTOCOL_IP4 0 Sample.rp_special)
       (fib_path_create_i Sample.defs 0 FIB_PROTOCOL_IP4 0 Sample.rp_attached).
Proof.
  apply (fib_path_cmp_i_zero_iff Sample.ext
           (fib_path_create_i Sample.defs 0 FIB_PROTOCOL_IP4 0 Sample.rp_special)
           (fib_path_create_i Sample.defs 0 FIB_PROTOCOL_IP4 0 Sample.rp_attached));
    unfold union_wf, is_u32, U32_MOD; simpl; lia.
Defined.

(** ** Matching a path against the descriptor it was made from *)

(** X2: a path made by [fib_path_create] from a descriptor matches that
    descriptor under [fib_path_cmp_w_route_path] (result 0) when the
    descriptor's weight is not 0; when the weight is 0 the path was given
    weight 1 and the comparison returns 1: the path does not match its own
    descriptor.  (An interface is assumed to compare equal to itself.) *)
Theorem fib_path_cmp_w_route_path_create (K : fib_defs) (X : fib_ext)
    (pl_index : Z) (nh_proto : fib_protocol_t) (flags : Z)
    (rp : fib_route_path_t) (st : fib_state) :
  (forall i, vnet_sw_interface_compare X i i = 0) ->
  exists path_index st',
    fib_path_create K pl_index nh_proto flags rp st = Ok (path_index, st') /\
    fib_path_cmp_w_route_path X st' path_index rp
      = Ok (if frp_weight rp =? 0 then 1 else 0).
Proof.
  intros Hcmp.
  destruct (fib_path_create_stores K pl_index nh_proto flags rp st)
    as (st' & Hrun & Hget & _).
  destruct (fib_path_create_i_shape K pl_index nh_proto flags rp)
    as (Hp & Hw & _ & Hpay & Hif).
  set (path := fib_path_create_i K pl_index nh_proto flags rp) in *.
  exists (pool_get_index (fib_path_pool st)), st'.
  split; [exact Hrun|].
  unfold fib_path_cmp_w_route_path. rewrite Hget. f_equal.
  clearbody path. clear Hrun Hget.
  unfold fib_path_cmp_w_route_path_i. rewrite Hw.
  destruct (Z.eqb_spec (frp_weight rp) 0) as [Hz | Hz].
  - rewrite Hz. reflexivity.
  - rewrite Z.eqb_refl. cbn [negb].
    unfold SpecWords.payload_from, interface_of in *.
    destruct (fp_type path); try reflexivity.
    + destruct Hpay as [Hi Ha]. rewrite Ha, Hi, ip46_address_cmp_refl.
      cbn. apply Hcmp.
    + rewrite Hpay. apply Hcmp.
    + destruct Hpay as [Ht Hn]. rewrite Hp, Ht.
      destruct nh_proto; cbn [fib_protocol_eqb fib_protocol_to_Z Z.eqb];
        rewrite Hn, ?ip46_address_cmp_refl, ?u32_sub_as_int_refl; cbn;
        rewrite ?u32_sub_as_int_refl; reflexivity.
    + rewrite Hpay. apply u32_sub_as_int_refl.
Qed.

Lemma fib_path_cmp_w_route_path_create_witness :
  exists path_index st',
    fib_path_create Sample.defs 0 FIB_PROTOCOL_IP4 0 Sample.rp_weight_zero Sample.st0
      = Ok (path_index, st') /\
    fib_path_cmp_w_route_path Sample.ext st' path_index Sample.rp_weight_zero = Ok 1.
Proof.
  apply (fib_path_cmp_w_route_path_create Sample.defs Sample.ext 0
           FIB_PROTOCOL_IP4 0 Sample.rp_weight_zero Sample.st0).
  intros i. simpl. lia.
Defined.

(** ** What the operations on a path leave alone *)

Lemma run_op_same_config (K : fib_defs) (path_index : Z) (op : path_op)
    (s : pstate) :
  match run_op K path_index op s with
  | Ok (_, s') => same_config (cur s) (cur s')
  | _ => True
  end.
Proof.
  destruct s as [path tr].
  destruct path as [nd pl cfg ty proto w u oper via d sib].
  unfold same_config. simpl.
  destruct op as [X ctx | X | X entry_indicies]; unfold run_op.
  - unfold fib_path_back_walk_notify, back_walk_recursive,
      back_walk_attached_next_hop, back_walk_attached,
      fib_path_recursive_adj_update, fib_path_attached_next_hop_get_adj,
      fib_path_unresolve, fib_path_is_permanent_drop.
    destruct ty; block_run;
      repeat (split_if; block_run); auto 10.
  - unfold fib_path_resolve_i, fib_path_attached_next_hop_set,
      fib_path_recursive_adj_update, fib_path_attached_next_hop_get_adj,
      fib_path_is_permanent_drop.
    destruct ty; block_run;
      repeat (split_if; block_run); auto 10.
  - unfold fib_path_recursive_loop_detect_i, fib_path_is_permanent_drop.
    destruct ty; block_run;
      repeat (split_if; block_run); auto 10.
Qed.

Lemma same_config_trans (p1 p2 p3 : fib_path_t) :
  same_config p1 p2 -> same_config p2 p3 -> same_config p1 p3.
Proof. unfold same_config. intuition congruence. Qed.

Lemma same_config_refl (p : fib_path_t) : same_config p p.
Proof. unfold same_config. auto 10. Qed.

(** X3: no sequence of back-walks, resolves and loop detections changes
    the configuration half of a path (cfg-flags, kind, nh_proto, weight,
    per-kind payload) or its owning path-list; in particular the path's
    hash stays what it was. *)
Theorem run_ops_same_config (K : fib_defs) (X : fib_ext) (path_index : Z)
    (ops : list path_op) (s : pstate) :
  match run_ops K path_index ops s with
  | Ok (_, s') =>
      same_config (cur s) (cur s') /\
      fib_path_hash_i X (cur s') = fib_path_hash_i X (cur s)
  | _ => True
  end.
Proof.
  assert (H : match run_ops K path_index ops s with
              | Ok (_, s') => same_config (cur s) (cur s')
              | _ => True
              end).
  { revert s. induction ops as [|op rest IH]; intros s; simpl.
    - apply same_config_refl.
    - unfold bind. pose proof (run_op_same_config K path_index op s) as H1.
      destruct (run_op K path_index op s) as [[[] s1] | | ]; auto.
      specialize (IH s1).
      destruct (run_ops K path_index rest s1) as [[[] s2] | | ]; auto.
      eapply same_config_trans; eassumption. }
  destruct (run_ops K path_index ops s) as [[[] s'] | | ]; auto.
  split; [exact H|].
  destruct H as (_ & Hc & Ht & Hp & Hw & Hu).
  unfold fib_path_hash_i, path_hash_area. rewrite Hc, Ht, Hp, Hw, Hu. reflexivity.
Qed.

(** ** Invariants of the derived half *)

Lemma run_op_via_fib_only_if_recursive (K : fib_defs) (path_index : Z)
    (op : path_op) (s : pstate) :
  via_fib_only_if_recursive (cur s) ->
  match run_op K path_index op s with
  | Ok (_, s') => via_fib_only_if_recursive (cur s')
  | _ => True
  end.
Proof.
  destruct s as [path tr].
  destruct path as [nd pl cfg ty proto w u oper via d sib].
  unfold via_fib_only_if_recursive. simpl. intros Hinv.
  destruct op as [X ctx | X | X entry_indicies]; unfold run_op.
  - unfold fib_path_back_walk_notify, back_walk_recursive,
      back_walk_attached_next_hop, back_walk_attached,
      fib_path_recursive_adj_update, fib_path_attached_next_hop_get_adj,
      fib_path_unresolve, fib_path_is_permanent_drop.
    destruct ty; block_run;
      repeat (split_if; block_run); auto.
  - unfold fib_path_resolve_i, fib_path_attached_next_hop_set,
      fib_path_recursive_adj_update, fib_path_attached_next_hop_get_adj,
      fib_path_is_permanent_drop.
    destruct ty; block_run;
      repeat (split_if; block_run); auto.
  - unfold fib_path_recursive_loop_detect_i, fib_path_is_permanent_drop.
    destruct ty; block_run;
      repeat (split_if; block_run); auto.
Qed.

Lemma run_ops_keep_derived_invariants (K : fib_defs) (path_index : Z)
    (ops : list path_op) (s : pstate) :
  looped_only_if_recursive (cur s) ->
  via_fib_only_if_recursive (cur s) ->
  match run_ops K path_index ops s with
  | Ok (_, s') =>
      looped_only_if_recursive (cur s') /\ via_fib_only_if_recursive (cur s')
  | _ => True
  end.
Proof.
  revert s. induction ops as [|op rest IH]; intros s Hl Hv; simpl.
  - auto.
  - unfold bind.
    pose proof (run_op_looped_only_if_recursive K path_index op s Hl) as H1.
    pose proof (run_op_via_fib_only_if_recursive K path_index op s Hv) as H2.
    destruct (run_op K path_index op s) as [[[] s1] | | ];
      [apply IH; assumption | exact I | exact I].
Qed.

Lemma new_paths_invariants (K : fib_defs) (path : fib_path_t) :
  new_path K path ->
  looped_only_if_recursive path /\ via_fib_only_if_recursive path.
Proof.
  intros [pl nh flags rp | pl nh flags d | orig pl].
  - destruct (new_paths_not_looped K pl nh flags rp DPO_INVALID fib_path_zero)
      as (H1 & _ & _).
    unfold looped_only_if_recursive, via_fib_only_if_recursive. rewrite H1.
    unfold fib_path_create_i.
    split; [discriminate|]; repeat split_if; simpl; congruence.
  - destruct (new_paths_not_looped K pl nh flags
                (mk_rpath nh zero_addr 0 0 0 0 0) d fib_path_zero)
      as (_ & H2 & _).
    unfold looped_only_if_recursive, via_fib_only_if_recursive. rewrite H2.
    unfold fib_path_create_special_i.
    split; [discriminate|]; repeat split_if; simpl; congruence.
  - split; [unfold looped_only_if_recursive; discriminate|].
    unfold via_fib_only_if_recursive, fib_path_copy_i. simpl. congruence.
Qed.

(** X4: on every path the code makes ([fib_path_create],
    [fib_path_create_special], [fib_path_copy]) and after every sequence
    of back-walks, resolves and loop detections on it, the RECURSIVE_LOOP
    oper-flag is set only if the path is recursive, and a via-entry is
    recorded only if the path is recursive. *)
Theorem reachable_derived_invariants (K : fib_defs) (path_index : Z)
    (path : fib_path_t) (tr : list event) (ops : list path_op) :
  new_path K path ->
  match run_ops K path_index ops (mk_pstate path tr) with
  | Ok (_, s') =>
      looped_only_if_recursive (cur s') /\ via_fib_only_if_recursive (cur s')
  | _ => True
  end.
Proof.
  intros Hnew. destruct (new_paths_invariants K path Hnew) as [Hl Hv].
  apply run_ops_keep_derived_invariants; assumption.
Qed.

Lemma reachable_derived_invariants_witness :
  match run_ops Sample.defs 0
          [Op_resolve Sample.ext; Op_recursive_loop_detect Sample.ext [7]]
          (mk_pstate (fib_path_create_i Sample.defs 0 FIB_PROTOCOL_IP4 0
                        Sample.rp_recursive) [])
  with
  | Ok (_, s') =>
      looped_only_if_recursive (cur s') /\ via_fib_only_if_recursive (cur s')
  | _ => True
  end.
Proof.
  apply (reachable_derived_invariants Sample.defs 0
           (fib_path_create_i Sample.defs 0 FIB_PROTOCOL_IP4 0 Sample.rp_recursive)
           []
           [Op_resolve Sample.ext; Op_recursive_loop_detect Sample.ext [7]]).
  apply new_path_create.
Defined.

(** ** Resolution, kind by kind *)

(** X5: resolving an attached next-hop path that is not a permanent drop
    takes a neighbour adjacency for (nh_proto, link type of nh_proto,
    next-hop, interface), with the all-zeros address in place of the
    next-hop when the interface is point-to-point, stacks an ADJACENCY DPO
    on it and subscribes the path as a child of the adjacency the DPO
    names.  RESOLVED is set exactly when the interface is admin-up, and
    the result is [is_resolved]: DPO valid, interface up, not looped. *)
Theorem fib_path_resolve_attached_next_hop (K : fib_defs) (X : fib_ext)
    (path_index : Z) (path : fib_path_t) (tr : list event) :
  fp_type path = FIB_PATH_TYPE_ATTACHED_NEXT_HOP ->
  fib_path_is_permanent_drop K path = false ->
  let sw_if_index := attached_next_hop_fp_interface (fp_u path) in
  let nh := if vnet_sw_interface_is_p2p X sw_if_index then zero_addr
            else attached_next_hop_fp_nh (fp_u path) in
  let link := fib_proto_to_link X (fp_nh_proto path) in
  let ai := adj_nbr_add_or_lock X (fp_nh_proto path) link nh sw_if_index in
  let d := dpo_set X (DPO_ADJACENCY K) (fib_proto_to_dpo X (fp_nh_proto path)) ai in
  exists s',
    fib_path_resolve_i K X path_index (mk_pstate path tr)
      = Ok (dpo_id_is_valid d && vnet_sw_interface_is_admin_up X sw_if_index
            && negb (fib_path_is_looped_i path), s') /\
    fp_dpo (cur s') = d /\
    fp_sibling (cur s') = adj_child_add X (dpoi_index d) path_index /\
    flag_test (fp_oper_flags (cur s')) FIB_PATH_OPER_FLAG_RESOLVED
      = vnet_sw_interface_is_admin_up X sw_if_index /\
    trace s' = tr ++ [Ev_adj_nbr_add_or_lock (fp_nh_proto path) link nh sw_if_index;
                      Ev_adj_child_add (dpoi_index d) path_index].
Proof.
  destruct path as [nd pl cfg ty proto w u oper via d0 sib]. simpl.
  intros -> Hdrop.
  unfold fib_path_is_permanent_drop in Hdrop. simpl in Hdrop.
  apply orb_false_iff in Hdrop as [Hc Ho].
  unfold fib_path_resolve_i, fib_path_attached_next_hop_set,
    fib_path_attached_next_hop_get_adj, fib_path_is_resolved_i,
    fib_path_is_permanent_drop, fib_path_is_looped_i.
  block_run. bool_norm. rewrite Hc, Ho. block_run.
  destruct (vnet_sw_interface_is_admin_up X (attached_next_hop_fp_interface u)) eqn:Hup;
    destruct (vnet_sw_interface_is_p2p X (attached_next_hop_fp_interface u)) eqn:Hp2p;
    repeat (progress (block_run; bool_norm; rewrite ?Hc, ?Ho, ?Hup, ?Hp2p));
    eexists; (split; [rewrite ?andb_true_r, ?andb_false_r; simpl; reflexivity|]);
    simpl; bool_norm; rewrite <- ?app_assoc; auto.
Qed.

Lemma fib_path_resolve_attached_next_hop_witness :
  exists s',
    fib_path_resolve_i Sample.defs Sample.ext 0
      (mk_pstate (fib_path_create_i Sample.defs 0 FIB_PROTOCOL_IP4 0
                    Sample.rp_attached_next_hop) [])
      = Ok (true, s') /\
    fp_dpo (cur s') = mk_dpo 5 0 0 103 /\
    trace s' = [Ev_adj_nbr_add_or_lock FIB_PROTOCOL_IP4 0
                  (mk_ip46 0 0 0 33554442) 3;
                Ev_adj_child_add 103 0].
Proof.
  destruct (fib_path_resolve_attached_next_hop Sample.defs Sample.ext 0
              (fib_path_create_i Sample.defs 0 FIB_PROTOCOL_IP4 0
                 Sample.rp_attached_next_hop) [])
    as (s' & Hrun & Hd & _ & _ & Htr).
  - reflexivity.
  - reflexivity.
  - exists s'. split; [exact Hrun|]. split; [exact Hd | exact Htr].
Defined.

(** X6: resolving an attached path that is not a permanent drop takes, on
    a point-to-point interface, a neighbour adjacency with the all-zeros
    address and stacks an ADJACENCY DPO; on any other interface it takes a
    glean adjacency and stacks an ADJACENCY_GLEAN DPO.  Either way the
    path subscribes as a child of the adjacency the DPO names, RESOLVED is
    set exactly when the interface is admin-up, and the result is
    [is_resolved]. *)
Theorem fib_path_resolve_attached (K : fib_defs) (X : fib_ext)
    (path_index : Z) (path : fib_path_t) (tr : list event) :
  fp_type path = FIB_PATH_TYPE_ATTACHED ->
  fib_path_is_permanent_drop K path = false ->
  let sw_if_index := attached_fp_interface (fp_u path) in
  let proto := fp_nh_proto path in
  let p2p := vnet_sw_interface_is_p2p X sw_if_index in
  let d :=
    if p2p
    then dpo_set X (DPO_ADJACENCY K) (fib_proto_to_dpo X proto)
           (adj_nbr_add_or_lock X proto (fib_proto_to_link X proto) zero_addr
              sw_if_index)
    else dpo_set X (DPO_ADJACENCY_GLEAN K) (fib_proto_to_dpo X proto)
           (adj_glean_add_or_lock X proto sw_if_index) in
  exists s',
    fib_path_resolve_i K X path_index (mk_pstate path tr)
      = Ok (dpo_id_is_valid d && vnet_sw_interface_is_admin_up X sw_if_index
            && negb (fib_path_is_looped_i path), s') /\
    fp_dpo (cur s') = d /\
    fp_sibling (cur s') = adj_child_add X (dpoi_index d) path_index /\
    flag_test (fp_oper_flags (cur s')) FIB_PATH_OPER_FLAG_RESOLVED
      = vnet_sw_interface_is_admin_up X sw_if_index /\
    trace s' =
      tr ++ [if p2p
             then Ev_adj_nbr_add_or_lock proto (fib_proto_to_link X proto)
                    zero_addr sw_if_index
             else Ev_adj_glean_add_or_lock proto sw_if_index;
             Ev_adj_child_add (dpoi_index d) path_index].
Proof.
  destruct path as [nd pl cfg ty proto w u oper via d0 sib]. simpl.
  intros -> Hdrop.
  unfold fib_path_is_permanent_drop in Hdrop. simpl in Hdrop.
  apply orb_false_iff in Hdrop as [Hc Ho].
  unfold fib_path_resolve_i, fib_path_is_resolved_i,
    fib_path_is_permanent_drop, fib_path_is_looped_i.
  block_run. bool_norm. rewrite Hc, Ho. block_run.
  destruct (vnet_sw_interface_is_admin_up X (attached_fp_interface u)) eqn:Hup;
    destruct (vnet_sw_interface_is_p2p X (attached_fp_interface u)) eqn:Hp2p;
    repeat (progress (block_run; bool_norm; rewrite ?Hc, ?Ho, ?Hup, ?Hp2p));
    eexists; (split; [rewrite ?andb_true_r, ?andb_false_r; simpl; reflexivity|]);
    simpl; bool_norm; rewrite <- ?app_assoc; auto.
Qed.

Lemma fib_path_resolve_attached_witness :
  exists s',
    fib_path_resolve_i Sample.defs Sample.ext 0
      (mk_pstate (fib_path_create_i Sample.defs 0 FIB_PROTOCOL_IP4 0
                    Sample.rp_attached) [])
      = Ok (true, s') /\
    fp_dpo (cur s') = mk_dpo 8 0 0 203 /\
    trace s' = [Ev_adj_glean_add_or_lock FIB_PROTOCOL_IP4 3;
                Ev_adj_child_add 203 0].
Proof.
  destruct (fib_path_resolve_attached Sample.defs Sample.ext 0
              (fib_path_create_i Sample.defs 0 FIB_PROTOCOL_IP4 0
                 Sample.rp_attached) [])
    as (s' & Hrun & Hd & _ & _ & Htr).
  - reflexivity.
  - reflexivity.
  - exists s'. split; [exact Hrun|]. split; [exact Hd | exact Htr].
Defined.

(** X7: resolving a recursive path that is not a permanent drop and has
    no via-entry yet adds, in the path's table, an RR-sourced entry for
    the prefix of its next-hop (the MPLS label when nh_proto is MPLS, the
    address otherwise), records the entry returned as the via-entry and
    subscribes the path as its child.  After these two calls the only
    further call is, at most, one load-balance-map notification.  The
    result is [is_resolved] of the path as left; when the path is under no
    recursion constraint and not looped, its contributed DPO is the
    via-entry's forwarding and the result is that DPO's validity. *)
Theorem fib_path_resolve_recursive (K : fib_defs) (X : fib_ext)
    (path_index : Z) (path : fib_path_t) (tr : list event) :
  fp_type path = FIB_PATH_TYPE_RECURSIVE ->
  fib_path_is_permanent_drop K path = false ->
  fp_via_fib path = FIB_NODE_INDEX_INVALID ->
  let tbl := recursive_fp_tbl_id (fp_u path) in
  let pfx :=
    match fp_nh_proto path with
    | FIB_PROTOCOL_MPLS =>
        fib_prefix_from_mpls_label (recursive_fp_nh_fp_local_label (fp_u path))
    | _ => fib_prefix_from_ip46_addr (recursive_fp_nh_fp_ip (fp_u path))
    end in
  let fei := fib_table_entry_special_add X tbl pfx in
  let via_dpo := fib_entry_contribute_forwarding X fei
                   (fib_path_proto_to_chain_type (fp_nh_proto path)) in
  exists r s' rest,
    fib_path_resolve_i K X path_index (mk_pstate path tr) = Ok (r, s') /\
    r = fib_path_is_resolved_i K (cur s') /\
    fp_via_fib (cur s') = fei /\
    fp_sibling (cur s') = fib_entry_child_add X fei path_index /\
    trace s' = tr ++ [Ev_fib_table_entry_special_add tbl pfx;
                      Ev_fib_entry_child_add fei path_index] ++ rest /\
    (rest = [] \/ rest = [Ev_load_balance_map_path_state_change path_index]) /\
    (fib_path_is_looped_i path = false ->
     flag_test (fp_cfg_flags path) (FIB_PATH_CFG_FLAG_RESOLVE_HOST K) = false ->
     flag_test (fp_cfg_flags path) (FIB_PATH_CFG_FLAG_RESOLVE_ATTACHED K) = false ->
     fp_dpo (cur s') = via_dpo /\ r = dpo_id_is_valid via_dpo /\ rest = []).
Proof.
  destruct path as [nd pl cfg ty proto w u oper via d0 sib]. simpl.
  intros -> Hdrop ->.
  unfold fib_path_is_permanent_drop in Hdrop. simpl in Hdrop.
  apply orb_false_iff in Hdrop as [Hc Ho].
  unfold fib_path_resolve_i, fib_path_recursive_adj_update,
    fib_path_is_resolved_i, fib_path_is_permanent_drop, fib_path_is_looped_i.
  block_run. bool_norm. rewrite Hc, Ho. block_run.
  rewrite andb_false_r. simpl.
  destruct proto; simpl;
    repeat (progress (block_run; bool_norm; rewrite ?Hc, ?Ho));
    repeat (split_if;
            repeat (progress (block_run; bool_norm; rewrite ?Hc, ?Ho)));
    do 3 eexists; (split; [reflexivity|]); simpl; bool_norm;
    rewrite ?Hc, ?Ho, <- ?app_assoc; simpl;
    repeat split; auto; intros; try congruence;
    rewrite ?Heqb, ?andb_true_r; auto.
Qed.

Lemma fib_path_resolve_recursive_witness :
  exists r s' rest,
    fib_path_resolve_i Sample.defs Sample.ext 0
      (mk_pstate (fib_path_create_i Sample.defs 0 FIB_PROTOCOL_IP4 0
                    Sample.rp_recursive) []) = Ok (r, s') /\
    fp_via_fib (cur s') = 7 /\
    trace s' = [Ev_fib_table_entry_special_add 0
                  (fib_prefix_from_ip46_addr (mk_ip46 0 0 0 16843009));
                Ev_fib_entry_child_add 7 0] ++ rest.
Proof.
  destruct (fib_path_resolve_recursive Sample.defs Sample.ext 0
              (fib_path_create_i Sample.defs 0 FIB_PROTOCOL_IP4 0
                 Sample.rp_recursive) [])
    as (r & s' & rest & Hrun & _ & Hvia & _ & Htr & _).
  - reflexivity.
  - reflexivity.
  - reflexivity.
  - exists r, s', rest. split; [exact Hrun|]. split; [exact Hvia | exact Htr].
Defined.

(** X8: resolving a path of a kind without parent (special, deag,
    receive, exclusive) that is not a permanent drop stacks the drop DPO
    of nh_proto, a lookup DPO for the deag table, a receive DPO for the
    interface and address, or the user's DPO, sets RESOLVED and changes
    nothing else of the path: no adjacency or FIB entry is subscribed to,
    no via-entry recorded.  The result is the validity of the DPO stacked
    (and false if RECURSIVE_LOOP were set). *)
Theorem fib_path_resolve_leaf (K : fib_defs) (X : fib_ext)
    (path_index : Z) (path : fib_path_t) (tr : list event) :
  has_no_parent (fp_type path) = true ->
  fib_path_is_permanent_drop K path = false ->
  fib_path_resolve_i K X path_index (mk_pstate path tr)
    = Ok (dpo_id_is_valid (leaf_dpo X path) && negb (fib_path_is_looped_i path),
          mk_pstate (set_fp_dpo (leaf_dpo X path)
                       (oper_flags_set FIB_PATH_OPER_FLAG_RESOLVED path))
                    (tr ++ leaf_events X path)).
Proof.
  destruct path as [nd pl cfg ty proto w u oper via d0 sib]. simpl.
  intros Hty Hdrop.
  unfold fib_path_is_permanent_drop in Hdrop. simpl in Hdrop.
  apply orb_false_iff in Hdrop as [Hc Ho].
  unfold fib_path_resolve_i, fib_path_is_resolved_i,
    fib_path_is_permanent_drop, fib_path_is_looped_i, leaf_dpo, leaf_events.
  destruct ty; try discriminate Hty;
    block_run; bool_norm; rewrite Hc, Ho; block_run; bool_norm;
    rewrite ?Hc, ?Ho, ?andb_true_r, ?app_nil_r; reflexivity.
Qed.

Lemma fib_path_resolve_leaf_witness :
  fib_path_resolve_i Sample.defs Sample.ext 0
    (mk_pstate (fib_path_create_i Sample.defs 0 FIB_PROTOCOL_IP4 0
                  Sample.rp_special) [])
  = Ok (true,
        mk_pstate
          (set_fp_dpo (Sample.drop_dpo 0)
             (oper_flags_set FIB_PATH_OPER_FLAG_RESOLVED
                (fib_path_create_i Sample.defs 0 FIB_PROTOCOL_IP4 0
                   Sample.rp_special))) []).
Proof.
  apply (fib_path_resolve_leaf Sample.defs Sample.ext 0
           (fib_path_create_i Sample.defs 0 FIB_PROTOCOL_IP4 0 Sample.rp_special)
           []); reflexivity.
Defined.

(** ** Interface state walks *)

Lemma is_resolved_i_flags (K : fib_defs) (path : fib_path_t) :
  fib_path_is_resolved_i K path = true ->
  dpo_id_is_valid (fp_dpo path) = true /\
  flag_test (fp_oper_flags path) FIB_PATH_OPER_FLAG_RESOLVED = true /\
  flag_test (fp_oper_flags path) FIB_PATH_OPER_FLAG_RECURSIVE_LOOP = false /\
  flag_test (fp_cfg_flags path) (FIB_PATH_CFG_FLAG_DROP K) = false /\
  flag_test (fp_oper_flags path) FIB_PATH_OPER_FLAG_DROP = false.
Proof.
  unfold fib_path_is_resolved_i, fib_path_is_looped_i, fib_path_is_permanent_drop.
  intros H.
  apply andb_true_iff in H as [H Hd]. apply andb_true_iff in H as [H Hl].
  apply andb_true_iff in H as [Hv Hr].
  apply negb_true_iff in Hd. apply negb_true_iff in Hl.
  apply orb_false_iff in Hd as [Hc Ho]. auto 10.
Qed.

(** X9: a resolved path through an interface (attached or attached
    next-hop) that is told INTERFACE_DOWN and then INTERFACE_UP, by walks
    that carry nothing else, is unresolved in between and resolved again
    afterwards; its contributed DPO stays the adjacency throughout, no
    adjacency call is made, and each of the two walks is passed on to the
    owning path-list. *)
Theorem interface_down_then_up (K : fib_defs) (X X' : fib_ext)
    (path_index : Z) (ctx_down ctx_up : fib_node_back_walk_ctx_t)
    (path : fib_path_t) (tr : list event) :
  via_interface path = true ->
  fib_path_is_resolved_i K path = true ->
  interface_state_walk K ctx_down false true ->
  interface_state_walk K ctx_up true false ->
  exists s1 s2,
    fib_path_back_walk_notify K X path_index ctx_down (mk_pstate path tr)
      = Ok (FIB_NODE_BACK_WALK_CONTINUE, s1) /\
    fib_path_is_resolved_i K (cur s1) = false /\
    fp_dpo (cur s1) = fp_dpo path /\
    fib_path_back_walk_notify K X' path_index ctx_up s1
      = Ok (FIB_NODE_BACK_WALK_CONTINUE, s2) /\
    fib_path_is_resolved_i K (cur s2) = true /\
    fp_dpo (cur s2) = fp_dpo path /\
    trace s2 = tr ++ [Ev_fib_path_list_back_walk (fp_pl_index path) ctx_down;
                      Ev_fib_path_list_back_walk (fp_pl_index path) ctx_up].
Proof.
  intros Hty Hres (Du & Dd & Ddel & Dau & Dad) (Uu & Ud & Udel & Uau & Uad).
  destruct (is_resolved_i_flags K path Hres) as (Hv & Hr & Hl & Hc & Ho).
  destruct path as [nd pl cfg ty proto w u oper via d0 sib].
  unfold via_interface, reason_has in *. simpl in *.
  unfold fib_path_back_walk_notify, back_walk_attached_next_hop,
    back_walk_attached, fib_path_is_resolved_i, fib_path_is_permanent_drop,
    fib_path_is_looped_i.
  destruct ty; try discriminate Hty;
    do 2 eexists;
    (split; [block_run; rewrite ?Du, ?Dd, ?Ddel, ?Dau, ?Dad; block_run;
             bool_norm; rewrite ?Hr, ?Dd, ?Ddel, ?Dau, ?Dad; block_run;
             rewrite ?Ddel, ?Dau, ?Dad; block_run; reflexivity|]);
    (split; [simpl; bool_norm; rewrite ?andb_false_r; reflexivity|]);
    (split; [reflexivity|]);
    (split; [block_run; rewrite ?Uu, ?Ud, ?Udel, ?Uau, ?Uad; block_run;
             bool_norm; rewrite ?Uu, ?Ud, ?Udel, ?Uau, ?Uad; block_run;
             bool_norm; rewrite ?Ud, ?Udel, ?Uau, ?Uad; block_run;
             rewrite ?Ud, ?Udel, ?Uau, ?Uad; block_run; reflexivity|]);
    simpl; bool_norm; rewrite ?Hv, ?Hl, ?Hc, ?Ho, <- ?app_assoc; simpl; auto.
Qed.

Lemma interface_down_then_up_witness :
  exists s1 s2,
    fib_path_back_walk_notify Sample.defs Sample.ext 0
      (mk_bw_ctx (FIB_NODE_BW_REASON_FLAG_INTERFACE_DOWN Sample.defs))
      (mk_pstate Sample.path_attached_resolved [])
      = Ok (FIB_NODE_BACK_WALK_CONTINUE, s1) /\
    fib_path_is_resolved_i Sample.defs (cur s1) = false /\
    fib_path_back_walk_notify Sample.defs Sample.ext 0
      (mk_bw_ctx (FIB_NODE_BW_REASON_FLAG_INTERFACE_UP Sample.defs)) s1
      = Ok (FIB_NODE_BACK_WALK_CONTINUE, s2) /\
    fib_path_is_resolved_i Sample.defs (cur s2) = true.
Proof.
  destruct (interface_down_then_up Sample.defs Sample.ext Sample.ext 0
              (mk_bw_ctx (FIB_NODE_BW_REASON_FLAG_INTERFACE_DOWN Sample.defs))
              (mk_bw_ctx (FIB_NODE_BW_REASON_FLAG_INTERFACE_UP Sample.defs))
              Sample.path_attached_resolved [])
    as (s1 & s2 & H1 & H2 & _ & H3 & H4 & _).
  - vm_compute. reflexivity.
  - vm_compute. reflexivity.
  - unfold interface_state_walk. vm_compute. auto.
  - unfold interface_state_walk. vm_compute. auto.
  - exists s1, s2. auto.
Defined.

(** X10: on an attached next-hop path, a walk that carries INTERFACE_UP
    while the path is already RESOLVED, or INTERFACE_DOWN (without
    INTERFACE_UP) while it is not RESOLVED, is absorbed whatever else it
    carries: the handler returns CONTINUE, the path is unchanged, no
    collaborator is called and the walk is not passed on to the
    path-list. *)
Theorem back_walk_attached_next_hop_absorbed (K : fib_defs) (X : fib_ext)
    (path_index : Z) (ctx : fib_node_back_walk_ctx_t) (s : pstate) :
  fp_type (cur s) = FIB_PATH_TYPE_ATTACHED_NEXT_HOP ->
  returns_before_delete K ctx (cur s) = true ->
  fib_path_back_walk_notify K X path_index ctx s
    = Ok (FIB_NODE_BACK_WALK_CONTINUE, s).
Proof.
  destruct s as [path tr].
  destruct path as [nd pl cfg ty proto w u oper via d0 sib]. simpl.
  intros -> Hearly.
  unfold returns_before_delete, reason_has in Hearly. simpl in Hearly.
  unfold fib_path_back_walk_notify, back_walk_attached_next_hop.
  destruct (flag_test (fnbw_reason ctx) (FIB_NODE_BW_REASON_FLAG_INTERFACE_UP K))
    eqn:Hup;
  destruct (flag_test oper FIB_PATH_OPER_FLAG_RESOLVED) eqn:Hres;
  destruct (flag_test (fnbw_reason ctx) (FIB_NODE_BW_REASON_FLAG_INTERFACE_DOWN K))
    eqn:Hdown;
  try discriminate Hearly;
  block_run; rewrite ?Hup, ?Hres, ?Hdown; block_run;
  rewrite ?Hup, ?Hres, ?Hdown; block_run; reflexivity.
Qed.

Lemma back_walk_attached_next_hop_absorbed_witness :
  fib_path_back_walk_notify Sample.defs Sample.ext 0 Sample.ctx_up_delete
    (mk_pstate (Sample.path_at Sample.st_attached_next_hop_resolved 0) [])
  = Ok (FIB_NODE_BACK_WALK_CONTINUE,
        mk_pstate (Sample.path_at Sample.st_attached_next_hop_resolved 0) []).
Proof.
  apply (back_walk_attached_next_hop_absorbed Sample.defs Sample.ext 0
           Sample.ctx_up_delete
           (mk_pstate (Sample.path_at Sample.st_attached_next_hop_resolved 0) []));
    vm_compute; reflexivity.
Defined.



(** ** The recursive DPO update, the other cases *)

(** X12: while the RECURSIVE_LOOP oper-flag is set,
    [fib_path_recursive_adj_update] hands out the drop DPO of the path's
    nh_proto and leaves RESOLVED clear and RECURSIVE_LOOP set, whatever
    the cfg-flags and the via-entry say, and it does not notify the
    load-balance maps. *)
Theorem fib_path_recursive_adj_update_looped (K : fib_defs) (X : fib_ext)
    (path_index : Z) (fct : fib_forward_chain_type_t) (dpo : dpo_ptr)
    (path : fib_path_t) (tr : list event) :
  fib_path_is_looped_i path = true ->
  exists s',
    fib_path_recursive_adj_update K X path_index fct dpo (mk_pstate path tr)
      = Ok (drop_dpo_get X (fib_proto_to_dpo X (fp_nh_proto path)), s') /\
    flag_test (fp_oper_flags (cur s')) FIB_PATH_OPER_FLAG_RESOLVED = false /\
    fib_path_is_looped_i (cur s') = true /\
    fib_path_is_resolved_i K (cur s') = false /\
    trace s' = tr /\
    fp_dpo (cur s') =
      match dpo with
      | Ptr_path_fp_dpo => drop_dpo_get X (fib_proto_to_dpo X (fp_nh_proto path))
      | Ptr_caller => fp_dpo path
      end.
Proof.
  unfold fib_path_is_looped_i. intros Hl.
  unfold fib_path_recursive_adj_update. pm_run. flags_norm. rewrite Hl. simpl.
  destruct dpo; pm_run; eexists; (split; [reflexivity|]);
    unfold fib_path_is_resolved_i, fib_path_is_looped_i; simpl; flags_norm;
    simpl; rewrite ?Hl, ?andb_false_r; simpl; auto.
Qed.

Lemma fib_path_recursive_adj_update_looped_witness :
  exists s',
    fib_path_recursive_adj_update Sample.defs Sample.ext 0
      FIB_FORW_CHAIN_TYPE_UNICAST_IP4 Ptr_path_fp_dpo
      (mk_pstate (oper_flags_set FIB_PATH_OPER_FLAG_RECURSIVE_LOOP
                    Sample.path_recursive_resolved) [])
      = Ok (Sample.drop_dpo 0, s') /\
    fib_path_is_resolved_i Sample.defs (cur s') = false.
Proof.
  destruct (fib_path_recursive_adj_update_looped Sample.defs Sample.ext 0
              FIB_FORW_CHAIN_TYPE_UNICAST_IP4 Ptr_path_fp_dpo
              (oper_flags_set FIB_PATH_OPER_FLAG_RECURSIVE_LOOP
                 Sample.path_recursive_resolved) [])
    as (s' & Hrun & _ & _ & Hres & _).
  - vm_compute. reflexivity.
  - exists s'. split; [exact Hrun | exact Hres].
Defined.

(** X13: on a path without RECURSIVE_LOOP and without the RESOLVE_HOST
    cfg-flag, [fib_path_recursive_adj_update] looks at RESOLVE_ATTACHED:
    if that flag is set and the via-entry does not carry the ATTACHED
    entry flag, it hands out the drop DPO, clears RESOLVED and notifies the
    load-balance maps; in every other case it hands out the via-entry's
    forwarding DPO, sets RESOLVED and notifies nobody. *)
Theorem fib_path_recursive_adj_update_resolve_attached (K : fib_defs)
    (X : fib_ext) (path_index : Z) (fct : fib_forward_chain_type_t)
    (dpo : dpo_ptr) (path : fib_path_t) (tr : list event) :
  fib_path_is_looped_i path = false ->
  flag_test (fp_cfg_flags path) (FIB_PATH_CFG_FLAG_RESOLVE_HOST K) = false ->
  let unmet :=
    flag_test (fp_cfg_flags path) (FIB_PATH_CFG_FLAG_RESOLVE_ATTACHED K) &&
    negb (flag_test (fib_entry_get_flags X (fp_via_fib path))
                    (FIB_ENTRY_FLAG_ATTACHED K)) in
  let out :=
    if unmet then drop_dpo_get X (fib_proto_to_dpo X (fp_nh_proto path))
    else fib_entry_contribute_forwarding X (fp_via_fib path) fct in
  exists s',
    fib_path_recursive_adj_update K X path_index fct dpo (mk_pstate path tr)
      = Ok (out, s') /\
    flag_test (fp_oper_flags (cur s')) FIB_PATH_OPER_FLAG_RESOLVED = negb unmet /\
    trace s' = (if unmet
                then tr ++ [Ev_load_balance_map_path_state_change path_index]
                else tr) /\
    fp_dpo (cur s') = match dpo with
                      | Ptr_path_fp_dpo => out
                      | Ptr_caller => fp_dpo path
                      end.
Proof.
  unfold fib_path_is_looped_i. intros Hl Hhost.
  unfold fib_path_recursive_adj_update. pm_run. flags_norm.
  rewrite Hl, Hhost. simpl.
  destruct (flag_test (fp_cfg_flags path) (FIB_PATH_CFG_FLAG_RESOLVE_ATTACHED K));
    destruct (flag_test (fib_entry_get_flags X (fp_via_fib path))
                        (FIB_ENTRY_FLAG_ATTACHED K));
    destruct dpo; pm_run; eexists; (split; [reflexivity|]);
    simpl; flags_norm; auto.
Qed.

Lemma fib_path_recursive_adj_update_resolve_attached_witness :
  exists s',
    fib_path_recursive_adj_update Sample.defs Sample.ext 0
      FIB_FORW_CHAIN_TYPE_UNICAST_IP4 Ptr_path_fp_dpo
      (mk_pstate Sample.path_recursive_resolved [])
      = Ok (mk_dpo 4 0 0 7, s') /\
    trace s' = [].
Proof.
  destruct (fib_path_recursive_adj_update_resolve_attached Sample.defs Sample.ext 0
              FIB_FORW_CHAIN_TYPE_UNICAST_IP4 Ptr_path_fp_dpo
              Sample.path_recursive_resolved [])
    as (s' & Hrun & _ & Htr & _).
  - vm_compute. reflexivity.
  - vm_compute. reflexivity.
  - exists s'. split; [exact Hrun | exact Htr].
Defined.

(** ** New paths and their interface *)

Ltac qm_run :=
  unfold q_bind, q_ret, q_get_path, q_emit, q_lift, Q_ASSERT; simpl.

(** X14: on a path that [fib_path_create] made from a route-path and that
    is not recursive, [fib_path_get_resolving_interface] gives back the
    descriptor's interface, [~0] included when the descriptor names
    none. *)
Theorem fib_path_get_resolving_interface_create (K : fib_defs)
    (Q : fib_query_ext) (pl_index : Z) (nh_proto : fib_protocol_t)
    (flags : Z) (rpath : fib_route_path_t) :
  fp_type (fib_path_create_i K pl_index nh_proto flags rpath)
    <> FIB_PATH_TYPE_RECURSIVE ->
  fib_path_get_resolving_interface_i Q
    (fib_path_create_i K pl_index nh_proto flags rpath)
  = frp_sw_if_index rpath.
Proof.
  intros Hty.
  destruct (fib_path_create_i_shape K pl_index nh_proto flags rpath)
    as (_ & _ & _ & _ & Hif).
  rewrite <- Hif.
  unfold fib_path_get_resolving_interface_i, interface_of.
  destruct (fp_type (fib_path_create_i K pl_index nh_proto flags rpath));
    congruence.
Qed.

Lemma fib_path_get_resolving_interface_create_witness :
  fib_path_get_resolving_interface_i QSample.qext
    (fib_path_create_i Sample.defs 0 FIB_PROTOCOL_IP4 0 Sample.rp_attached_next_hop)
  = 3.
Proof.
  apply (fib_path_get_resolving_interface_create Sample.defs QSample.qext 0
           FIB_PROTOCOL_IP4 0 Sample.rp_attached_next_hop).
  vm_compute. discriminate.
Defined.

Lemma exclusive_dpo_round_trip (d : dpo_id_t) (u : fib_path_union_t) :
  dpo_wf d ->
  exclusive_fp_ex_dpo (set_exclusive_fp_ex_dpo d u) = d.
Proof.
  destruct d as [t p n i]. unfold dpo_wf.
  cbn [dpoi_type dpoi_proto dpoi_next_node]. intros (Ht & Hp & Hn).
  unfold exclusive_fp_ex_dpo, set_exclusive_fp_ex_dpo.
  cbn [dpoi_type dpoi_proto dpoi_next_node dpoi_index u_w0 u_w1].
  rewrite (Z.mod_small t 256), (Z.mod_small p 256), (Z.mod_small n 65536) by lia.
  f_equal; Z.div_mod_to_equations; lia.
Qed.

Local Arguments exclusive_fp_ex_dpo : simpl never.
Local Arguments set_exclusive_fp_ex_dpo : simpl never.

(** X15: a path made by [fib_path_create_special] and then resolved holds,
    by its flags: with DROP the drop DPO of its protocol, unresolved; else
    with LOCAL the receive DPO for interface [~0] and the zero address;
    else the DPO the client gave, unchanged by its way through the union,
    and the path is resolved exactly when that DPO is valid.  Only the
    receive case calls a collaborator, the path holds no via-entry, and
    its resolving interface is [~0] in every case. *)
Theorem fib_path_create_special_resolve (K : fib_defs) (X : fib_ext)
    (Q : fib_query_ext) (pl_index path_index : Z) (nh_proto : fib_protocol_t)
    (flags : Z) (dpo : dpo_id_t) (tr : list event) :
  dpo_wf dpo ->
  let path := fib_path_create_special_i K pl_index nh_proto flags dpo in
  let proto := fib_proto_to_dpo X nh_proto in
  fib_path_get_resolving_interface_i Q path = U32_MAX /\
  exists s',
    fib_path_resolve_i K X path_index (mk_pstate path tr)
      = Ok (fib_path_is_resolved_i K (cur s'), s') /\
    fp_via_fib (cur s') = FIB_NODE_INDEX_INVALID /\
    if flag_test flags (FIB_PATH_CFG_FLAG_DROP K) then
      fp_dpo (cur s') = drop_dpo_get X proto /\
      fib_path_is_resolved_i K (cur s') = false /\ trace s' = tr
    else if flag_test flags (FIB_PATH_CFG_FLAG_LOCAL K) then
      fp_dpo (cur s') = receive_dpo_add_or_lock X proto U32_MAX zero_addr /\
      trace s' = tr ++ [Ev_receive_dpo_add_or_lock proto U32_MAX zero_addr]
    else
      fp_dpo (cur s') = dpo /\
      fib_path_is_resolved_i K (cur s') = dpo_id_is_valid dpo /\
      trace s' = tr.
Proof.
  intros Hwf path proto. subst path proto.
  unfold fib_path_create_special_i, fib_path_get_resolving_interface_i.
  destruct (flag_test flags (FIB_PATH_CFG_FLAG_DROP K)) eqn:Hd;
    [| destruct (flag_test flags (FIB_PATH_CFG_FLAG_LOCAL K)) eqn:Hl ].
  - split; [reflexivity|].
    unfold fib_path_resolve_i, fib_path_is_permanent_drop. pm_run.
    rewrite Hd. pm_run. eexists (mk_pstate _ _). split; [reflexivity|]. simpl.
    split; [reflexivity|]. split; [reflexivity|].
    split; [|reflexivity].
    unfold fib_path_is_resolved_i, fib_path_is_permanent_drop. simpl.
    rewrite Hd. simpl. apply andb_false_r.
  - split; [reflexivity|].
    unfold fib_path_resolve_i, fib_path_is_permanent_drop. pm_run.
    rewrite Hd. flags_norm. pm_run.
    eexists (mk_pstate _ _). split; [reflexivity|]. simpl. auto.
  - split; [reflexivity|].
    unfold fib_path_resolve_i, fib_path_is_permanent_drop. pm_run.
    rewrite Hd. flags_norm. pm_run.
    rewrite (exclusive_dpo_round_trip dpo _ Hwf).
    eexists (mk_pstate _ _). split; [reflexivity|]. simpl.
    split; [reflexivity|]. split; [reflexivity|]. split; [|reflexivity].
    unfold fib_path_is_resolved_i, fib_path_is_looped_i,
      fib_path_is_permanent_drop. simpl. rewrite Hd. flags_norm. simpl.
    rewrite !andb_true_r. reflexivity.
Qed.

Lemma fib_path_create_special_resolve_witness :
  exists s',
    fib_path_resolve_i Sample.defs Sample.ext 0
      (mk_pstate (fib_path_create_special_i Sample.defs 0 FIB_PROTOCOL_IP4 0
                    (mk_dpo 5 0 0 42)) [])
      = Ok (fib_path_is_resolved_i Sample.defs (cur s'), s') /\
    fp_dpo (cur s') = mk_dpo 5 0 0 42.
Proof.
  destruct (fib_path_create_special_resolve Sample.defs Sample.ext QSample.qext
              0 0 FIB_PROTOCOL_IP4 0 (mk_dpo 5 0 0 42) [])
    as (_ & s' & Hrun & _ & Hcase).
  - unfold dpo_wf. simpl. lia.
  - exists s'. split; [exact Hrun|].
    apply Hcase.
Defined.

(** ** Resolving and unresolving *)

Lemma and_right_first (A B : Prop) : B -> (B -> A) -> A /\ B.
Proof. tauto. Qed.

(** X16: on a path through an interface that is not a permanent drop,
    [fib_path_resolve] followed by [fib_path_unresolve] makes four calls:
    one that locks an adjacency, [adj_child_add] on it,
    [adj_child_remove] on it with the sibling index [adj_child_add]
    returned, and [adj_unlock] on it; the path is left without DPO and
    unresolved.  (The adjacency is read back from the DPO that [dpo_set]
    made, so [dpo_set] has to store the index it is given.) *)
Theorem fib_path_resolve_unresolve_interface (K : fib_defs) (X : fib_ext)
    (path_index : Z) (path : fib_path_t) (tr : list event) :
  (forall t p i, dpoi_index (dpo_set X t p i) = i) ->
  via_interface path = true ->
  fib_path_is_permanent_drop K path = false ->
  exists e ai s',
    resolve_then_unresolve K X path_index (mk_pstate path tr) = Ok (tt, s') /\
    locks_adj X e ai /\
    trace s' = tr ++ [e; Ev_adj_child_add ai path_index;
                      Ev_adj_child_remove ai (adj_child_add X ai path_index);
                      Ev_adj_unlock ai] /\
    fp_dpo (cur s') = DPO_INVALID /\
    fib_path_is_resolved_i K (cur s') = false /\
    same_config path (cur s').
Proof.
  intros Hdpo Hvia Hpd.
  destruct path as [nd pl cfg ty proto w u oper via d0 sib].
  unfold via_interface in Hvia. simpl in Hvia.
  unfold fib_path_is_permanent_drop in Hpd. simpl in Hpd.
  apply orb_false_elim in Hpd. destruct Hpd as [Hc Ho].
  unfold resolve_then_unresolve, fib_path_resolve_i, fib_path_unresolve,
    fib_path_attached_next_hop_set, fib_path_attached_next_hop_get_adj,
    fib_path_is_resolved_i, fib_path_is_looped_i, fib_path_is_permanent_drop,
    same_config.
  assert (Hsplit : exists i,
            i = match ty with
                | FIB_PATH_TYPE_ATTACHED => attached_fp_interface u
                | _ => attached_next_hop_fp_interface u
                end) by (eexists; reflexivity).
  destruct Hsplit as [i Hi].
  destruct (vnet_sw_interface_is_admin_up X i) eqn:Hup;
    destruct (vnet_sw_interface_is_p2p X i) eqn:Hp2p;
    destruct ty; try discriminate Hvia; subst i;
    repeat (progress (block_run; bool_norm;
                      rewrite ?Hc, ?Ho, ?Hup, ?Hp2p, ?Hdpo));
    do 2 eexists; eexists (mk_pstate _ _);
    (split; [reflexivity|]); simpl; trace_norm;
    (apply and_right_first;
     [ (split; [reflexivity|]); (split; [reflexivity|]);
       (split; [rewrite ?andb_false_r; reflexivity|]); repeat split
     | intros _; unfold locks_adj; reflexivity ]).
Qed.

Lemma fib_path_resolve_unresolve_interface_witness :
  exists e ai s',
    resolve_then_unresolve Sample.defs Sample.ext 0
      (mk_pstate (fib_path_create_i Sample.defs 0 FIB_PROTOCOL_IP4 0
                    Sample.rp_attached_next_hop) [])
      = Ok (tt, s') /\
    locks_adj Sample.ext e ai /\
    trace s' = [] ++ [e; Ev_adj_child_add ai 0;
                      Ev_adj_child_remove ai (adj_child_add Sample.ext ai 0);
                      Ev_adj_unlock ai].
Proof.
  destruct (fib_path_resolve_unresolve_interface Sample.defs Sample.ext 0
              (fib_path_create_i Sample.defs 0 FIB_PROTOCOL_IP4 0
                 Sample.rp_attached_next_hop) [])
    as (e & ai & s' & Hrun & Hlock & Htr & _).
  - intros t p i. reflexivity.
  - vm_compute. reflexivity.
  - vm_compute. reflexivity.
  - exists e, ai, s'. split; [exact Hrun|]. split; [exact Hlock | exact Htr].
Defined.


Ltac resolve_unresolve_done :=
  eexists (mk_pstate _ _); (split; [reflexivity|]); simpl; trace_norm;
  (split; [reflexivity|]);
  (split; [simpl; intros e He; tauto || (destruct He as [He|[]]; auto)|]);
  (split; [reflexivity|]); (split; [reflexivity|]);
  (split; [rewrite ?andb_false_r; reflexivity|]); repeat split.

(** X17: on a recursive path that is not a permanent drop and holds no
    via-entry yet, [fib_path_resolve] followed by [fib_path_unresolve]
    adds the special entry for the next-hop and becomes its child, and
    then takes both back: [fib_entry_child_remove] with the sibling index
    [fib_entry_child_add] returned, and [fib_table_entry_special_remove]
    in the same table with the prefix the entry reports.  In between it
    calls nothing but the load-balance map notification.  The path ends
    without via-entry, without DPO and unresolved. *)
Theorem fib_path_resolve_unresolve_recursive (K : fib_defs) (X : fib_ext)
    (path_index : Z) (path : fib_path_t) (tr : list event) :
  fp_type path = FIB_PATH_TYPE_RECURSIVE ->
  fib_path_is_permanent_drop K path = false ->
  fp_via_fib path = FIB_NODE_INDEX_INVALID ->
  let tbl := recursive_fp_tbl_id (fp_u path) in
  let fei := fib_table_entry_special_add X tbl (recursive_pfx path) in
  fei <> FIB_NODE_INDEX_INVALID ->
  exists mid s',
    resolve_then_unresolve K X path_index (mk_pstate path tr) = Ok (tt, s') /\
    trace s' =
      tr ++ [Ev_fib_table_entry_special_add tbl (recursive_pfx path);
             Ev_fib_entry_child_add fei path_index]
         ++ mid
         ++ [Ev_fib_entry_child_remove fei (fib_entry_child_add X fei path_index);
             Ev_fib_table_entry_special_remove tbl (fib_entry_get_prefix X fei)] /\
    (forall e, In e mid -> e = Ev_load_balance_map_path_state_change path_index) /\
    fp_via_fib (cur s') = FIB_NODE_INDEX_INVALID /\
    fp_dpo (cur s') = DPO_INVALID /\
    fib_path_is_resolved_i K (cur s') = false /\
    same_config path (cur s').
Proof.
  destruct path as [nd pl cfg ty proto w u oper via d0 sib]. simpl.
  intros -> Hpd -> Hfei.
  unfold fib_path_is_permanent_drop in Hpd. simpl in Hpd.
  apply orb_false_elim in Hpd. destruct Hpd as [Hc Ho].
  unfold recursive_pfx in *. simpl in *.
  apply Z.eqb_neq in Hfei. rewrite Z.eqb_sym in Hfei.
  unfold resolve_then_unresolve, fib_path_resolve_i, fib_path_unresolve,
    fib_path_recursive_adj_update,
    fib_path_is_resolved_i, fib_path_is_looped_i, fib_path_is_permanent_drop,
    same_config.
  block_run. bool_norm. rewrite Hc, Ho. block_run.
  rewrite andb_false_r. simpl.
  destruct proto; simpl in Hfei |- *;
    set (fei := fib_table_entry_special_add X _ _) in *; clearbody fei;
    repeat (progress (block_run; bool_norm; rewrite ?Hc, ?Ho, ?Hfei));
    repeat (split_if;
            repeat (progress (block_run; bool_norm; rewrite ?Hc, ?Ho, ?Hfei))).
  all: first
    [ solve [ exists []; resolve_unresolve_done ]
    | solve [ exists [Ev_load_balance_map_path_state_change path_index];
              resolve_unresolve_done ] ].
Qed.

Lemma fib_path_resolve_unresolve_recursive_witness :
  exists mid s',
    resolve_then_unresolve Sample.defs Sample.ext 0
      (mk_pstate (fib_path_create_i Sample.defs 0 FIB_PROTOCOL_IP4 0
                    Sample.rp_recursive) [])
      = Ok (tt, s') /\
    (forall e, In e mid -> e = Ev_load_balance_map_path_state_change 0) /\
    fp_via_fib (cur s') = FIB_NODE_INDEX_INVALID.
Proof.
  destruct (fib_path_resolve_unresolve_recursive Sample.defs Sample.ext 0
              (fib_path_create_i Sample.defs 0 FIB_PROTOCOL_IP4 0
                 Sample.rp_recursive) [])
    as (mid & s' & Hrun & _ & Hmid & Hvia & _).
  - vm_compute. reflexivity.
  - vm_compute. reflexivity.
  - vm_compute. reflexivity.
  - vm_compute. lia.
  - exists mid, s'. split; [exact Hrun|]. split; [exact Hmid | exact Hvia].
Defined.

(** ** Contributions *)

Lemma fib_forward_chain_type_eqb_eq (a b : fib_forward_chain_type_t) :
  fib_forward_chain_type_eqb a b = true <-> a = b.
Proof. destruct a, b; simpl; split; congruence. Qed.

(** X18: [fib_path_contribute_forwarding] fails only on an assertion, so
    never when assertions are compiled out.  It leaves the path's
    configuration, DPO, via-entry and sibling index as they were, and
    leaves a path that is not recursive untouched altogether.  Asked for
    the chain type of the path's own protocol, it hands out the path's DPO
    and calls no collaborator. *)
Theorem fib_path_contribute_forwarding_frame (K : fib_defs) (X : fib_ext)
    (Q : fib_query_ext) (path_index : Z) (fct : fib_forward_chain_type_t)
    (dpo : dpo_id_t) (path : fib_path_t) (tr : list query_event) :
  match fib_path_contribute_forwarding_i K X Q path_index fct dpo
          (mk_qstate path tr) with
  | Ok (d, s') =>
      same_config path (qcur s') /\
      fp_dpo (qcur s') = fp_dpo path /\
      fp_via_fib (qcur s') = fp_via_fib path /\
      fp_sibling (qcur s') = fp_sibling path /\
      (fp_type path <> FIB_PATH_TYPE_RECURSIVE -> qcur s' = path) /\
      (fib_path_proto_to_chain_type (fp_nh_proto path) = fct ->
       d = fp_dpo path /\ s' = mk_qstate path tr)
  | AssertFailed => CLIB_ASSERT_ENABLE K = true
  | InvalidIndex => False
  end.
Proof.
  destruct path as [nd pl cfg ty proto w u oper via d0 sib].
  unfold fib_path_contribute_forwarding_i, fib_path_recursive_adj_update,
    fib_path_attached_next_hop_get_adj, same_config.
  destruct (CLIB_ASSERT_ENABLE K) eqn:HA;
    destruct fct; destruct proto; destruct ty;
    qm_run; block_run; rewrite ?HA; simpl; auto;
    repeat (split_if; qm_run; block_run; bool_norm; auto);
    repeat split; auto; try congruence.
Qed.




(** X21: [fib_path_contribute_urpf] never fails and never changes the
    path.  A path that is not resolved contributes nothing, of whatever
    kind.  A resolved path through an interface appends to the uRPF list
    the very interface [fib_path_get_resolving_interface] reports, a
    resolved recursive path passes the list on to its via-entry, and deag
    and receive paths contribute nothing. *)
Theorem fib_path_contribute_urpf_cases (K : fib_defs) (Q : fib_query_ext)
    (urpf : Z) (path : fib_path_t) (tr : list query_event) :
  exists evs,
    fib_path_contribute_urpf_i K Q urpf (mk_qstate path tr)
      = Ok (tt, mk_qstate path (tr ++ evs)) /\
    (fib_path_is_resolved_i K path = false -> evs = []) /\
    (fib_path_is_resolved_i K path = true ->
     match fp_type path with
     | FIB_PATH_TYPE_ATTACHED_NEXT_HOP | FIB_PATH_TYPE_ATTACHED =>
         evs = [Qv_fib_urpf_list_append urpf
                  (fib_path_get_resolving_interface_i Q path)]
     | FIB_PATH_TYPE_RECURSIVE =>
         evs = [Qv_fib_entry_contribute_urpf (fp_via_fib path) urpf]
     | FIB_PATH_TYPE_DEAG | FIB_PATH_TYPE_RECEIVE => evs = []
     | FIB_PATH_TYPE_SPECIAL | FIB_PATH_TYPE_EXCLUSIVE =>
         evs = if dpo_is_adj Q (fp_dpo path)
               then [Qv_fib_urpf_list_append urpf
                       (adj_get_sw_if_index Q (dpoi_index (fp_dpo path)))]
               else []
     end).
Proof.
  unfold fib_path_contribute_urpf_i, fib_path_get_resolving_interface_i.
  unfold q_bind at 1. unfold q_get_path at 1. cbn [qcur].
  destruct (fib_path_is_resolved_i K path) eqn:Hr; cbn [negb].
  - destruct (fp_type path); try destruct (dpo_is_adj Q (fp_dpo path));
      qm_run;
      first [ solve [ eexists; (split; [reflexivity|]);
                      split; intros; congruence || reflexivity ]
            | solve [ exists []; rewrite app_nil_r; (split; [reflexivity|]);
                      split; intros; congruence || reflexivity ] ].
  - exists []. qm_run. rewrite app_nil_r. repeat split; congruence.
Qed.

(** ** Loops and re-evaluation *)

(** X22: on a recursive path that is not a permanent drop, loop detection
    followed by an EVALUATE walk never fails and leaves the path looped
    exactly when its via-entry is among the entries visited or the
    via-entry reports a loop further down.  A looped path then holds the
    drop DPO of its protocol and is unresolved, whichever way the loop was
    found; a path found free of loops and under no recursion constraint
    holds the via-entry's forwarding again and is resolved when that DPO
    is valid. *)
Theorem loop_detect_then_evaluate (K : fib_defs) (X : fib_ext)
    (path_index : Z) (entry_indicies : list Z)
    (ctx : fib_node_back_walk_ctx_t) (path : fib_path_t) (tr : list event) :
  fp_type path = FIB_PATH_TYPE_RECURSIVE ->
  fib_path_is_permanent_drop K path = false ->
  reason_has ctx (FIB_NODE_BW_REASON_FLAG_EVALUATE K) = true ->
  let looped :=
    existsb (fun entry_index => entry_index =? fp_via_fib path) entry_indicies
    || fib_entry_recursive_loop_detect X (fp_via_fib path) entry_indicies in
  let via_dpo := fib_entry_contribute_forwarding X (fp_via_fib path)
                   (fib_path_proto_to_chain_type (fp_nh_proto path)) in
  exists s',
    run_ops K path_index
      [Op_recursive_loop_detect X entry_indicies; Op_back_walk X ctx]
      (mk_pstate path tr) = Ok (tt, s') /\
    fib_path_is_looped_i (cur s') = looped /\
    if looped then
      fp_dpo (cur s') = drop_dpo_get X (fib_proto_to_dpo X (fp_nh_proto path)) /\
      fib_path_is_resolved_i K (cur s') = false
    else
      flag_test (fp_cfg_flags path) (FIB_PATH_CFG_FLAG_RESOLVE_HOST K) = false ->
      flag_test (fp_cfg_flags path) (FIB_PATH_CFG_FLAG_RESOLVE_ATTACHED K) = false ->
      fp_dpo (cur s') = via_dpo /\
      fib_path_is_resolved_i K (cur s') = dpo_id_is_valid via_dpo.
Proof.
  destruct path as [nd pl cfg ty proto w u oper via d0 sib]. simpl.
  intros -> Hpd Hev.
  unfold fib_path_is_permanent_drop in Hpd. simpl in Hpd.
  apply orb_false_elim in Hpd. destruct Hpd as [Hc Ho].
  unfold reason_has in Hev.
  unfold run_ops, run_op, fib_path_recursive_loop_detect_i,
    fib_path_back_walk_notify, back_walk_recursive,
    fib_path_recursive_adj_update, fib_path_is_resolved_i,
    fib_path_is_looped_i, fib_path_is_permanent_drop.
  destruct (existsb (fun entry_index => entry_index =? via) entry_indicies)
    eqn:Hin;
    destruct (fib_entry_recursive_loop_detect X via entry_indicies) eqn:Hdown;
    repeat (progress (block_run; bool_norm; rewrite ?Hc, ?Ho, ?Hev, ?Hin, ?Hdown));
    repeat (split_if;
            repeat (progress (block_run; bool_norm;
                              rewrite ?Hc, ?Ho, ?Hev, ?Hin, ?Hdown)));
    eexists (mk_pstate _ _); (split; [reflexivity|]); simpl; bool_norm;
    rewrite ?Hc, ?Ho; simpl;
    (split; [reflexivity|]);
    try (split; [reflexivity | rewrite ?andb_false_r; reflexivity]);
    intros; try congruence;
    (split; [reflexivity | rewrite ?andb_true_r; reflexivity]).
Qed.

Lemma loop_detect_then_evaluate_witness :
  exists s',
    run_ops Sample.defs 0
      [Op_recursive_loop_detect Sample.ext [7];
       Op_back_walk Sample.ext
         (mk_bw_ctx (FIB_NODE_BW_REASON_FLAG_EVALUATE Sample.defs))]
      (mk_pstate Sample.path_recursive_resolved []) = Ok (tt, s') /\
    fib_path_is_looped_i (cur s') = true.
Proof.
  destruct (loop_detect_then_evaluate Sample.defs Sample.ext 0 [7]
              (mk_bw_ctx (FIB_NODE_BW_REASON_FLAG_EVALUATE Sample.defs))
              Sample.path_recursive_resolved [])
    as (s' & Hrun & Hl & _).
  - vm_compute. reflexivity.
  - vm_compute. reflexivity.
  - vm_compute. reflexivity.
  - exists s'. split; [exact Hrun|]. rewrite Hl. vm_compute. reflexivity.
Defined.

(** ** Adjacency updates *)



(** ** Weights *)

(** X24: the weight [fib_path_get_weight] reports for a path that
    [fib_path_create] made is never 0: a descriptor weight of 0 gives 1,
    and a descriptor weight that fits an [int] is reported as it is. *)
Theorem fib_path_get_weight_create (K : fib_defs) (pl_index : Z)
    (nh_proto : fib_protocol_t) (flags : Z) (rpath : fib_route_path_t) :
  is_u32 (frp_weight rpath) ->
  let weight := fib_path_get_weight_i
                  (fib_path_create_i K pl_index nh_proto flags rpath) in
  weight <> 0 /\
  (frp_weight rpath = 0 -> weight = 1) /\
  (0 < frp_weight rpath < 2147483648 -> weight = frp_weight rpath).
Proof.
  intros Hw.
  destruct (fib_path_create_i_shape K pl_index nh_proto flags rpath)
    as (_ & Hweight & _).
  unfold fib_path_get_weight_i. cbv zeta. rewrite Hweight. clear Hweight.
  unfold is_u32 in Hw. unfold u32_as_int. unfold U32_MOD in *.
  destruct (Z.eqb_spec (frp_weight rpath) 0) as [E|E].
  - rewrite E. repeat split; try reflexivity; try discriminate; lia.
  - rewrite Z.mod_small by lia.
    destruct (Z.ltb_spec (frp_weight rpath) 2147483648);
      repeat split; intros; lia.
Qed.

Lemma fib_path_get_weight_create_witness :
  fib_path_get_weight_i
    (fib_path_create_i Sample.defs 0 FIB_PROTOCOL_IP4 0 Sample.rp_weight_zero)
  = 1.
Proof.
  apply (fib_path_get_weight_create Sample.defs 0 FIB_PROTOCOL_IP4 0
           Sample.rp_weight_zero).
  - unfold is_u32. vm_compute. split; [discriminate | reflexivity].
  - vm_compute. reflexivity.
Defined.
